(** * cursor_prompt_logger: extraction, ordering and rendering of prompt records

    A shallow embedding of [cursor_prompt_logger.py].  Python values are
    modelled as data (strings as sequences of code points, decoded JSON as a
    tree, dictionaries as insertion-ordered association lists), exceptions as
    an explicit result type, the wall clock and the filesystem as explicit
    inputs.

    The interpreter is CPython 3.11 with its default limits (a recursion
    limit of 1000, integer literals of at most 4300 digits) and the tables of
    Unicode 14.0, the program is run as a script, and memory never runs out.
    The filesystem is a tree of directories and files that the program may
    read and write, without links and with UTF-8 names; the paths that the
    environment gives (the home directory, the override) are within its
    limits on names.  What the program prints is not modelled, and printing
    is taken not to fail. *)

From Stdlib Require Import String Ascii Bool NArith ZArith Lia List.
From Stdlib Require Import Sorting.Sorted Sorting.Permutation.
From Stdlib Require Import Floats.SpecFloat.
Import ListNotations.

Local Open Scope N_scope.

(* ================================================================== *)
(** * Python strings *)
(* ================================================================== *)

(** A Python [str] is a sequence of Unicode code points. *)
Definition str := list N.

(** [ch "a"] is the code point of an ASCII character, [lit "abc"] the [str]
    of an ASCII literal. *)
Definition ch (a : ascii) : N := N_of_ascii a.
Definition lit (x : string) : str := map N_of_ascii (list_ascii_of_string x).

(** The double quote, and [jlit]: an ASCII literal in which an apostrophe
    stands for a double quote, to write JSON texts. *)
Definition dquote : N := 34.
Definition jlit (x : string) : str :=
  map (fun c => if c =? 39 then dquote else c) (lit x).

Fixpoint str_eqb (a b : str) : bool :=
  match a, b with
  | [], [] => true
  | x :: a', y :: b' => (x =? y) && str_eqb a' b'
  | _, _ => false
  end.

(** [a < b] on [str]: lexicographic on code points. *)
Fixpoint str_ltb (a b : str) : bool :=
  match a, b with
  | _, [] => false
  | [], _ :: _ => true
  | x :: a', y :: b' => (x <? y) || ((x =? y) && str_ltb a' b')
  end.

(** [str.isspace] on one code point: the characters of bidirectional type
    WS, B or S and of category Zs. *)
Definition isspace (c : N) : bool :=
  ((9 <=? c) && (c <=? 13)) || ((28 <=? c) && (c <=? 32))
  || (c =? 133) || (c =? 160) || (c =? 5760)
  || ((8192 <=? c) && (c <=? 8202))
  || (c =? 8232) || (c =? 8233) || (c =? 8239) || (c =? 8287) || (c =? 12288).

Fixpoint lstrip (s : str) : str :=
  match s with
  | c :: t => if isspace c then lstrip t else s
  | [] => []
  end.

Definition rstrip (s : str) : str := rev (lstrip (rev s)).

(** [s.strip()] *)
Definition strip (s : str) : str := rstrip (lstrip s).

(** [s.endswith(suffix)] *)
Fixpoint startswith (s p : str) : bool :=
  match p, s with
  | [], _ => true
  | y :: p', x :: s' => (x =? y) && startswith s' p'
  | _ :: _, [] => false
  end.

Definition endswith (s suffix : str) : bool := startswith (rev s) (rev suffix).

(** Removes a prefix, when it is one. *)
Fixpoint strip_prefix (p s : str) : option str :=
  match p, s with
  | [], _ => Some s
  | y :: p', x :: s' => if x =? y then strip_prefix p' s' else None
  | _ :: _, [] => None
  end.

(* ================================================================== *)
(** * Python values decoded from JSON *)
(* ================================================================== *)

(** A Python [float] is an IEEE-754 binary64 number. *)
Definition pyfloat := spec_float.
Definition prec64 : Z := 53.
Definition emax64 : Z := 1024.

(** What [json.loads] can return: [None], [bool], [int], [float], [str],
    [list] and [dict] (insertion-ordered, keys are [str] and unique). *)
Unset Elimination Schemes.
Inductive json : Type :=
| JNull
| JBool (b : bool)
| JInt (z : Z)
| JFloat (f : pyfloat)
| JStr (s : str)
| JArr (items : list json)
| JObj (fields : list (str * json)).
Set Elimination Schemes.

(** [d.get(k)] as an option, and [k in d]. *)
Fixpoint dict_get (k : str) (d : list (str * json)) : option json :=
  match d with
  | [] => None
  | (k', v) :: d' => if str_eqb k k' then Some v else dict_get k d'
  end.

Definition dict_contains (k : str) (d : list (str * json)) : bool :=
  match dict_get k d with Some _ => true | None => false end.

(** [d[k] = v]: an existing key keeps its position. *)
Fixpoint dict_set (k : str) (v : json) (d : list (str * json)) : list (str * json) :=
  match d with
  | [] => [(k, v)]
  | (k', v') :: d' => if str_eqb k k' then (k, v) :: d' else (k', v') :: dict_set k v d'
  end.

(** [dict(pairs)] *)
Definition dict_of_pairs (pairs : list (str * json)) : list (str * json) :=
  fold_left (fun d kv => dict_set (fst kv) (snd kv) d) pairs [].

(** Exceptions the program can meet.  [JSONDecodeError] is a subclass of
    [ValueError]; [ValueError] stands for one that is not a
    [JSONDecodeError]. *)
Inductive exn : Type :=
| JSONDecodeError
| RecursionError
| ValueError
| AttributeError
| TypeError
| UnicodeEncodeError
| IOError.

Inductive result (A : Type) : Type :=
| Ok (a : A)
| Raise (e : exn).
Arguments Ok {A} a.
Arguments Raise {A} e.

Definition bind {A B} (r : result A) (k : A -> result B) : result B :=
  match r with
  | Ok a => k a
  | Raise e => Raise e
  end.

Notation "x <- c ;; k" := (bind c (fun x => k))
  (at level 61, c at next level, right associativity).

(* ================================================================== *)
(** * [json.loads] *)
(* ================================================================== *)

(** The decoder of the [json] module of the standard library, on a [str]:
    [loads] is [JSONDecoder.decode], [scan_once] the scanner, [JSONArray],
    [JSONObject] and [py_scanstring] its parsers.  A text that is not JSON
    is refused with [JSONDecodeError]; a text that nests containers too
    deeply ends in [RecursionError], an integer literal with too many
    digits in [ValueError].  Positions and messages are not modelled. *)
Module Json.

(** [sys.getrecursionlimit()] *)
Definition recursion_limit : nat := 1000.

(** What is on the stack when the scanner starts: the frames of the
    module, of [main], of [extract_prompts_from_value], of [loads], of
    [decode] and of [raw_decode], and the call of the scanner. *)
Definition frames : nat := 7.

(** The containers that can be open at once: the scanner enters a
    recursive call for every array and every object that it opens. *)
Definition max_depth : nat := recursion_limit - frames.

(** [sys.get_int_max_str_digits()] *)
Definition int_max_str_digits : nat := 4300.

Definition is_ws (c : N) : bool :=
  (c =? 32) || (c =? 9) || (c =? 10) || (c =? 13).

(** [WHITESPACE.match(s, idx).end()] *)
Fixpoint skip_ws (s : str) : str :=
  match s with
  | c :: t => if is_ws c then skip_ws t else s
  | [] => []
  end.

Definition is_digit (c : N) : bool := (48 <=? c) && (c <=? 57).

Definition hex_digit (c : N) : option N :=
  if (48 <=? c) && (c <=? 57) then Some (c - 48)
  else if (97 <=? c) && (c <=? 102) then Some (c - 87)
  else if (65 <=? c) && (c <=? 70) then Some (c - 55)
  else None.

Definition hex4 (a b c d : N) : option N :=
  match hex_digit a, hex_digit b, hex_digit c, hex_digit d with
  | Some x, Some y, Some z, Some w => Some (((x * 16 + y) * 16 + z) * 16 + w)
  | _, _, _, _ => None
  end.

(** [BACKSLASH]: the one-character escapes. *)
Definition backslash (c : N) : option N :=
  if c =? dquote then Some dquote
  else if c =? ch "\" then Some (ch "\")
  else if c =? ch "/" then Some (ch "/")
  else if c =? ch "b" then Some 8
  else if c =? ch "f" then Some 12
  else if c =? ch "n" then Some 10
  else if c =? ch "r" then Some 13
  else if c =? ch "t" then Some 9
  else None.

(** A character of a string literal: written as it is, or by [\uXXXX]. *)
Inductive cunit : Type :=
| Raw (c : N)
| Esc (c : N).

(** The body of a string literal up to its closing quote ([strict] mode:
    a control character is refused). *)
Fixpoint scan_units (s : str) : option (list cunit * str) :=
  match s with
  | [] => None
  | c :: t =>
      if c =? dquote then Some ([], t)
      else if c =? ch "\" then
        match t with
        | [] => None
        | e :: t1 =>
            if e =? ch "u" then
              match t1 with
              | h1 :: h2 :: h3 :: h4 :: t2 =>
                  match hex4 h1 h2 h3 h4 with
                  | Some u =>
                      match scan_units t2 with
                      | Some (us, rest) => Some (Esc u :: us, rest)
                      | None => None
                      end
                  | None => None
                  end
              | _ => None
              end
            else
              match backslash e with
              | Some c' =>
                  match scan_units t1 with
                  | Some (us, rest) => Some (Raw c' :: us, rest)
                  | None => None
                  end
              | None => None
              end
        end
      else if c <? 32 then None
      else
        match scan_units t with
        | Some (us, rest) => Some (Raw c :: us, rest)
        | None => None
        end
  end.

Definition is_high (c : N) : bool := (55296 <=? c) && (c <=? 56319).
Definition is_low (c : N) : bool := (56320 <=? c) && (c <=? 57343).

(** An escaped high surrogate followed by an escaped low surrogate is one
    code point; a lone surrogate stays. *)
Fixpoint join_surrogates (us : list cunit) : str :=
  match us with
  | [] => []
  | Esc hi :: tl =>
      match tl with
      | Esc lo :: rest =>
          if is_high hi && is_low lo
          then (65536 + (hi - 55296) * 1024 + (lo - 56320)) :: join_surrogates rest
          else hi :: join_surrogates tl
      | _ => hi :: join_surrogates tl
      end
  | Raw c :: tl => c :: join_surrogates tl
  end.

(** [py_scanstring(s, end)], [s] starting after the opening quote. *)
Definition py_scanstring (s : str) : option (str * str) :=
  match scan_units s with
  | Some (us, rest) => Some (join_surrogates us, rest)
  | None => None
  end.

(** The longest prefix of ASCII digits, as digit values. *)
Fixpoint span_digits (s : str) : list N * str :=
  match s with
  | c :: t =>
      if is_digit c
      then let '(ds, r) := span_digits t in ((c - 48) :: ds, r)
      else ([], s)
  | [] => ([], [])
  end.

Definition digits_value (ds : list N) : Z :=
  fold_left (fun acc d => (acc * 10 + Z.of_N d)%Z) ds 0%Z.

(** [float(literal)] for the literal [m * 10^k], correctly rounded to
    binary64 (round to nearest, ties to even). *)
Definition strtod (neg : bool) (m : Z) (k : Z) : pyfloat :=
  match m with
  | Zpos p =>
      match k with
      | Zneg _ =>
          let '(q, e, l) :=
            SFdiv_core_binary prec64 emax64 (Zpos p) 0 (10 ^ (- k))%Z 0 in
          binary_round_aux prec64 emax64 neg q e l
      | _ =>
          match (Zpos p * 10 ^ k)%Z with
          | Zpos q => binary_round prec64 emax64 neg q 0
          | _ => S754_zero neg
          end
      end
  | _ => S754_zero neg
  end.

(** [int(literal)] for a literal of decimal digits: more digits than the
    limit are refused with [ValueError]. *)
Definition int_of_digits (neg : bool) (ds : list N) : result json :=
  if (int_max_str_digits <? length ds)%nat then Raise ValueError
  else Ok (JInt (if neg then (- digits_value ds)%Z else digits_value ds)).

(** [NUMBER_RE]: an optional minus sign, then [0] or a digit from 1 to 9
    followed by digits; then optionally a dot and at least one digit; then
    optionally [e] or [E], an optional sign and at least one digit.  The
    value is an [int] without fraction and exponent, a [float] otherwise. *)
Definition match_number (s : str) : option (result json * str) :=
  let '(neg, s1) :=
    match s with
    | c :: t => if c =? ch "-" then (true, t) else (false, s)
    | [] => (false, s)
    end in
  match s1 with
  | d :: t =>
      if is_digit d then
        let '(ip, r1) := if d =? ch "0" then ([0], t) else span_digits s1 in
        let '(fp, r2) :=
          match r1 with
          | c :: t' =>
              if c =? ch "." then
                match span_digits t' with
                | ([], _) => ([], r1)
                | (ds, r) => (ds, r)
                end
              else ([], r1)
          | [] => ([], r1)
          end in
        let '(ex, r3) :=
          match r2 with
          | c :: t' =>
              if (c =? ch "e") || (c =? ch "E") then
                let '(eneg, t'') :=
                  match t' with
                  | c2 :: u =>
                      if c2 =? ch "-" then (true, u)
                      else if c2 =? ch "+" then (false, u)
                      else (false, t')
                  | [] => (false, t')
                  end in
                match span_digits t'' with
                | ([], _) => (None, r2)
                | (ds, r) =>
                    (Some (if eneg then (- digits_value ds)%Z else digits_value ds), r)
                end
              else (None, r2)
          | [] => (None, r2)
          end in
        match fp, ex with
        | [], None => Some (int_of_digits neg ip, r3)
        | _, _ =>
            let e := match ex with Some e => e | None => 0%Z end in
            Some (Ok (JFloat (strtod neg (digits_value (ip ++ fp))
                                (e - Z.of_nat (length fp)))), r3)
        end
      else None
  | [] => None
  end.

(** Outcome of a scanner: out of fuel, an exception, or a value and the
    rest of the input. *)
Inductive scan (A : Type) : Type :=
| OutOfFuel
| Fail (e : exn)
| Done (a : A) (rest : str).
Arguments OutOfFuel {A}.
Arguments Fail {A} e.
Arguments Done {A} a rest.

(** The text is not JSON. *)
Definition refuse : scan json := Fail JSONDecodeError.

Definition constant (name : string) (v : json) (s : str) : scan json :=
  match strip_prefix (lit name) s with
  | Some rest => Done v rest
  | None => refuse
  end.

(** [scan_once], with the loops of [JSONArray] and [JSONObject]: [array_loop]
    is entered before a value, [object_loop] after the opening quote of a
    key; [acc] holds what was read, last first.  [depth] is the number of
    containers that can still be opened: the scanner enters a recursive call
    when it meets the bracket of an array or of an object, before it reads
    on. *)
Fixpoint scan_once (fuel : nat) (depth : nat) (s : str) : scan json :=
  match fuel with
  | O => OutOfFuel
  | S fuel' =>
      match s with
      | [] => refuse
      | c :: t =>
          if c =? dquote then
            match py_scanstring t with
            | Some (k, rest) => Done (JStr k) rest
            | None => refuse
            end
          else if c =? ch "{" then
            match depth with
            | O => Fail RecursionError
            | S depth' =>
                match skip_ws t with
                | c1 :: t1 =>
                    if c1 =? dquote then object_loop fuel' depth' t1 []
                    else if c1 =? ch "}" then Done (JObj []) t1
                    else refuse
                | [] => refuse
                end
            end
          else if c =? ch "[" then
            match depth with
            | O => Fail RecursionError
            | S depth' =>
                match skip_ws t with
                | c1 :: t1 =>
                    if c1 =? ch "]" then Done (JArr []) t1
                    else array_loop fuel' depth' (c1 :: t1) []
                | [] => refuse
                end
            end
          else if c =? ch "n" then constant "null" JNull s
          else if c =? ch "t" then constant "true" (JBool true) s
          else if c =? ch "f" then constant "false" (JBool false) s
          else if c =? ch "N" then constant "NaN" (JFloat S754_nan) s
          else if c =? ch "I" then constant "Infinity" (JFloat (S754_infinity false)) s
          else
            match match_number s with
            | Some (Ok v, rest) => Done v rest
            | Some (Raise e, _) => Fail e
            | None =>
                if c =? ch "-"
                then constant "-Infinity" (JFloat (S754_infinity true)) s
                else refuse
            end
      end
  end
with array_loop (fuel : nat) (depth : nat) (s : str) (acc : list json) : scan json :=
  match fuel with
  | O => OutOfFuel
  | S fuel' =>
      match scan_once fuel' depth s with
      | Done v rest =>
          match skip_ws rest with
          | c :: t =>
              if c =? ch "]" then Done (JArr (rev (v :: acc))) t
              else if c =? ch "," then array_loop fuel' depth (skip_ws t) (v :: acc)
              else refuse
          | [] => refuse
          end
      | Fail e => Fail e
      | OutOfFuel => OutOfFuel
      end
  end
with object_loop (fuel : nat) (depth : nat) (s : str) (acc : list (str * json))
  : scan json :=
  match fuel with
  | O => OutOfFuel
  | S fuel' =>
      match py_scanstring s with
      | Some (key, rest) =>
          match skip_ws rest with
          | c :: t =>
              if c =? ch ":" then
                match scan_once fuel' depth (skip_ws t) with
                | Done v rest' =>
                    match skip_ws rest' with
                    | c' :: t' =>
                        if c' =? ch "}"
                        then Done (JObj (dict_of_pairs (rev ((key, v) :: acc)))) t'
                        else if c' =? ch "," then
                          match skip_ws t' with
                          | q :: t'' =>
                              if q =? dquote
                              then object_loop fuel' depth t'' ((key, v) :: acc)
                              else refuse
                          | [] => refuse
                          end
                        else refuse
                    | [] => refuse
                    end
                | Fail e => Fail e
                | OutOfFuel => OutOfFuel
                end
              else refuse
          | [] => refuse
          end
      | None => refuse
      end
  end.

(** Fuel that [scan_once] never exhausts on [s]. *)
Definition fuel_for (s : str) : nat := S (2 * length s).

(** [json.loads(s)] for a [str]: a byte order mark is refused, white space
    around the value is skipped, anything after it is an error.  [None]
    only if the fuel ran out, which [loads_total] excludes. *)
Definition loads_fuel (fuel : nat) (s : str) : option (result json) :=
  match s with
  | 65279 :: _ => Some (Raise JSONDecodeError)
  | _ =>
      match scan_once fuel max_depth (skip_ws s) with
      | Done v rest =>
          match skip_ws rest with
          | [] => Some (Ok v)
          | _ :: _ => Some (Raise JSONDecodeError)
          end
      | Fail e => Some (Raise e)
      | OutOfFuel => None
      end
  end.

Definition loads (s : str) : result json :=
  match loads_fuel (fuel_for s) s with
  | Some r => r
  | None => Raise JSONDecodeError
  end.

End Json.

(* ================================================================== *)
(** * The wall clock *)
(* ================================================================== *)

(** A naive [datetime.datetime]. *)
Record datetime : Type := mkDatetime {
  year : N; month : N; day : N;
  hour : N; minute : N; second : N; microsecond : N
}.

Definition valid_datetime (d : datetime) : Prop :=
  1 <= year d <= 9999 /\ 1 <= month d <= 12 /\ 1 <= day d <= 31 /\
  hour d <= 23 /\ minute d <= 59 /\ second d <= 59 /\ microsecond d <= 999999.

(** The decimal digits of [n] in front of [acc], by successive division. *)
Fixpoint decimal_aux (fuel : nat) (n : N) (acc : str) : str :=
  match fuel with
  | O => acc
  | S fuel' =>
      if n <? 10 then (48 + n) :: acc
      else decimal_aux fuel' (n / 10) ((48 + n mod 10) :: acc)
  end.

(** ["%d" % n] and ["%0wd" % n] for a natural number ([n] has at most
    [log2 n + 1] decimal digits). *)
Definition decimal (n : N) : str := decimal_aux (S (N.to_nat (N.log2 n))) n [].
Definition zfill (w : nat) (s : str) : str := repeat 48 (w - length s) ++ s.
Definition fmt_d (w : nat) (n : N) : str := zfill w (decimal n).

(** [d.isoformat()]: [YYYY-MM-DDTHH:MM:SS], followed by [.ffffff] when the
    microsecond is not zero. *)
Definition isoformat (d : datetime) : str :=
  fmt_d 4 (year d) ++ lit "-" ++ fmt_d 2 (month d) ++ lit "-" ++ fmt_d 2 (day d)
  ++ lit "T" ++ fmt_d 2 (hour d) ++ lit ":" ++ fmt_d 2 (minute d)
  ++ lit ":" ++ fmt_d 2 (second d)
  ++ (if microsecond d =? 0 then [] else lit "." ++ fmt_d 6 (microsecond d)).

(** The clock: [clk i] is what the [i]-th call of [datetime.datetime.now()]
    of a run returns.  A run threads the number of calls made so far. *)
Definition clock := nat -> datetime.

(* ================================================================== *)
(** * Record extraction *)
(* ================================================================== *)

(** [COMMAND_TYPES] *)
Definition COMMAND_TYPES : list (Z * str) :=
  [ (1%Z, lit "chat");
    (2%Z, lit "completion");
    (3%Z, lit "insert");
    (4%Z, lit "edit");
    (5%Z, lit "delete");
    (6%Z, lit "format");
    (7%Z, lit "explain");
    (8%Z, lit "test");
    (9%Z, lit "fix");
    (10%Z, lit "optimize") ].

Fixpoint int_dict_get (k : Z) (d : list (Z * str)) : option str :=
  match d with
  | [] => None
  | (k', v) :: d' => if Z.eqb k k' then Some v else int_dict_get k d'
  end.

(** [isinstance(v, int)], with the integer: [bool] is a subclass of [int],
    [True] is 1 and [False] is 0. *)
Definition as_int (v : json) : option Z :=
  match v with
  | JInt z => Some z
  | JBool true => Some 1%Z
  | JBool false => Some 0%Z
  | _ => None
  end.

(** The element of [extracted_prompts]: a dictionary with the four keys
    [content], [command_type], [timestamp] and [raw_data]. *)
Record prompt_record : Type := mkRecord {
  content : json;
  command_type : json;
  timestamp : json;
  raw_data : list (str * json)
}.

(** Lines 144 to 146: [prompt.get('commandType', 'unknown')], replaced by
    its label when it is an [int] that is a key of [COMMAND_TYPES]. *)
Definition resolve_command_type (command_type : json) : json :=
  match as_int command_type with
  | Some z =>
      match int_dict_get z COMMAND_TYPES with
      | Some label => JStr label
      | None => command_type
      end
  | None => command_type
  end.

Definition get_command_type (prompt : list (str * json)) : json :=
  resolve_command_type
    (match dict_get (lit "commandType") prompt with
     | Some v => v
     | None => JStr (lit "unknown")
     end).

(** Line 149: [prompt.get('timestamp', datetime.datetime.now().isoformat())];
    the default is evaluated, so the clock is read, whether the key is there
    or not. *)
Definition get_timestamp (prompt : list (str * json)) (now : datetime) : json :=
  match dict_get (lit "timestamp") prompt with
  | Some v => v
  | None => JStr (isoformat now)
  end.

(** [is_prompt_related_to_workspace(prompt_text, workspace_files)]: returns
    [True] before its filter, which is disabled. *)
Definition is_prompt_related_to_workspace (prompt_text : str)
    (workspace_files : list str) : bool := true.

(** The body of the [for] loop of [extract_prompts_from_value] over the
    elements [ps], with [extracted_prompts] and the number of clock readings
    as state.  [prompt['text'].strip()] raises [AttributeError] on a value
    that is not a [str]: no other value decoded from JSON has [strip]. *)
Fixpoint extract_loop (clk : clock) (ps : list json)
    (extracted_prompts : list prompt_record) (tick : nat)
  : result (list prompt_record * nat) :=
  match ps with
  | [] => Ok (extracted_prompts, tick)
  | prompt :: ps' =>
      match prompt with
      | JObj d =>
          match dict_get (lit "text") d with
          | Some text =>
              match text with
              | JStr s =>
                  match strip s with
                  | _ :: _ =>
                      let r := {| content := text;
                                  command_type := get_command_type d;
                                  timestamp := get_timestamp d (clk tick);
                                  raw_data := d |} in
                      extract_loop clk ps' (extracted_prompts ++ [r]) (S tick)
                  | [] => extract_loop clk ps' extracted_prompts tick
                  end
              | _ => Raise AttributeError
              end
          | None => extract_loop clk ps' extracted_prompts tick
          end
      | _ => extract_loop clk ps' extracted_prompts tick
      end
  end.

(** [extract_prompts_from_value(value, workspace_files)] for a [str] value,
    started after [tick] clock readings; the result comes with the number of
    readings made.  Only [json.JSONDecodeError] is caught. *)
Definition extract_prompts_from_value (clk : clock) (tick : nat)
    (value : str) (workspace_files : list str)
  : result (list prompt_record * nat) :=
  match Json.loads value with
  | Ok prompts_data =>
      match prompts_data with
      | JArr items => extract_loop clk (rev items) [] tick
      | _ => Ok ([], tick)
      end
  | Raise JSONDecodeError => Ok ([], tick)
  | Raise e => Raise e
  end.

(* ================================================================== *)
(** * Comparison of decoded values and [list.sort] *)
(* ================================================================== *)

(** The numbers: [bool] and [int] as integers, [float]. *)
Inductive num : Type :=
| NInt (z : Z)
| NFloat (f : pyfloat).

Definition as_num (v : json) : option num :=
  match v with
  | JInt z => Some (NInt z)
  | JBool true => Some (NInt 1)
  | JBool false => Some (NInt 0)
  | JFloat f => Some (NFloat f)
  | _ => None
  end.

(** An [int] against a [float], exactly ([None]: the float is a NaN). *)
Definition int_float_compare (z : Z) (f : pyfloat) : option comparison :=
  match f with
  | S754_nan => None
  | S754_infinity s => Some (if s then Gt else Lt)
  | S754_zero _ => Some (Z.compare z 0)
  | S754_finite s m e =>
      let v := cond_Zopp s (Zpos m) in
      Some (if (0 <=? e)%Z
            then Z.compare z (v * 2 ^ e)
            else Z.compare (z * 2 ^ (- e)) v)
  end.

Definition num_compare (a b : num) : option comparison :=
  match a, b with
  | NInt x, NInt y => Some (Z.compare x y)
  | NFloat f, NFloat g => SFcompare f g
  | NInt x, NFloat g => int_float_compare x g
  | NFloat f, NInt y => option_map CompOpp (int_float_compare y f)
  end.

Definition is_nan (v : json) : bool :=
  match v with JFloat S754_nan => true | _ => false end.

(** [PyObject_RichCompareBool(x, y, Py_EQ)], the equality that the comparison
    of two lists applies to their items: an object equals itself, and every
    NaN that [json.loads] returns is the one object [json.decoder.NaN]. *)
Fixpoint py_eq_item (x y : json) {struct x} : bool :=
  match x, y with
  | JNull, JNull => true
  | JStr a, JStr b => str_eqb a b
  | JArr a, JArr b =>
      (fix items (a b : list json) {struct a} : bool :=
         match a, b with
         | [], [] => true
         | u :: a', v :: b' => py_eq_item u v && items a' b'
         | _, _ => false
         end) a b
  | JObj a, JObj b =>
      Nat.eqb (length a) (length b)
      && (fix fields (a : list (str * json)) {struct a} : bool :=
            match a with
            | [] => true
            | (k, u) :: a' =>
                match dict_get k b with
                | Some v => py_eq_item u v && fields a'
                | None => false
                end
            end) a
  | _, _ =>
      match as_num x, as_num y with
      | Some a, Some b =>
          (is_nan x && is_nan y)
          || match num_compare a b with Some Eq => true | _ => false end
      | _, _ => false
      end
  end.

(** [x < y]; [None] is [TypeError].  Numbers compare by value, strings by
    code points, lists by their first differing items or by length; [None],
    dictionaries and values of different kinds do not compare. *)
Fixpoint py_lt (x y : json) {struct x} : option bool :=
  match x, y with
  | JStr a, JStr b => Some (str_ltb a b)
  | JArr a, JArr b =>
      (fix items (a b : list json) {struct a} : option bool :=
         match a, b with
         | _, [] => Some false
         | [], _ :: _ => Some true
         | u :: a', v :: b' => if py_eq_item u v then items a' b' else py_lt u v
         end) a b
  | _, _ =>
      match as_num x, as_num y with
      | Some a, Some b =>
          Some (match num_compare a b with Some Lt => true | _ => false end)
      | _, _ => None
      end
  end.

(** [all_prompts.sort(key=lambda x: x['timestamp'], reverse=True)].

    The sort of the interpreter is stable, compares keys with [<] only, and
    with [reverse=True] keeps records with equal keys in their original
    order.  [insert_desc] puts a record before the first one whose key is not
    greater than its own; on keys that [<] orders totally (strings, or
    integers) the result of [sort_desc] is the one stable descending
    arrangement, which is what any stable sort returns.  A comparison that
    raises [TypeError] ends the sort with that exception; a list of fewer than
    two records is not compared at all.

    Where [<] is not a total order of the keys (a NaN among numbers, or
    lists of which only some compare), the arrangement that the interpreter
    returns, and whether it meets a pair that does not compare, depend on the
    runs and merges of its algorithm, which are not modelled: there
    [sort_desc] rearranges the list or raises [TypeError], as the interpreter
    does, but not always to the same effect, and nothing below speaks of the
    order of such keys. *)
Fixpoint insert_desc (x : prompt_record) (l : list prompt_record)
  : result (list prompt_record) :=
  match l with
  | [] => Ok [x]
  | y :: l' =>
      match py_lt (timestamp x) (timestamp y) with
      | None => Raise TypeError
      | Some true => l'' <- insert_desc x l' ;; Ok (y :: l'')
      | Some false => Ok (x :: l)
      end
  end.

Fixpoint sort_desc (l : list prompt_record) : result (list prompt_record) :=
  match l with
  | [] => Ok []
  | x :: l' => s <- sort_desc l' ;; insert_desc x s
  end.

(* ================================================================== *)
(** * Paths and the filesystem *)
(* ================================================================== *)

(** A [pathlib.Path] as its [parts]: the first part of an absolute path is
    its root, ["/"].  Two paths are the same path when their parts are. *)
Definition path := list str.

Definition slash : N := 47.

(** [s.split('/')] *)
Fixpoint split_slash (s : str) (cur : str) : list str :=
  match s with
  | [] => [rev cur]
  | c :: t => if c =? slash then rev cur :: split_slash t [] else split_slash t (c :: cur)
  end.

Definition is_name (p : str) : bool :=
  match p with
  | [] => false
  | _ => negb (str_eqb p (lit "."))
  end.

(** [Path(s)] for POSIX path syntax: empty and [.] components are dropped;
    exactly two leading slashes are a root of their own. *)
Definition Path (s : str) : path :=
  let names := filter is_name (split_slash s []) in
  match s with
  | 47 :: 47 :: 47 :: _ => lit "/" :: names
  | 47 :: 47 :: _ => lit "//" :: names
  | 47 :: _ => lit "/" :: names
  | _ => names
  end.

(** [base / rel] for a relative [rel] *)
Definition joinpath (base : path) (rel : str) : path := base ++ Path rel.

Definition is_root (p : str) : bool :=
  str_eqb p (lit "/") || str_eqb p (lit "//").

(** [str(p)] and [os.path.join(root, name)] *)
Fixpoint join_parts (ps : list str) : str :=
  match ps with
  | [] => []
  | [p] => p
  | p :: ps' => p ++ slash :: join_parts ps'
  end.

Definition fspath (p : path) : str :=
  match p with
  | [] => lit "."
  | r :: ps => if is_root r then r ++ join_parts ps else join_parts p
  end.

(** A file with its bytes, or a directory with its entries in the order in
    which the system lists them. *)
Unset Elimination Schemes.
Inductive node : Type :=
| File (data : list N)
| Dir (entries : list (str * node)).
Set Elimination Schemes.

Fixpoint find_entry (name : str) (es : list (str * node)) : option node :=
  match es with
  | [] => None
  | (n, x) :: es' => if str_eqb name n then Some x else find_entry name es'
  end.

Fixpoint replace_entry (name : str) (x : node) (es : list (str * node))
  : list (str * node) :=
  match es with
  | [] => []
  | (n, y) :: es' =>
      if str_eqb name n then (n, x) :: es' else (n, y) :: replace_entry name x es'
  end.

(** The node at a list of names below [n]. *)
Fixpoint get_node (names : list str) (n : node) : option node :=
  match names with
  | [] => Some n
  | d :: ds =>
      match n with
      | Dir es =>
          match find_entry d es with
          | Some child => get_node ds child
          | None => None
          end
      | File _ => None
      end
  end.

(** Resolution of the parts [ps] from the directory [at_] (names from the
    root): every prefix must be a directory, [..] goes to the parent. *)
Fixpoint canon (root : node) (at_ : list str) (ps : list str) : option (list str) :=
  match ps with
  | [] => Some at_
  | p :: ps' =>
      match get_node at_ root with
      | Some (Dir es) =>
          if str_eqb p (lit "..") then canon root (removelast at_) ps'
          else match find_entry p es with
               | Some _ => canon root (at_ ++ [p]) ps'
               | None => None
               end
      | _ => None
      end
  end.

(** The machine the program runs on. *)
Record host : Type := mkHost {
  system : str;                         (* platform.system() *)
  home : path;                          (* Path.home() *)
  cwd : list str;                       (* names of the working directory *)
  CURSOR_STORAGE_PATH : option str;     (* os.environ.get(...) *)
  root : node                           (* the filesystem *)
}.

Definition resolve (h : host) (p : path) : option (list str) :=
  match p with
  | r :: ps => if is_root r then canon (root h) [] ps else canon (root h) (cwd h) p
  | [] => canon (root h) (cwd h) []
  end.

Definition lookup (h : host) (p : path) : option node :=
  match resolve h p with
  | Some names => get_node names (root h)
  | None => None
  end.

(** [p.exists()] and [p.is_file()] *)
Definition exists_ (h : host) (p : path) : bool :=
  match lookup h p with Some _ => true | None => false end.

Definition is_file (h : host) (p : path) : bool :=
  match lookup h p with Some (File _) => true | _ => false end.

(** [os.walk(top)] from the node at [top]: for every directory its path, the
    names of its sub-directories and the names of its files; a directory
    comes before its sub-directories.  Nothing for a file. *)
Definition dirnames (es : list (str * node)) : list str :=
  flat_map (fun e => match snd e with Dir _ => [fst e] | File _ => [] end) es.

Definition filenames (es : list (str * node)) : list str :=
  flat_map (fun e => match snd e with File _ => [fst e] | Dir _ => [] end) es.

Fixpoint os_walk (top : path) (n : node) {struct n}
  : list (path * list str * list str) :=
  match n with
  | File _ => []
  | Dir es =>
      (top, dirnames es, filenames es)
      :: (fix sub (es : list (str * node)) : list (path * list str * list str) :=
            match es with
            | [] => []
            | (name, child) :: es' =>
                match child with
                | Dir _ => os_walk (top ++ [name]) child
                | File _ => []
                end ++ sub es'
            end) es
  end.

(** [open(p, 'w')] followed by writing [data] and closing: the new
    filesystem, or [None] for an [IOError] (no such directory, or [p] is a
    directory). *)
Fixpoint put_file (dirs : list str) (name : str) (data : list N) (n : node)
  {struct dirs} : option node :=
  match n with
  | File _ => None
  | Dir es =>
      match dirs with
      | [] =>
          match find_entry name es with
          | Some (Dir _) => None
          | Some (File _) => Some (Dir (replace_entry name (File data) es))
          | None => Some (Dir (es ++ [(name, File data)]))
          end
      | d :: ds =>
          match find_entry d es with
          | Some child =>
              match put_file ds name data child with
              | Some child' => Some (Dir (replace_entry d child' es))
              | None => None
              end
          | None => None
          end
      end
  end.

Definition write_file (h : host) (p : path) (data : list N) : option host :=
  match rev p with
  | [] => None
  | name :: rdirs =>
      if str_eqb name (lit "..") || is_root name then None
      else
        match resolve h (rev rdirs) with
        | Some dirs =>
            match put_file dirs name data (root h) with
            | Some r' => Some (mkHost (system h) (home h) (cwd h) (CURSOR_STORAGE_PATH h) r')
            | None => None
            end
        | None => None
        end
  end.

(* ================================================================== *)
(** * Storage discovery *)
(* ================================================================== *)

Definition common_paths : list str :=
  [ lit "Cursor/User/workspaceStorage";
    lit "Cursor/User/globalStorage";
    lit "Cursor/Storage";
    lit "Cursor/User/state.vscdb" ].

Definition base_paths (h : host) : list path :=
  if str_eqb (system h) (lit "Darwin") then
    [ joinpath (home h) (lit "Library/Application Support");
      joinpath (home h) (lit "Library/Caches");
      joinpath (home h) (lit "Library/Preferences") ]
  else if str_eqb (system h) (lit "Windows") then
    [ joinpath (home h) (lit "AppData/Roaming");
      joinpath (home h) (lit "AppData/Local");
      joinpath (home h) (lit "AppData/LocalLow") ]
  else if str_eqb (system h) (lit "Linux") then
    [ joinpath (home h) (lit ".config");
      joinpath (home h) (lit ".local/share");
      joinpath (home h) (lit ".cache") ]
  else [ home h ].

(** The two nested loops over [base_paths] and [common_paths]. *)
Definition default_paths (h : host) : list path :=
  flat_map
    (fun base =>
       flat_map
         (fun common =>
            let p := joinpath base common in
            if exists_ h p then [p] else [])
         common_paths)
    (base_paths h).

(** The override of the environment, when set, not empty and existing. *)
Definition custom_paths (h : host) : list path :=
  match CURSOR_STORAGE_PATH h with
  | Some (c :: s) =>
      let custom_path := Path (c :: s) in
      if exists_ h custom_path then [custom_path] else []
  | _ => []
  end.

(** [get_cursor_storage_paths()] *)
Definition get_cursor_storage_paths (h : host) : list path :=
  default_paths h ++ custom_paths h.

Definition is_db_name (file : str) : bool :=
  endswith file (lit ".vscdb") || endswith file (lit ".db").

(* ================================================================== *)
(** * [str.lower] *)
(* ================================================================== *)

(** [s.lower()] with the tables of Unicode 14.0: every character is replaced
    by its lower-case mapping; the capital sigma becomes the final sigma at
    the end of a word and the small sigma elsewhere. *)
Module Unicode.

(** The characters with a lower-case mapping of one character: from [a] to
    [b] in steps of [k], mapped to [a'] and the characters that follow it. *)
Definition lower_table : list (N * N * N * N) :=
  [
    (65, 90, 1, 97); (192, 214, 1, 224); (216, 222, 1, 248); (256, 302, 2, 257);
    (306, 310, 2, 307); (313, 327, 2, 314); (330, 374, 2, 331); (376, 376, 1, 255);
    (377, 381, 2, 378); (385, 385, 1, 595); (386, 388, 2, 387); (390, 390, 1, 596);
    (391, 391, 1, 392); (393, 394, 1, 598); (395, 395, 1, 396); (398, 398, 1, 477);
    (399, 399, 1, 601); (400, 400, 1, 603); (401, 401, 1, 402); (403, 403, 1, 608);
    (404, 404, 1, 611); (406, 406, 1, 617); (407, 407, 1, 616); (408, 408, 1, 409);
    (412, 412, 1, 623); (413, 413, 1, 626); (415, 415, 1, 629); (416, 420, 2, 417);
    (422, 422, 1, 640); (423, 423, 1, 424); (425, 425, 1, 643); (428, 428, 1, 429);
    (430, 430, 1, 648); (431, 431, 1, 432); (433, 434, 1, 650); (435, 437, 2, 436);
    (439, 439, 1, 658); (440, 440, 1, 441); (444, 444, 1, 445); (452, 452, 1, 454);
    (453, 453, 1, 454); (455, 455, 1, 457); (456, 456, 1, 457); (458, 458, 1, 460);
    (459, 475, 2, 460); (478, 494, 2, 479); (497, 497, 1, 499); (498, 500, 2, 499);
    (502, 502, 1, 405); (503, 503, 1, 447); (504, 542, 2, 505); (544, 544, 1, 414);
    (546, 562, 2, 547); (570, 570, 1, 11365); (571, 571, 1, 572); (573, 573, 1, 410);
    (574, 574, 1, 11366); (577, 577, 1, 578); (579, 579, 1, 384); (580, 580, 1, 649);
    (581, 581, 1, 652); (582, 590, 2, 583); (880, 882, 2, 881); (886, 886, 1, 887);
    (895, 895, 1, 1011); (902, 902, 1, 940); (904, 906, 1, 941); (908, 908, 1, 972);
    (910, 911, 1, 973); (913, 929, 1, 945); (931, 939, 1, 963); (975, 975, 1, 983);
    (984, 1006, 2, 985); (1012, 1012, 1, 952); (1015, 1015, 1, 1016);
    (1017, 1017, 1, 1010); (1018, 1018, 1, 1019); (1021, 1023, 1, 891);
    (1024, 1039, 1, 1104); (1040, 1071, 1, 1072); (1120, 1152, 2, 1121);
    (1162, 1214, 2, 1163); (1216, 1216, 1, 1231); (1217, 1229, 2, 1218);
    (1232, 1326, 2, 1233); (1329, 1366, 1, 1377); (4256, 4293, 1, 11520);
    (4295, 4295, 1, 11559); (4301, 4301, 1, 11565); (5024, 5103, 1, 43888);
    (5104, 5109, 1, 5112); (7312, 7354, 1, 4304); (7357, 7359, 1, 4349);
    (7680, 7828, 2, 7681); (7838, 7838, 1, 223); (7840, 7934, 2, 7841);
    (7944, 7951, 1, 7936); (7960, 7965, 1, 7952); (7976, 7983, 1, 7968);
    (7992, 7999, 1, 7984); (8008, 8013, 1, 8000); (8025, 8031, 2, 8017);
    (8040, 8047, 1, 8032); (8072, 8079, 1, 8064); (8088, 8095, 1, 8080);
    (8104, 8111, 1, 8096); (8120, 8121, 1, 8112); (8122, 8123, 1, 8048);
    (8124, 8124, 1, 8115); (8136, 8139, 1, 8050); (8140, 8140, 1, 8131);
    (8152, 8153, 1, 8144); (8154, 8155, 1, 8054); (8168, 8169, 1, 8160);
    (8170, 8171, 1, 8058); (8172, 8172, 1, 8165); (8184, 8185, 1, 8056);
    (8186, 8187, 1, 8060); (8188, 8188, 1, 8179); (8486, 8486, 1, 969);
    (8490, 8490, 1, 107); (8491, 8491, 1, 229); (8498, 8498, 1, 8526);
    (8544, 8559, 1, 8560); (8579, 8579, 1, 8580); (9398, 9423, 1, 9424);
    (11264, 11311, 1, 11312); (11360, 11360, 1, 11361); (11362, 11362, 1, 619);
    (11363, 11363, 1, 7549); (11364, 11364, 1, 637); (11367, 11371, 2, 11368);
    (11373, 11373, 1, 593); (11374, 11374, 1, 625); (11375, 11375, 1, 592);
    (11376, 11376, 1, 594); (11378, 11378, 1, 11379); (11381, 11381, 1, 11382);
    (11390, 11391, 1, 575); (11392, 11490, 2, 11393); (11499, 11501, 2, 11500);
    (11506, 11506, 1, 11507); (42560, 42604, 2, 42561); (42624, 42650, 2, 42625);
    (42786, 42798, 2, 42787); (42802, 42862, 2, 42803); (42873, 42875, 2, 42874);
    (42877, 42877, 1, 7545); (42878, 42886, 2, 42879); (42891, 42891, 1, 42892);
    (42893, 42893, 1, 613); (42896, 42898, 2, 42897); (42902, 42920, 2, 42903);
    (42922, 42922, 1, 614); (42923, 42923, 1, 604); (42924, 42924, 1, 609);
    (42925, 42925, 1, 620); (42926, 42926, 1, 618); (42928, 42928, 1, 670);
    (42929, 42929, 1, 647); (42930, 42930, 1, 669); (42931, 42931, 1, 43859);
    (42932, 42946, 2, 42933); (42948, 42948, 1, 42900); (42949, 42949, 1, 642);
    (42950, 42950, 1, 7566); (42951, 42953, 2, 42952); (42960, 42960, 1, 42961);
    (42966, 42968, 2, 42967); (42997, 42997, 1, 42998); (65313, 65338, 1, 65345);
    (66560, 66599, 1, 66600); (66736, 66771, 1, 66776); (66928, 66938, 1, 66967);
    (66940, 66954, 1, 66979); (66956, 66962, 1, 66995); (66964, 66965, 1, 67003);
    (68736, 68786, 1, 68800); (71840, 71871, 1, 71872); (93760, 93791, 1, 93792);
    (125184, 125217, 1, 125218)
  ].

(** The characters with the property [Cased]. *)
Definition cased_table : list (N * N) :=
  [
    (65, 90); (97, 122); (170, 170); (181, 181); (186, 186); (192, 214); (216, 246);
    (248, 442); (444, 447); (452, 659); (661, 696); (704, 705); (736, 740); (837, 837);
    (880, 883); (886, 887); (890, 893); (895, 895); (902, 902); (904, 906); (908, 908);
    (910, 929); (931, 1013); (1015, 1153); (1162, 1327); (1329, 1366); (1376, 1416);
    (4256, 4293); (4295, 4295); (4301, 4301); (4304, 4346); (4349, 4351); (5024, 5109);
    (5112, 5117); (7296, 7304); (7312, 7354); (7357, 7359); (7424, 7615); (7680, 7957);
    (7960, 7965); (7968, 8005); (8008, 8013); (8016, 8023); (8025, 8025); (8027, 8027);
    (8029, 8029); (8031, 8061); (8064, 8116); (8118, 8124); (8126, 8126); (8130, 8132);
    (8134, 8140); (8144, 8147); (8150, 8155); (8160, 8172); (8178, 8180); (8182, 8188);
    (8305, 8305); (8319, 8319); (8336, 8348); (8450, 8450); (8455, 8455); (8458, 8467);
    (8469, 8469); (8473, 8477); (8484, 8484); (8486, 8486); (8488, 8488); (8490, 8493);
    (8495, 8500); (8505, 8505); (8508, 8511); (8517, 8521); (8526, 8526); (8544, 8575);
    (8579, 8580); (9398, 9449); (11264, 11492); (11499, 11502); (11506, 11507);
    (11520, 11557); (11559, 11559); (11565, 11565); (42560, 42605); (42624, 42653);
    (42786, 42887); (42891, 42894); (42896, 42954); (42960, 42961); (42963, 42963);
    (42965, 42969); (42997, 42998); (43000, 43002); (43824, 43866); (43868, 43880);
    (43888, 43967); (64256, 64262); (64275, 64279); (65313, 65338); (65345, 65370);
    (66560, 66639); (66736, 66771); (66776, 66811); (66928, 66938); (66940, 66954);
    (66956, 66962); (66964, 66965); (66967, 66977); (66979, 66993); (66995, 67001);
    (67003, 67004); (67456, 67456); (67459, 67461); (67463, 67504); (67506, 67514);
    (68736, 68786); (68800, 68850); (71840, 71903); (93760, 93823); (119808, 119892);
    (119894, 119964); (119966, 119967); (119970, 119970); (119973, 119974);
    (119977, 119980); (119982, 119993); (119995, 119995); (119997, 120003);
    (120005, 120069); (120071, 120074); (120077, 120084); (120086, 120092);
    (120094, 120121); (120123, 120126); (120128, 120132); (120134, 120134);
    (120138, 120144); (120146, 120485); (120488, 120512); (120514, 120538);
    (120540, 120570); (120572, 120596); (120598, 120628); (120630, 120654);
    (120656, 120686); (120688, 120712); (120714, 120744); (120746, 120770);
    (120772, 120779); (122624, 122633); (122635, 122654); (125184, 125251);
    (127280, 127305); (127312, 127337); (127344, 127369)
  ].

(** The characters with the property [Case_Ignorable]. *)
Definition case_ignorable_table : list (N * N) :=
  [
    (39, 39); (46, 46); (58, 58); (94, 94); (96, 96); (168, 168); (173, 173);
    (175, 175); (180, 180); (183, 184); (688, 879); (884, 885); (890, 890); (900, 901);
    (903, 903); (1155, 1161); (1369, 1369); (1375, 1375); (1425, 1469); (1471, 1471);
    (1473, 1474); (1476, 1477); (1479, 1479); (1524, 1524); (1536, 1541); (1552, 1562);
    (1564, 1564); (1600, 1600); (1611, 1631); (1648, 1648); (1750, 1757); (1759, 1768);
    (1770, 1773); (1807, 1807); (1809, 1809); (1840, 1866); (1958, 1968); (2027, 2037);
    (2042, 2042); (2045, 2045); (2070, 2093); (2137, 2139); (2184, 2184); (2192, 2193);
    (2200, 2207); (2249, 2306); (2362, 2362); (2364, 2364); (2369, 2376); (2381, 2381);
    (2385, 2391); (2402, 2403); (2417, 2417); (2433, 2433); (2492, 2492); (2497, 2500);
    (2509, 2509); (2530, 2531); (2558, 2558); (2561, 2562); (2620, 2620); (2625, 2626);
    (2631, 2632); (2635, 2637); (2641, 2641); (2672, 2673); (2677, 2677); (2689, 2690);
    (2748, 2748); (2753, 2757); (2759, 2760); (2765, 2765); (2786, 2787); (2810, 2815);
    (2817, 2817); (2876, 2876); (2879, 2879); (2881, 2884); (2893, 2893); (2901, 2902);
    (2914, 2915); (2946, 2946); (3008, 3008); (3021, 3021); (3072, 3072); (3076, 3076);
    (3132, 3132); (3134, 3136); (3142, 3144); (3146, 3149); (3157, 3158); (3170, 3171);
    (3201, 3201); (3260, 3260); (3263, 3263); (3270, 3270); (3276, 3277); (3298, 3299);
    (3328, 3329); (3387, 3388); (3393, 3396); (3405, 3405); (3426, 3427); (3457, 3457);
    (3530, 3530); (3538, 3540); (3542, 3542); (3633, 3633); (3636, 3642); (3654, 3662);
    (3761, 3761); (3764, 3772); (3782, 3782); (3784, 3789); (3864, 3865); (3893, 3893);
    (3895, 3895); (3897, 3897); (3953, 3966); (3968, 3972); (3974, 3975); (3981, 3991);
    (3993, 4028); (4038, 4038); (4141, 4144); (4146, 4151); (4153, 4154); (4157, 4158);
    (4184, 4185); (4190, 4192); (4209, 4212); (4226, 4226); (4229, 4230); (4237, 4237);
    (4253, 4253); (4348, 4348); (4957, 4959); (5906, 5908); (5938, 5939); (5970, 5971);
    (6002, 6003); (6068, 6069); (6071, 6077); (6086, 6086); (6089, 6099); (6103, 6103);
    (6109, 6109); (6155, 6159); (6211, 6211); (6277, 6278); (6313, 6313); (6432, 6434);
    (6439, 6440); (6450, 6450); (6457, 6459); (6679, 6680); (6683, 6683); (6742, 6742);
    (6744, 6750); (6752, 6752); (6754, 6754); (6757, 6764); (6771, 6780); (6783, 6783);
    (6823, 6823); (6832, 6862); (6912, 6915); (6964, 6964); (6966, 6970); (6972, 6972);
    (6978, 6978); (7019, 7027); (7040, 7041); (7074, 7077); (7080, 7081); (7083, 7085);
    (7142, 7142); (7144, 7145); (7149, 7149); (7151, 7153); (7212, 7219); (7222, 7223);
    (7288, 7293); (7376, 7378); (7380, 7392); (7394, 7400); (7405, 7405); (7412, 7412);
    (7416, 7417); (7468, 7530); (7544, 7544); (7579, 7679); (8125, 8125); (8127, 8129);
    (8141, 8143); (8157, 8159); (8173, 8175); (8189, 8190); (8203, 8207); (8216, 8217);
    (8228, 8228); (8231, 8231); (8234, 8238); (8288, 8292); (8294, 8303); (8305, 8305);
    (8319, 8319); (8336, 8348); (8400, 8432); (11388, 11389); (11503, 11505);
    (11631, 11631); (11647, 11647); (11744, 11775); (11823, 11823); (12293, 12293);
    (12330, 12333); (12337, 12341); (12347, 12347); (12441, 12446); (12540, 12542);
    (40981, 40981); (42232, 42237); (42508, 42508); (42607, 42610); (42612, 42621);
    (42623, 42623); (42652, 42655); (42736, 42737); (42752, 42785); (42864, 42864);
    (42888, 42890); (42994, 42996); (43000, 43001); (43010, 43010); (43014, 43014);
    (43019, 43019); (43045, 43046); (43052, 43052); (43204, 43205); (43232, 43249);
    (43263, 43263); (43302, 43309); (43335, 43345); (43392, 43394); (43443, 43443);
    (43446, 43449); (43452, 43453); (43471, 43471); (43493, 43494); (43561, 43566);
    (43569, 43570); (43573, 43574); (43587, 43587); (43596, 43596); (43632, 43632);
    (43644, 43644); (43696, 43696); (43698, 43700); (43703, 43704); (43710, 43711);
    (43713, 43713); (43741, 43741); (43756, 43757); (43763, 43764); (43766, 43766);
    (43867, 43871); (43881, 43883); (44005, 44005); (44008, 44008); (44013, 44013);
    (64286, 64286); (64434, 64450); (65024, 65039); (65043, 65043); (65056, 65071);
    (65106, 65106); (65109, 65109); (65279, 65279); (65287, 65287); (65294, 65294);
    (65306, 65306); (65342, 65342); (65344, 65344); (65392, 65392); (65438, 65439);
    (65507, 65507); (65529, 65531); (66045, 66045); (66272, 66272); (66422, 66426);
    (67456, 67461); (67463, 67504); (67506, 67514); (68097, 68099); (68101, 68102);
    (68108, 68111); (68152, 68154); (68159, 68159); (68325, 68326); (68900, 68903);
    (69291, 69292); (69446, 69456); (69506, 69509); (69633, 69633); (69688, 69702);
    (69744, 69744); (69747, 69748); (69759, 69761); (69811, 69814); (69817, 69818);
    (69821, 69821); (69826, 69826); (69837, 69837); (69888, 69890); (69927, 69931);
    (69933, 69940); (70003, 70003); (70016, 70017); (70070, 70078); (70089, 70092);
    (70095, 70095); (70191, 70193); (70196, 70196); (70198, 70199); (70206, 70206);
    (70367, 70367); (70371, 70378); (70400, 70401); (70459, 70460); (70464, 70464);
    (70502, 70508); (70512, 70516); (70712, 70719); (70722, 70724); (70726, 70726);
    (70750, 70750); (70835, 70840); (70842, 70842); (70847, 70848); (70850, 70851);
    (71090, 71093); (71100, 71101); (71103, 71104); (71132, 71133); (71219, 71226);
    (71229, 71229); (71231, 71232); (71339, 71339); (71341, 71341); (71344, 71349);
    (71351, 71351); (71453, 71455); (71458, 71461); (71463, 71467); (71727, 71735);
    (71737, 71738); (71995, 71996); (71998, 71998); (72003, 72003); (72148, 72151);
    (72154, 72155); (72160, 72160); (72193, 72202); (72243, 72248); (72251, 72254);
    (72263, 72263); (72273, 72278); (72281, 72283); (72330, 72342); (72344, 72345);
    (72752, 72758); (72760, 72765); (72767, 72767); (72850, 72871); (72874, 72880);
    (72882, 72883); (72885, 72886); (73009, 73014); (73018, 73018); (73020, 73021);
    (73023, 73029); (73031, 73031); (73104, 73105); (73109, 73109); (73111, 73111);
    (73459, 73460); (78896, 78904); (92912, 92916); (92976, 92982); (92992, 92995);
    (94031, 94031); (94095, 94111); (94176, 94177); (94179, 94180); (110576, 110579);
    (110581, 110587); (110589, 110590); (113821, 113822); (113824, 113827);
    (118528, 118573); (118576, 118598); (119143, 119145); (119155, 119170);
    (119173, 119179); (119210, 119213); (119362, 119364); (121344, 121398);
    (121403, 121452); (121461, 121461); (121476, 121476); (121499, 121503);
    (121505, 121519); (122880, 122886); (122888, 122904); (122907, 122913);
    (122915, 122916); (122918, 122922); (123184, 123197); (123566, 123566);
    (123628, 123631); (125136, 125142); (125252, 125259); (127995, 127999);
    (917505, 917505); (917536, 917631); (917760, 917999)
  ].

Fixpoint lower_find (c : N) (t : list (N * N * N * N)) : N :=
  match t with
  | [] => c
  | (a, b, k, a') :: t' =>
      if (a <=? c) && (c <=? b) && ((c - a) mod k =? 0) then a' + (c - a)
      else lower_find c t'
  end.

(** The capital I with a dot above is the one character whose lower case
    has two characters. *)
Definition to_lower_full (c : N) : str :=
  if c =? 304 then [105; 775] else [lower_find c lower_table].

Definition in_ranges (c : N) (rs : list (N * N)) : bool :=
  existsb (fun r => (fst r <=? c) && (c <=? snd r)) rs.

Definition cased (c : N) : bool := in_ranges c cased_table.
Definition case_ignorable (c : N) : bool := in_ranges c case_ignorable_table.

Fixpoint skip_ignorable (s : str) : str :=
  match s with
  | c :: t => if case_ignorable c then skip_ignorable t else s
  | [] => []
  end.

(** The lower case of a capital sigma between [before] (nearest character
    first) and [after]: final when a cased character precedes it and none
    follows it, characters that are ignored for case apart. *)
Definition final_sigma (before after : str) : N :=
  match skip_ignorable before with
  | c :: _ =>
      if cased c then
        match skip_ignorable after with
        | [] => 962
        | d :: _ => if cased d then 963 else 962
        end
      else 963
  | [] => 963
  end.

Fixpoint lower_from (before : str) (s : str) : str :=
  match s with
  | [] => []
  | c :: t =>
      (if c =? 931 then [final_sigma before t] else to_lower_full c)
      ++ lower_from (c :: before) t
  end.

Definition lower (s : str) : str := lower_from [] s.

End Unicode.

(* ================================================================== *)
(** * The libraries the program calls *)
(* ================================================================== *)

(** What the program takes from [sqlite3] and from the formatting of
    values, as functions of their inputs, and the room that the device of
    the report has.  A row of [ItemTable] is the dictionary [row_dict] of its
    columns; the [value] column holds text. *)
Record runtime : Type := mkRuntime {
  (** [sqlite3.connect(p)] and [SELECT 1] succeed on a file with these bytes *)
  sqlite_select1 : list N -> bool;
  (** rows of [SELECT * FROM ItemTable WHERE key = 'aiService.prompts'];
      [None] is [sqlite3.Error] *)
  sqlite_prompt_rows : list N -> option (list (list (str * str)));
  (** [str(v)] for a value that is not a [str] *)
  format_value : json -> str;
  (** [json.dumps(v, indent=2)] *)
  json_dumps : json -> str;
  (** the number of bytes that the device accepts for the report before a
      write fails with [IOError]; [None] when it accepts them all *)
  disk_room : option nat
}.

Fixpoint row_get (k : str) (row : list (str * str)) : option str :=
  match row with
  | [] => None
  | (k', v) :: row' => if str_eqb k k' then Some v else row_get k row'
  end.

(** The UTF-8 encoding of one code point; a surrogate has none. *)
Definition utf8_char (c : N) : option (list N) :=
  if c <? 128 then Some [c]
  else if c <? 2048 then Some [192 + c / 64; 128 + c mod 64]
  else if (55296 <=? c) && (c <=? 57343) then None
  else if c <? 65536 then Some [224 + c / 4096; 128 + (c / 64) mod 64; 128 + c mod 64]
  else if c <? 1114112 then
    Some [240 + c / 262144; 128 + (c / 4096) mod 64; 128 + (c / 64) mod 64; 128 + c mod 64]
  else None.

(** [s.encode('utf-8')]; [None] is [UnicodeEncodeError]. *)
Fixpoint utf8_encode (s : str) : option (list N) :=
  match s with
  | [] => Some []
  | c :: t =>
      match utf8_char c, utf8_encode t with
      | Some b, Some bs => Some (b ++ bs)
      | _, _ => None
      end
  end.

(** [os.fsencode(name)]: UTF-8 with the error handler [surrogateescape],
    under which the surrogates from U+DC80 to U+DCFF stand for the bytes
    0x80 to 0xFF; [None] is [UnicodeEncodeError]. *)
Definition fsencode_char (c : N) : option (list N) :=
  if (56448 <=? c) && (c <=? 56575) then Some [c - 56320] else utf8_char c.

Fixpoint fsencode (s : str) : option (list N) :=
  match s with
  | [] => Some []
  | c :: t =>
      match fsencode_char c, fsencode t with
      | Some b, Some bs => Some (b ++ bs)
      | _, _ => None
      end
  end.

(** The limits of the filesystem on the bytes of a name and of a path. *)
Definition NAME_MAX : nat := 255.
Definition PATH_MAX : nat := 4096.

Definition fs_length (s : str) : nat :=
  match fsencode s with Some b => length b | None => 0 end.

(** Successive [f.write(chunk)] on a file opened with [encoding='utf-8']:
    the bytes written, and whether a chunk could not be encoded (the chunks
    before it stay written). *)
Fixpoint write_chunks (chunks : list str) (written : list N) : list N * bool :=
  match chunks with
  | [] => (written, true)
  | c :: cs =>
      match utf8_encode c with
      | Some b => write_chunks cs (written ++ b)
      | None => (written, false)
      end
  end.

Section Program.

Variable rt : runtime.

(** ** [find_cursor_dbs] *)

(** The database files below one directory that [os.walk] reports. *)
Definition dbs_of_walk (h : host) (w : path * list str * list str) : list path :=
  let '(root_, _, files) := w in
  flat_map
    (fun file =>
       if is_db_name file then
         let full_path := root_ ++ [file] in
         match lookup h full_path with
         | Some (File data) => if sqlite_select1 rt data then [full_path] else []
         | _ => []
         end
       else [])
    files.

Definition dbs_of_base (h : host) (base_path : path) : list path :=
  if is_file h base_path then [base_path]
  else
    match lookup h base_path with
    | Some n => flat_map (dbs_of_walk h) (os_walk base_path n)
    | None => []
    end.

(** [find_cursor_dbs()] *)
Definition find_cursor_dbs (h : host) : list path :=
  flat_map (dbs_of_base h) (get_cursor_storage_paths h).

(** ** [get_project_files] *)

Definition is_hidden (filename : str) : bool := startswith filename (lit ".").

(** [files.add(x)] on a [set] of strings, kept as a list without
    repetition: a set has no order of its own, and the order of the list
    means nothing. *)
Definition set_add (x : str) (files : list str) : list str :=
  if existsb (str_eqb x) files then files else files ++ [x].

(** [get_project_files(workspace_path)]: the path of a file relative to the
    workspace is the names of the directories walked and its own name. *)
Definition get_project_files (h : host) (workspace_path : path) : list str :=
  match lookup h workspace_path with
  | Some n =>
      fold_left
        (fun (files : list str) (w : path * list str * list str) =>
           let '(root_, _, filenames) := w in
           fold_left
             (fun (files : list str) (filename : str) =>
                if is_hidden filename then files
                else
                  let rel_path := fspath (root_ ++ [filename]) in
                  set_add (Unicode.lower rel_path) files)
             filenames files)
        (os_walk [] n) []
  | None => []
  end.

(** ** [write_prompts_to_log] *)

(** [f"{v}"] *)
Definition fmt (v : json) : str :=
  match v with
  | JStr s => s
  | _ => format_value rt v
  end.

Definition nl : str := [10].

Definition prompt_chunks (prompt : prompt_record) : list str :=
  [ lit "Timestamp: " ++ fmt (timestamp prompt) ++ nl;
    lit "Command Type: " ++ fmt (command_type prompt) ++ nl;
    lit "Content:" ++ nl;
    fmt (content prompt) ++ nl;
    nl ++ lit "Raw Data:" ++ nl ]
  ++ map (fun kv => fst kv ++ lit ": " ++ json_dumps rt (snd kv) ++ nl)
       (raw_data prompt)
  ++ [ repeat (ch "-") 80 ++ nl ++ nl ].

Definition log_chunks (now : datetime) (workspace_path : path)
    (prompts : list prompt_record) : list str :=
  [ lit "Cursor Prompts Log - Generated at " ++ isoformat now ++ nl;
    lit "Workspace: " ++ fspath workspace_path ++ nl;
    repeat (ch "=") 80 ++ nl ++ nl ]
  ++ flat_map prompt_chunks prompts.

(** What [open(output_file, 'w')] raises before it reaches the
    filesystem: [UnicodeEncodeError] for a name that cannot be encoded, and
    otherwise [ValueError] for a name with a null character. *)
Definition open_raises (output_file : str) : option exn :=
  match fsencode output_file with
  | None => Some UnicodeEncodeError
  | Some _ => if existsb (N.eqb 0) output_file then Some ValueError else None
  end.

(** [open(output_file, 'w')] needs a file name at the end of the path: the
    empty path and a path that ends with a slash or with [.] name no file;
    and no name may be longer than [NAME_MAX], nor the path as long as
    [PATH_MAX]. *)
Definition openable (output_file : str) : bool :=
  match rev (split_slash output_file []) with
  | [] => false
  | name :: _ => is_name name
  end
  && forallb (fun name => (fs_length name <=? NAME_MAX)%nat) (split_slash output_file [])
  && (fs_length output_file <? PATH_MAX)%nat.

(** The bytes that reach the file, and whether they are all of [data]. *)
Definition stored (room : option nat) (data : list N) : list N * bool :=
  match room with
  | Some n => if (n <? length data)%nat then (firstn n data, false) else (data, true)
  | None => (data, true)
  end.

(** [write_prompts_to_log(prompts, workspace_path, output_file)]: the
    result, the machine afterwards and the number of clock readings.  The
    file is created or truncated when it is opened, and the clock is read
    after that.  [IOError] is caught, whether it comes from [open] or from
    the writes, which fail when the device has no room for the bytes; what
    was written stays.  The exceptions of [open] for the name, and
    [UnicodeEncodeError] for a text that cannot be encoded, are not caught;
    the latter is replaced by the [IOError] of closing the file when the
    bytes written before it do not fit. *)
Definition write_prompts_to_log (clk : clock) (tick : nat) (h : host)
    (prompts : list prompt_record) (workspace_path : path) (output_file : str)
  : result bool * host * nat :=
  match prompts with
  | [] => (Ok false, h, tick)
  | _ :: _ =>
      match open_raises output_file with
      | Some e => (Raise e, h, tick)
      | None =>
          if openable output_file then
            let '(data, complete) :=
              write_chunks (log_chunks (clk tick) workspace_path prompts) [] in
            let '(bytes, fits) := stored (disk_room rt) data in
            match write_file h (Path output_file) bytes with
            | Some h' =>
                (if fits
                 then if complete then Ok true else Raise UnicodeEncodeError
                 else Ok false,
                 h', S tick)
            | None => (Ok false, h, tick)
            end
          else (Ok false, h, tick)
      end
  end.

(** ** [main] *)

(** The loop over the rows of one store. *)
Fixpoint extract_rows (clk : clock) (workspace_files : list str)
    (rows : list (list (str * str))) (all_prompts : list prompt_record)
    (tick : nat) : result (list prompt_record * nat) :=
  match rows with
  | [] => Ok (all_prompts, tick)
  | row_dict :: rows' =>
      match row_get (lit "value") row_dict with
      | Some value =>
          match extract_prompts_from_value clk tick value workspace_files with
          | Ok (prompts, tick') =>
              extract_rows clk workspace_files rows' (all_prompts ++ prompts) tick'
          | Raise e => Raise e
          end
      | None => extract_rows clk workspace_files rows' all_prompts tick
      end
  end.

(** The loop over the stores: [sqlite3.Error] skips a store, any other
    exception leaves the loop. *)
Fixpoint extract_dbs (clk : clock) (h : host) (workspace_files : list str)
    (db_files : list path) (all_prompts : list prompt_record) (tick : nat)
  : result (list prompt_record * nat) :=
  match db_files with
  | [] => Ok (all_prompts, tick)
  | db_path :: dbs =>
      let rows :=
        match lookup h db_path with
        | Some (File data) => sqlite_prompt_rows rt data
        | _ => None
        end in
      match rows with
      | Some rows =>
          match extract_rows clk workspace_files rows all_prompts tick with
          | Ok (all_prompts', tick') =>
              extract_dbs clk h workspace_files dbs all_prompts' tick'
          | Raise e => Raise e
          end
      | None => extract_dbs clk h workspace_files dbs all_prompts tick
      end
  end.

(** How a run ends. *)
Inductive outcome : Type :=
| NoDatabases                                   (* "No Cursor databases found" *)
| Wrote (report : list prompt_record)           (* "Successfully wrote ..." *)
| NothingWritten                                (* "No prompts found" *)
| Failed (e : exn).                             (* "Error: ..." *)

(** Everything of [main] up to and including the sort: the list handed to
    [write_prompts_to_log]. *)
Definition collect_sorted (clk : clock) (h : host) (db_files : list path)
  : result (list prompt_record * nat) :=
  let workspace_path := lit "/" :: cwd h in
  let workspace_files := get_project_files h workspace_path in
  match extract_dbs clk h workspace_files db_files [] 0 with
  | Ok (all_prompts, tick) =>
      match sort_desc all_prompts with
      | Ok sorted => Ok (sorted, tick)
      | Raise e => Raise e
      end
  | Raise e => Raise e
  end.

(** [main()] with [--output output]; console output is not modelled. *)
Definition main (clk : clock) (h : host) (output : str) : outcome * host :=
  let workspace_path := lit "/" :: cwd h in
  match find_cursor_dbs h with
  | [] => (NoDatabases, h)
  | db_files =>
      match collect_sorted clk h db_files with
      | Ok (all_prompts, tick) =>
          match write_prompts_to_log clk tick h all_prompts workspace_path output with
          | (Ok true, h', _) => (Wrote all_prompts, h')
          | (Ok false, h', _) => (NothingWritten, h')
          | (Raise e, h', _) => (Failed e, h')
          end
      | Raise e => (Failed e, h)
      end
  end.

End Program.

(* ================================================================== *)
(** * What the extraction loop computes *)
(* ================================================================== *)

(** The dictionary of an element that yields a record: a [dict] whose
    [text] is a [str] that is not empty after [strip]. *)
Definition accepted (e : json) : option (list (str * json)) :=
  match e with
  | JObj d =>
      match dict_get (lit "text") d with
      | Some (JStr s) => match strip s with _ :: _ => Some d | [] => None end
      | _ => None
      end
  | _ => None
  end.

Definition keep (ps : list json) : list (list (str * json)) :=
  flat_map (fun e => match accepted e with Some d => [d] | None => [] end) ps.

(** An element on which [strip] can be called: not a [dict] with a [text]
    that is not a [str]. *)
Definition text_is_str (e : json) : bool :=
  match e with
  | JObj d =>
      match dict_get (lit "text") d with
      | Some (JStr _) => true
      | Some _ => false
      | None => true
      end
  | _ => true
  end.

(** The record of an accepted dictionary, with the clock reading [now]. *)
Definition record_of (now : datetime) (d : list (str * json)) : prompt_record :=
  {| content := match dict_get (lit "text") d with Some v => v | None => JNull end;
     command_type := get_command_type d;
     timestamp := get_timestamp d now;
     raw_data := d |}.

(** The records of accepted dictionaries, with successive clock readings. *)
Fixpoint records_from (clk : clock) (tick : nat) (ds : list (list (str * json)))
  : list prompt_record :=
  match ds with
  | [] => []
  | d :: ds' => record_of (clk tick) d :: records_from clk (S tick) ds'
  end.

(** Records in descending order of their string timestamps. *)
Definition ts_str (r : prompt_record) : bool :=
  match timestamp r with JStr _ => true | _ => false end.

Definition ts_ge (a b : prompt_record) : Prop :=
  match timestamp a, timestamp b with
  | JStr x, JStr y => str_ltb x y = false
  | _, _ => False
  end.

(** [YYYY-MM-DDTHH:MM:SS], optionally followed by [.ffffff]. *)
Definition digit (c : N) : bool := (48 <=? c) && (c <=? 57).

Definition iso_like (s : str) : bool :=
  match s with
  | y1 :: y2 :: y3 :: y4 :: 45 :: m1 :: m2 :: 45 :: d1 :: d2 :: 84
      :: h1 :: h2 :: 58 :: i1 :: i2 :: 58 :: s1 :: s2 :: frac =>
      forallb digit [y1; y2; y3; y4; m1; m2; d1; d2; h1; h2; i1; i2; s1; s2]
      && match frac with
         | [] => true
         | [46; f1; f2; f3; f4; f5; f6] => forallb digit [f1; f2; f3; f4; f5; f6]
         | _ => false
         end
  | _ => false
  end.

(** Paths of which none is the other or below it. *)
Fixpoint is_prefix (p q : path) : bool :=
  match p, q with
  | [], _ => true
  | x :: p', y :: q' => str_eqb x y && is_prefix p' q'
  | _ :: _, [] => false
  end.

Definition unrelated (p q : path) : bool :=
  negb (is_prefix p q) && negb (is_prefix q p).

(** A list of names without repetition. *)
Fixpoint mem (x : str) (l : list str) : bool :=
  match l with
  | [] => false
  | y :: l' => str_eqb x y || mem x l'
  end.

Fixpoint nodupb (l : list str) : bool :=
  match l with
  | [] => true
  | x :: l' => negb (mem x l') && nodupb l'
  end.

(** Every directory lists a name once. *)
Fixpoint wf_node (n : node) : bool :=
  match n with
  | File _ => true
  | Dir es =>
      nodupb (map fst es)
      && (fix children (es : list (str * node)) : bool :=
            match es with
            | [] => true
            | (_, child) :: es' => wf_node child && children es'
            end) es
  end.

(** The sub-directories of a directory, walked in their order. *)
Definition walk_children (top : path) (es : list (str * node))
  : list (path * list str * list str) :=
  flat_map
    (fun e =>
       match snd e with
       | Dir _ => os_walk (top ++ [fst e]) (snd e)
       | File _ => []
       end)
    es.

(** The platform-default locations below the home directory. *)
Definition base_rel (sys : str) : list path :=
  if str_eqb sys (lit "Darwin") then
    [ Path (lit "Library/Application Support");
      Path (lit "Library/Caches");
      Path (lit "Library/Preferences") ]
  else if str_eqb sys (lit "Windows") then
    [ Path (lit "AppData/Roaming");
      Path (lit "AppData/Local");
      Path (lit "AppData/LocalLow") ]
  else if str_eqb sys (lit "Linux") then
    [ Path (lit ".config");
      Path (lit ".local/share");
      Path (lit ".cache") ]
  else [ [] ].

Definition default_rel (sys : str) : list path :=
  flat_map (fun b => map (fun c => b ++ Path c) common_paths) (base_rel sys).

(** All pairs of a list are unrelated. *)
Fixpoint pairwise_unrelated (l : list path) : bool :=
  match l with
  | [] => true
  | p :: l' => forallb (unrelated p) l' && pairwise_unrelated l'
  end.

(** The override is neither a default location nor inside one nor around
    one. *)
Definition override_apart (h : host) : bool :=
  forallb (fun c => forallb (unrelated c) (default_paths h)) (custom_paths h).

(** A name that a directory can list: not [..], and not a root. *)
Definition entry_name (s : str) : bool :=
  negb (str_eqb s (lit "..")) && negb (is_root s).

(** Every directory lists such names only. *)
Fixpoint plain_node (n : node) : bool :=
  match n with
  | File _ => true
  | Dir es =>
      (fix children (es : list (str * node)) : bool :=
         match es with
         | [] => true
         | (name, child) :: es' => entry_name name && plain_node child && children es'
         end) es
  end.

(** Two paths lead to places of which none is the other or inside it. *)
Definition apart_files (h : host) (p q : path) : bool :=
  match resolve h p, resolve h q with
  | Some rp, Some rq => unrelated rp rq
  | _, _ => false
  end.

(** The place of the override is neither the place of a default location
    nor inside one nor around one, however the paths are spelled. *)
Definition override_apart_files (h : host) : bool :=
  forallb (fun c => forallb (apart_files h c) (default_paths h)) (custom_paths h).

(** The exceptions of the scanner: the text is not JSON, it nests too
    deeply, or it holds an integer literal that is too long. *)
Definition decode_error (e : exn) : Prop :=
  e = JSONDecodeError \/ e = RecursionError \/ e = ValueError.

(** What leaves the extraction: [AttributeError] from a [text] that is not
    a string, and the exceptions of the decoder that are not caught. *)
Definition extraction_error (e : exn) : Prop :=
  e = AttributeError \/ e = RecursionError \/ e = ValueError.

(** The first part of a path is not a root. *)
Definition head_not_root (q : path) : Prop :=
  match q with
  | x :: _ => is_root x = false
  | [] => True
  end.

(* ================================================================== *)
(** * A machine for the examples *)
(* ================================================================== *)

(** A clock that advances by a day at every reading. *)
Definition clk_demo : clock :=
  fun i => mkDatetime 2024 1 (1 + N.of_nat i mod 28) 12 0 0 0.

(** A runtime in which every file opens as a store whose one row holds the
    file's text as its value. *)
Definition rt_demo : runtime :=
  {| sqlite_select1 := fun _ => true;
     sqlite_prompt_rows :=
       fun data => Some [[(lit "key", lit "aiService.prompts"); (lit "value", data)]];
     format_value := fun _ => lit "?";
     json_dumps := fun _ => lit "?";
     disk_room := None |}.

Definition store_text : str :=
  jlit "[{'text': 'b', 'timestamp': '2024-01-02T09:00:00'}, {'text': 'a', 'timestamp': '2024-01-01T09:00:00'}, {'text': 'c', 'timestamp': '2024-01-03T09:00:00'}]".

(** [/home/u/.config/Cursor/User/globalStorage/state.vscdb], an empty
    [/home/u/work] and [/data/extra.db]. *)
Definition fs_demo : node :=
  Dir [ (lit "home",
         Dir [ (lit "u",
                Dir [ (lit ".config",
                       Dir [ (lit "Cursor",
                              Dir [ (lit "User",
                                     Dir [ (lit "globalStorage",
                                            Dir [ (lit "state.vscdb", File store_text) ]) ]) ]) ]);
                      (lit "work", Dir []) ]) ]);
        (lit "data", Dir [ (lit "extra.db", File (lit "not json")) ]) ].

(** A Linux machine with user [u], run from [/home/u/work], with the given
    [CURSOR_STORAGE_PATH]. *)
Definition host_demo (override : option str) : host :=
  mkHost (lit "Linux") [lit "/"; lit "home"; lit "u"]
    [lit "home"; lit "u"; lit "work"] override fs_demo.

(** A runtime in which no file passes the validation query. *)
Definition rt_closed : runtime :=
  {| sqlite_select1 := fun _ => false;
     sqlite_prompt_rows := fun _ => None;
     format_value := fun _ => lit "?";
     json_dumps := fun _ => lit "?";
     disk_room := None |}.

(** A Linux machine whose only store is the file
    [/home/u/.config/Cursor/User/state.vscdb] with the given text, run from
    [/home/u]. *)
Definition host_store (text : str) : host :=
  mkHost (lit "Linux") [lit "/"; lit "home"; lit "u"] [lit "home"; lit "u"] None
    (Dir [ (lit "home",
            Dir [ (lit "u",
                   Dir [ (lit ".config",
                          Dir [ (lit "Cursor",
                                 Dir [ (lit "User",
                                        Dir [ (lit "state.vscdb", File text) ]) ]) ]) ]) ]) ]).

(** A Linux machine with two stores, found in this order:
    [/home/u/.config/Cursor/Storage/a.db] and
    [/home/u/.config/Cursor/User/state.vscdb]. *)
Definition host_pair (text1 text2 : str) : host :=
  mkHost (lit "Linux") [lit "/"; lit "home"; lit "u"] [lit "home"; lit "u"] None
    (Dir [ (lit "home",
            Dir [ (lit "u",
                   Dir [ (lit ".config",
                          Dir [ (lit "Cursor",
                                 Dir [ (lit "User",
                                        Dir [ (lit "state.vscdb", File text2) ]);
                                       (lit "Storage",
                                        Dir [ (lit "a.db", File text1) ]) ]) ]) ]) ]) ]).

(** Two values that the decoder does not take: two thousand opening
    brackets, and a number of 4301 digits. *)
Definition deep_value : str := repeat (ch "[") 2000.
Definition long_number : str := repeat (ch "1") 4301.

(* ================================================================== *)
(** * Notions for further properties *)
(* ================================================================== *)

(** Every dictionary of the array has a [timestamp]. *)
Definition has_timestamp (e : json) : bool :=
  match e with
  | JObj d => dict_contains (lit "timestamp") d
  | _ => true
  end.

(** The values that [<] can order belong to one of three kinds: numbers,
    strings and lists. *)
Inductive kind : Type := KNum | KStr | KArr.

Definition kind_of (v : json) : option kind :=
  match v with
  | JBool _ | JInt _ | JFloat _ => Some KNum
  | JStr _ => Some KStr
  | JArr _ => Some KArr
  | JNull | JObj _ => None
  end.

Definition kind_eqb (a b : option kind) : bool :=
  match a, b with
  | Some KNum, Some KNum | Some KStr, Some KStr | Some KArr, Some KArr => true
  | None, None => true
  | _, _ => false
  end.

(** Records whose timestamps are JSON integers, in descending order. *)
Definition ts_int (r : prompt_record) : bool :=
  match timestamp r with JInt _ => true | _ => false end.

Definition ts_ge_int (a b : prompt_record) : Prop :=
  match timestamp a, timestamp b with
  | JInt x, JInt y => (y <= x)%Z
  | _, _ => False
  end.

(** The row has a [value] column. *)
Definition has_value (row_dict : list (str * str)) : bool :=
  match row_get (lit "value") row_dict with Some _ => true | None => false end.

(** The rows that [main] gets from one store; [None] when the query raises
    [sqlite3.Error]. *)
Definition store_rows (rt : runtime) (h : host) (db_path : path)
  : option (list (list (str * str))) :=
  match lookup h db_path with
  | Some (File data) => sqlite_prompt_rows rt data
  | _ => None
  end.

Definition queryable (rt : runtime) (h : host) (db_path : path) : bool :=
  match store_rows rt h db_path with Some _ => true | None => false end.

(** [a < b] on [datetime]: the order of the fields, from the year to the
    microsecond. *)
Fixpoint lex_ltb (l : list (N * N)) : bool :=
  match l with
  | [] => false
  | (x, y) :: l' => (x <? y) || ((x =? y) && lex_ltb l')
  end.

Definition datetime_ltb (a b : datetime) : bool :=
  lex_ltb [ (year a, year b); (month a, month b); (day a, day b);
            (hour a, hour b); (minute a, minute b); (second a, second b);
            (microsecond a, microsecond b) ].

(** The number that a string of decimal digits denotes. *)
Definition digits_number (s : str) : N :=
  fold_left (fun a c => a * 10 + (c - 48)) s 0.

(** A code point that UTF-8 cannot encode: a surrogate, or a number above
    the last code point. *)
Definition unencodable (c : N) : bool :=
  ((55296 <=? c) && (c <=? 57343)) || (1114112 <=? c).

(* ================================================================== *)
(** * Strings *)
(* ================================================================== *)

Lemma str_eqb_eq (a b : str) : str_eqb a b = true <-> a = b.
Proof.
  revert b; induction a as [|x a IH]; intros [|y b]; simpl; try easy.
  rewrite andb_true_iff, N.eqb_eq, IH. split.
  - intros [-> ->]; reflexivity.
  - intros H; injection H; auto.
Qed.

Lemma str_eqb_refl (a : str) : str_eqb a a = true.
Proof. apply str_eqb_eq; reflexivity. Qed.

Lemma str_eqb_neq (a b : str) : str_eqb a b = false <-> a <> b.
Proof.
  rewrite <- str_eqb_eq. destruct (str_eqb a b); split; congruence.
Qed.

Lemma str_ltb_irrefl (a : str) : str_ltb a a = false.
Proof.
  induction a as [|x a IH]; simpl; auto.
  rewrite N.ltb_irrefl, N.eqb_refl, IH; reflexivity.
Qed.

Lemma str_ltb_trans (a b c : str) :
  str_ltb a b = true -> str_ltb b c = true -> str_ltb a c = true.
Proof.
  revert b c; induction a as [|x a IH]; intros [|y b] [|z c]; simpl; try easy.
  rewrite !orb_true_iff, !andb_true_iff, !N.ltb_lt, !N.eqb_eq.
  intros [H1|[H1 H1']] [H2|[H2 H2']].
  - left; lia.
  - left; lia.
  - left; lia.
  - right; split; [lia | eauto].
Qed.

(** The order on strings is total: of two different strings one is below the
    other. *)
Lemma str_ltb_total (a b : str) :
  str_ltb a b = false -> str_ltb b a = false -> a = b.
Proof.
  revert b; induction a as [|x a IH]; intros [|y b]; simpl; try easy.
  rewrite !orb_false_iff, !andb_false_iff, !N.ltb_ge, !N.eqb_neq.
  intros [H1 H1'] [H2 H2'].
  assert (x = y) by lia; subst y.
  f_equal. apply IH.
  - destruct H1'; [congruence | assumption].
  - destruct H2'; [congruence | assumption].
Qed.

Lemma str_ltb_antisym (a b : str) : str_ltb a b = true -> str_ltb b a = false.
Proof.
  intros H. destruct (str_ltb b a) eqn:E; auto.
  pose proof (str_ltb_trans _ _ _ H E) as K.
  rewrite str_ltb_irrefl in K; discriminate.
Qed.

(** [a >= b] is transitive. *)
Lemma str_geb_trans (a b c : str) :
  str_ltb a b = false -> str_ltb b c = false -> str_ltb a c = false.
Proof.
  intros H1 H2. destruct (str_ltb a c) eqn:E; auto.
  destruct (str_ltb b a) eqn:E1.
  - rewrite (str_ltb_trans _ _ _ E1 E) in H2; discriminate.
  - rewrite (str_ltb_total _ _ H1 E1) in E. congruence.
Qed.

(* ================================================================== *)
(** * The extraction loop *)
(* ================================================================== *)

Lemma keep_app (p q : list json) : keep (p ++ q) = keep p ++ keep q.
Proof. unfold keep. apply flat_map_app. Qed.

Lemma keep_rev (ps : list json) : keep (rev ps) = rev (keep ps).
Proof.
  induction ps as [|e ps IH]; simpl; auto.
  rewrite keep_app, IH. simpl. unfold keep at 2; simpl.
  destruct (accepted e); simpl; rewrite ?app_nil_r; auto.
Qed.

Lemma forallb_rev {A} (f : A -> bool) (l : list A) :
  forallb f (rev l) = forallb f l.
Proof.
  induction l as [|x l IH]; simpl; auto.
  rewrite forallb_app, IH. simpl. rewrite andb_true_r. apply andb_comm.
Qed.

Lemma accepted_dict (e : json) (d : list (str * json)) :
  accepted e = Some d ->
  e = JObj d /\ exists s, dict_get (lit "text") d = Some (JStr s) /\ strip s <> [].
Proof.
  unfold accepted. destruct e; try discriminate.
  destruct (dict_get (lit "text") fields) as [[]|] eqn:E; try discriminate.
  destruct (strip s) eqn:Es; try discriminate.
  intros H; injection H as <-. split; auto. exists s. split; auto. congruence.
Qed.

Lemma keep_accepted (ps : list json) (d : list (str * json)) :
  In d (keep ps) <-> exists e, In e ps /\ accepted e = Some d.
Proof.
  unfold keep. rewrite in_flat_map. split; intros [e [H1 H2]]; exists e; split; auto.
  - destruct (accepted e); simpl in H2; [destruct H2 as [->|[]]; auto | destruct H2].
  - rewrite H2; simpl; auto.
Qed.

(** The loop raises as soon as one element has a [text] that is not a
    string; otherwise it appends one record per accepted element, in the
    order of the elements, reading the clock once for each. *)
Lemma extract_loop_eq (clk : clock) (ps : list json) :
  forall (acc : list prompt_record) (tick : nat),
    extract_loop clk ps acc tick =
    if forallb text_is_str ps
    then Ok (acc ++ records_from clk tick (keep ps), (tick + length (keep ps))%nat)
    else Raise AttributeError.
Proof.
  induction ps as [|e ps IH]; intros acc tick; simpl.
  - rewrite app_nil_r, Nat.add_0_r; reflexivity.
  - unfold keep; simpl; fold (keep ps).
    destruct e; simpl; try (rewrite IH; reflexivity).
    destruct (dict_get (lit "text") fields) as [v|] eqn:E; simpl.
    2: { rewrite IH; reflexivity. }
    destruct v; simpl; try reflexivity.
    destruct (strip s) eqn:Es; simpl.
    + rewrite IH; reflexivity.
    + rewrite IH. destruct (forallb text_is_str ps); auto.
      unfold record_of. rewrite E, <- app_assoc. simpl.
      rewrite Nat.add_succ_r. reflexivity.
Qed.

Lemma constant_fail (name : string) (v : json) (s : str) (e : exn) :
  Json.constant name v s = Json.Fail e -> e = JSONDecodeError.
Proof.
  unfold Json.constant, Json.refuse.
  destruct (strip_prefix (lit name) s); congruence.
Qed.

Lemma match_number_fail (s rest : str) (e : exn) :
  Json.match_number s = Some (Raise e, rest) -> e = ValueError.
Proof.
  unfold Json.match_number, Json.int_of_digits.
  match goal with
  | |- (let '(neg, s1) := ?X in _) = _ -> _ => destruct X as [neg s1]
  end.
  destruct s1 as [|d t]; [discriminate|].
  destruct (Json.is_digit d); [|discriminate].
  match goal with
  | |- (let '(ip, r1) := ?X in _) = _ -> _ => destruct X as [ip r1]
  end.
  match goal with
  | |- (let '(fp, r2) := ?X in _) = _ -> _ => destruct X as [fp r2]
  end.
  match goal with
  | |- (let '(ex, r3) := ?X in _) = _ -> _ => destruct X as [ex r3]
  end.
  destruct fp; [destruct ex|]; try discriminate.
  destruct (_ <? _)%nat; congruence.
Qed.

Lemma scan_fail (fuel : nat) :
  (forall depth s e, Json.scan_once fuel depth s = Json.Fail e -> decode_error e)
  /\ (forall depth s acc e, Json.array_loop fuel depth s acc = Json.Fail e ->
                            decode_error e)
  /\ (forall depth s acc e, Json.object_loop fuel depth s acc = Json.Fail e ->
                            decode_error e).
Proof.
  assert (R : forall e, Json.refuse = Json.Fail e -> decode_error e).
  { unfold Json.refuse. intros e H. injection H as <-. left; reflexivity. }
  induction fuel as [|fuel (IHs & IHa & IHo)].
  { repeat split; intros; discriminate. }
  repeat split.
  - intros depth s e. cbn [Json.scan_once].
    destruct s as [|c t]; [apply R|].
    destruct (c =? dquote).
    { destruct (Json.py_scanstring t) as [[k r]|]; [discriminate | apply R]. }
    destruct (c =? ch "{").
    { destruct depth as [|depth'].
      { intros H; injection H as <-. right; left; reflexivity. }
      destruct (Json.skip_ws t) as [|c1 t1]; [apply R|].
      destruct (c1 =? dquote); [apply IHo|].
      destruct (c1 =? ch "}"); [discriminate | apply R]. }
    destruct (c =? ch "[").
    { destruct depth as [|depth'].
      { intros H; injection H as <-. right; left; reflexivity. }
      destruct (Json.skip_ws t) as [|c1 t1]; [apply R|].
      destruct (c1 =? ch "]"); [discriminate | apply IHa]. }
    assert (K : forall name v, Json.constant name v (c :: t) = Json.Fail e ->
                               decode_error e).
    { intros name v H. apply constant_fail in H. left; exact H. }
    destruct (c =? ch "n"); [apply K|].
    destruct (c =? ch "t"); [apply K|].
    destruct (c =? ch "f"); [apply K|].
    destruct (c =? ch "N"); [apply K|].
    destruct (c =? ch "I"); [apply K|].
    destruct (Json.match_number (c :: t)) as [[[w|e'] r]|] eqn:E.
    + discriminate.
    + intros H; injection H as <-. apply match_number_fail in E.
      right; right; exact E.
    + destruct (c =? ch "-"); [apply K | apply R].
  - intros depth s acc e. cbn [Json.array_loop].
    destruct (Json.scan_once fuel depth s) as [|e'|w r] eqn:E; [discriminate| |].
    + intros H; injection H as <-. eapply IHs; exact E.
    + destruct (Json.skip_ws r) as [|c t]; [apply R|].
      destruct (c =? ch "]"); [discriminate|].
      destruct (c =? ch ","); [apply IHa | apply R].
  - intros depth s acc e. cbn [Json.object_loop].
    destruct (Json.py_scanstring s) as [[key r]|]; [|apply R].
    destruct (Json.skip_ws r) as [|c t]; [apply R|].
    destruct (c =? ch ":"); [|apply R].
    destruct (Json.scan_once fuel depth (Json.skip_ws t)) as [|e'|w r'] eqn:E';
      [discriminate| |].
    + intros H; injection H as <-. eapply IHs; exact E'.
    + destruct (Json.skip_ws r') as [|c' t']; [apply R|].
      destruct (c' =? ch "}"); [discriminate|].
      destruct (c' =? ch ","); [|apply R].
      destruct (Json.skip_ws t') as [|q t'']; [apply R|].
      destruct (q =? dquote); [apply IHo | apply R].
Qed.

(** [json.loads] raises [JSONDecodeError], [RecursionError] or
    [ValueError], and nothing else. *)
Lemma loads_raise (value : str) (e : exn) :
  Json.loads value = Raise e -> decode_error e.
Proof.
  unfold Json.loads, Json.loads_fuel.
  assert (J : decode_error JSONDecodeError) by (left; reflexivity).
  destruct value as [|c t].
  - destruct (Json.scan_once _ _ _) as [|e0|v rest] eqn:E.
    + intros H; injection H as <-. exact J.
    + intros H; injection H as <-. eapply (proj1 (scan_fail _)); exact E.
    + destruct (Json.skip_ws rest); [discriminate|].
      intros H; injection H as <-. exact J.
  - destruct (N.eq_dec c 65279) as [->|Hc].
    { intros H; injection H as <-. exact J. }
    assert (H : forall (r : option (result json)),
               match c with 65279 => Some (Raise JSONDecodeError) | _ => r end
               = Some (Raise e) -> r = Some (Raise e) \/ e = JSONDecodeError).
    { intros r. destruct c as [|p]; auto.
      do 16 (destruct p as [p|p|]; auto); intros; right; congruence. }
    match goal with
    | |- match ?X with _ => _ end = _ -> _ =>
        destruct X as [r|] eqn:EX
    end.
    + intros ->. apply H in EX. destruct EX as [EX | ->]; [|exact J].
      destruct (Json.scan_once _ _ _) as [|e0|v rest] eqn:E; [discriminate| |].
      * injection EX as <-. eapply (proj1 (scan_fail _)); exact E.
      * destruct (Json.skip_ws rest); [discriminate|].
        injection EX as <-. exact J.
    + intros H'; injection H' as <-. exact J.
Qed.

(** On a decoded array the function raises [AttributeError] when an element
    has a [text] that is not a string, and otherwise returns one record per
    accepted element, those of the last elements first. *)
Lemma extract_array (clk : clock) (tick : nat) (value : str)
    (workspace_files : list str) (items : list json) :
  Json.loads value = Ok (JArr items) ->
  extract_prompts_from_value clk tick value workspace_files =
  if forallb text_is_str items
  then Ok (records_from clk tick (rev (keep items)), (tick + length (keep items))%nat)
  else Raise AttributeError.
Proof.
  intros H. unfold extract_prompts_from_value. rewrite H.
  rewrite extract_loop_eq, forallb_rev, keep_rev, length_rev. reflexivity.
Qed.

(** Whatever the value, a returned list is made of the records of accepted
    dictionaries with successive clock readings. *)
Lemma extract_ok (clk : clock) (tick : nat) (value : str)
    (workspace_files : list str) (records : list prompt_record) (tick' : nat) :
  extract_prompts_from_value clk tick value workspace_files = Ok (records, tick') ->
  exists ds,
    records = records_from clk tick ds /\ tick' = (tick + length ds)%nat /\
    forall d, In d ds -> accepted (JObj d) = Some d.
Proof.
  unfold extract_prompts_from_value.
  destruct (Json.loads value) as [v|e] eqn:E.
  - destruct v; try (intros H; injection H as <- <-; exists []; simpl;
                     rewrite Nat.add_0_r; repeat split; auto; intros ? []).
    rewrite extract_loop_eq. destruct (forallb text_is_str (rev items)); [|discriminate].
    intros H; injection H as <- <-. exists (keep (rev items)). repeat split; auto.
    intros d Hd. apply keep_accepted in Hd. destruct Hd as [e [_ He]].
    destruct (accepted_dict _ _ He) as [-> _]. assumption.
  - destruct e; try discriminate.
    intros H; injection H as <- <-; exists []; simpl.
    rewrite Nat.add_0_r; repeat split; auto; intros ? [].
Qed.

Lemma records_from_length (clk : clock) (ds : list (list (str * json))) :
  forall tick, length (records_from clk tick ds) = length ds.
Proof. induction ds; simpl; auto. Qed.

Lemma records_from_raw_data (clk : clock) (ds : list (list (str * json))) :
  forall tick, map raw_data (records_from clk tick ds) = ds.
Proof. induction ds; simpl; intros; f_equal; auto. Qed.

Lemma records_from_In (clk : clock) (ds : list (list (str * json))) :
  forall tick r,
    In r (records_from clk tick ds) ->
    exists k d, (tick <= k < tick + length ds)%nat /\ In d ds /\ r = record_of (clk k) d.
Proof.
  induction ds as [|d ds IH]; simpl; intros tick r H; [destruct H|].
  destruct H as [<-|H].
  - exists tick, d. repeat split; auto; lia.
  - apply IH in H. destruct H as [k [d' [Hk [Hd ->]]]].
    exists k, d'. repeat split; auto; lia.
Qed.

(* ================================================================== *)
(** * The timestamp of the clock *)
(* ================================================================== *)

Lemma decimal_aux_digits (fuel : nat) :
  forall n acc,
    Forall (fun c => digit c = true) acc ->
    Forall (fun c => digit c = true) (decimal_aux fuel n acc).
Proof.
  induction fuel as [|fuel IH]; cbn [decimal_aux]; intros n acc Hacc; auto.
  destruct (N.ltb_spec n 10).
  - constructor; auto. unfold digit.
    apply andb_true_iff; split; [apply N.leb_le | apply N.leb_le]; lia.
  - apply IH. constructor; auto. unfold digit.
    assert (n mod 10 < 10) by (apply N.mod_lt; lia).
    generalize dependent (n mod 10); intros m Hm.
    apply andb_true_iff; split; [apply N.leb_le | apply N.leb_le]; lia.
Qed.

Lemma decimal_aux_length (fuel : nat) :
  forall n acc w,
    n < 10 ^ N.of_nat w -> (1 <= w)%nat ->
    (length (decimal_aux fuel n acc) <= w + length acc)%nat.
Proof.
  induction fuel as [|fuel IH]; cbn [decimal_aux]; intros n acc w Hn Hw; [lia|].
  destruct (N.ltb_spec n 10); cbn [length]; [lia|].
  destruct w as [|[|w]]; [lia | change (10 ^ N.of_nat 1) with 10 in Hn; lia |].
  specialize (IH (n / 10) ((48 + n mod 10) :: acc) (S w)).
  cbn [length] in IH.
  assert (n / 10 < 10 ^ N.of_nat (S w)).
  { apply N.Div0.div_lt_upper_bound.
    replace (N.of_nat (S (S w))) with (N.succ (N.of_nat (S w))) in Hn by lia.
    rewrite N.pow_succ_r' in Hn. exact Hn. }
  specialize (IH H0). lia.
Qed.

(** A number below [10^w] is printed by ["%0wd"] as exactly [w] digits. *)
Lemma fmt_d_shape (w : nat) (n : N) :
  n < 10 ^ N.of_nat w -> (1 <= w)%nat ->
  length (fmt_d w n) = w /\ Forall (fun c => digit c = true) (fmt_d w n).
Proof.
  intros Hn Hw. unfold fmt_d, zfill, decimal.
  pose proof (decimal_aux_length (S (N.to_nat (N.log2 n))) n [] w Hn Hw) as Hl.
  change (w + length (@nil N))%nat with (w + 0)%nat in Hl. split.
  - rewrite length_app, repeat_length. lia.
  - apply Forall_app. split.
    + apply Forall_forall. intros c Hc. apply repeat_spec in Hc. subst c. reflexivity.
    + apply decimal_aux_digits. constructor.
Qed.

(** Read back as a number, the digits printed in front of [acc] continue
    [n]. *)
Lemma decimal_aux_value (fuel : nat) :
  forall n acc,
    n < 10 ^ N.of_nat fuel ->
    fold_left (fun a c => a * 10 + (c - 48)) (decimal_aux fuel n acc) 0
    = fold_left (fun a c => a * 10 + (c - 48)) acc n.
Proof.
  induction fuel as [|fuel IH]; intros n acc Hn.
  - change (10 ^ N.of_nat 0) with 1 in Hn. assert (n = 0) by lia. subst n. reflexivity.
  - cbn [decimal_aux]. destruct (N.ltb_spec n 10).
    + cbn [fold_left]. f_equal. lia.
    + rewrite IH.
      * cbn [fold_left]. f_equal.
        pose proof (N.div_mod n 10 ltac:(lia)) as D.
        assert (M : n mod 10 < 10) by (apply N.mod_lt; lia).
        revert D M. generalize (n mod 10), (n / 10). intros m q D M. lia.
      * apply N.Div0.div_lt_upper_bound.
        replace (N.of_nat (S fuel)) with (N.succ (N.of_nat fuel)) in Hn by lia.
        rewrite N.pow_succ_r' in Hn. exact Hn.
Qed.

(** [decimal n] denotes [n]: no digit is lost. *)
Lemma decimal_value (n : N) :
  fold_left (fun a c => a * 10 + (c - 48)) (decimal n) 0 = n.
Proof.
  unfold decimal. rewrite decimal_aux_value; [reflexivity|].
  replace (N.of_nat (S (N.to_nat (N.log2 n)))) with (N.succ (N.log2 n)) by lia.
  destruct (N.eq_dec n 0) as [->|Hn]; [reflexivity|].
  apply N.lt_le_trans with (2 ^ N.succ (N.log2 n)).
  - apply N.log2_spec. lia.
  - apply N.pow_le_mono_l. lia.
Qed.

Lemma isoformat_nonempty (d : datetime) : isoformat d <> [].
Proof.
  unfold isoformat. intros H.
  apply app_eq_nil in H. destruct H as [_ H]. discriminate H.
Qed.

Ltac digits_of H :=
  let Hl := fresh "Hl" in
  let Hd := fresh "Hd" in
  destruct H as [Hl Hd];
  repeat match type of Hl with
         | length ?l = _ =>
             destruct l; simpl in Hl; try discriminate Hl;
             try apply Nat.succ_inj in Hl
         end;
  repeat match type of Hd with
         | Forall _ (_ :: _) =>
             let Hc := fresh "Hc" in
             apply Forall_cons_iff in Hd; destruct Hd as [Hc Hd]
         end;
  clear Hd.

(** The clock's timestamp has the shape of an ISO 8601 date and time. *)
Lemma isoformat_iso_like (d : datetime) :
  valid_datetime d -> iso_like (isoformat d) = true.
Proof.
  intros (Hy & Hm & Hd & Hh & Hi & Hs & Hu).
  assert (Y : year d < 10 ^ N.of_nat 4) by (simpl; lia).
  assert (M : month d < 10 ^ N.of_nat 2) by (simpl; lia).
  assert (D : day d < 10 ^ N.of_nat 2) by (simpl; lia).
  assert (H : hour d < 10 ^ N.of_nat 2) by (simpl; lia).
  assert (I : minute d < 10 ^ N.of_nat 2) by (simpl; lia).
  assert (S_ : second d < 10 ^ N.of_nat 2) by (simpl; lia).
  assert (U : microsecond d < 10 ^ N.of_nat 6) by (simpl; lia).
  apply fmt_d_shape in Y, M, D, H, I, S_, U; try lia.
  unfold isoformat.
  digits_of Y. digits_of M. digits_of D. digits_of H. digits_of I. digits_of S_.
  destruct (microsecond d =? 0).
  - cbn [app lit map list_ascii_of_string N_of_ascii iso_like forallb].
    repeat match goal with H : digit _ = true |- _ => rewrite H; clear H end.
    reflexivity.
  - digits_of U.
    cbn [app lit map list_ascii_of_string N_of_ascii iso_like forallb].
    repeat match goal with H : digit _ = true |- _ => rewrite H; clear H end.
    reflexivity.
Qed.

(* ================================================================== *)
(** * The sort *)
(* ================================================================== *)

Lemma insert_desc_perm (x : prompt_record) (l : list prompt_record) :
  forall l', insert_desc x l = Ok l' -> Permutation (x :: l) l'.
Proof.
  induction l as [|y l IH]; simpl; intros l' H.
  - injection H as <-. apply Permutation_refl.
  - destruct (py_lt (timestamp x) (timestamp y)) as [[|]|]; try discriminate.
    + destruct (insert_desc x l) as [l''|] eqn:E; simpl in H; try discriminate.
      injection H as <-.
      apply perm_trans with (y :: x :: l); [apply perm_swap|].
      apply perm_skip. apply IH. reflexivity.
    + injection H as <-. apply Permutation_refl.
Qed.

(** A sort that returns has rearranged the list: no record is dropped. *)
Lemma sort_desc_perm (l : list prompt_record) :
  forall l', sort_desc l = Ok l' -> Permutation l l'.
Proof.
  induction l as [|x l IH]; simpl; intros l' H.
  - injection H as <-. constructor.
  - destruct (sort_desc l) as [s|] eqn:E; simpl in H; try discriminate.
    apply perm_trans with (x :: s).
    + apply perm_skip. apply IH. reflexivity.
    + apply insert_desc_perm. assumption.
Qed.

Lemma insert_desc_raise (x : prompt_record) (l : list prompt_record) (e : exn) :
  insert_desc x l = Raise e -> e = TypeError.
Proof.
  induction l as [|y l IH]; simpl; try discriminate.
  destruct (py_lt (timestamp x) (timestamp y)) as [[|]|]; try congruence.
  destruct (insert_desc x l); simpl; try discriminate.
  intros H. apply IH. congruence.
Qed.

(** The sort raises [TypeError] only. *)
Lemma sort_desc_raise (l : list prompt_record) (e : exn) :
  sort_desc l = Raise e -> e = TypeError.
Proof.
  induction l as [|x l IH]; simpl; try discriminate.
  destruct (sort_desc l) as [s|e'] eqn:E; simpl.
  - apply insert_desc_raise.
  - intros H. apply IH. congruence.
Qed.




Lemma ts_str_lt (x y : prompt_record) :
  ts_str x = true -> ts_str y = true ->
  exists a b, timestamp x = JStr a /\ timestamp y = JStr b /\
              py_lt (timestamp x) (timestamp y) = Some (str_ltb a b).
Proof.
  unfold ts_str. destruct (timestamp x); try discriminate.
  destruct (timestamp y); try discriminate. eauto.
Qed.

Lemma ts_ge_trans (a b c : prompt_record) : ts_ge a b -> ts_ge b c -> ts_ge a c.
Proof.
  unfold ts_ge. destruct (timestamp a), (timestamp b), (timestamp c); try tauto.
  apply str_geb_trans.
Qed.

(** Insertion into a list of string timestamps in descending order returns,
    and keeps the order. *)
Lemma insert_desc_sorted (x : prompt_record) (l : list prompt_record) :
  ts_str x = true -> forallb ts_str l = true -> StronglySorted ts_ge l ->
  exists l', insert_desc x l = Ok l' /\ StronglySorted ts_ge l' /\
             forall z, Forall (ts_ge z) l -> ts_ge z x -> Forall (ts_ge z) l'.
Proof.
  intros Hx. induction l as [|y l IH]; simpl; intros Hl Hs.
  - exists [x]. repeat split; repeat constructor; auto.
  - apply andb_true_iff in Hl. destruct Hl as [Hy Hl].
    apply StronglySorted_inv in Hs. destruct Hs as [Hs Hyl].
    destruct (ts_str_lt x y Hx Hy) as (a & b & Ea & Eb & ->).
    destruct (str_ltb a b) eqn:Eab.
    + destruct (IH Hl Hs) as (l' & -> & Hs' & Hz). simpl.
      exists (y :: l'). repeat split.
      * constructor; auto. apply Hz; auto.
        unfold ts_ge. rewrite Ea, Eb. apply str_ltb_antisym; assumption.
      * intros z Hzl Hzx. apply Forall_cons_iff in Hzl. destruct Hzl.
        constructor; auto.
    + exists (x :: y :: l). repeat split; auto.
      * constructor; [constructor; auto|].
        assert (Hxy : ts_ge x y) by (unfold ts_ge; rewrite Ea, Eb; assumption).
        constructor; auto.
        eapply Forall_impl; [|exact Hyl]. intros c. apply ts_ge_trans; assumption.
Qed.

(** On string timestamps the sort returns a descending rearrangement. *)
Lemma sort_desc_sorted (l : list prompt_record) :
  forallb ts_str l = true ->
  exists s, sort_desc l = Ok s /\ Permutation l s /\ StronglySorted ts_ge s.
Proof.
  induction l as [|x l IH]; simpl; intros Hl.
  - exists []. repeat split; constructor.
  - apply andb_true_iff in Hl. destruct Hl as [Hx Hl].
    destruct (IH Hl) as (s & Es & Ps & Ss). rewrite Es; simpl.
    assert (Hs : forallb ts_str s = true).
    { apply forallb_forall. intros r Hr.
      apply (proj1 (forallb_forall _ _) Hl).
      apply Permutation_in with s; [apply Permutation_sym|]; assumption. }
    destruct (insert_desc_sorted x s Hx Hs Ss) as (l' & El & Sl & _).
    exists l'. repeat split; auto.
    apply perm_trans with (x :: s); [apply perm_skip; assumption|].
    apply insert_desc_perm; assumption.
Qed.

(** The sort is stable: records with one timestamp keep their order. *)
Lemma insert_desc_stable (k : str) (x : prompt_record) (l : list prompt_record) :
  forall l',
    forallb ts_str (x :: l) = true -> insert_desc x l = Ok l' ->
    filter (fun r => py_eq_item (timestamp r) (JStr k)) l'
    = filter (fun r => py_eq_item (timestamp r) (JStr k)) (x :: l).
Proof.
  induction l as [|y l IH]; intros l' Hl H.
  - simpl in H. injection H as <-. reflexivity.
  - simpl in Hl. apply andb_true_iff in Hl. destruct Hl as [Hx Hl].
    apply andb_true_iff in Hl. destruct Hl as [Hy Hl].
    simpl in H.
    destruct (ts_str_lt x y Hx Hy) as (a & b & Ea & Eb & E). rewrite E in H.
    destruct (str_ltb a b) eqn:Eab.
    + destruct (insert_desc x l) as [l''|] eqn:El; simpl in H; try discriminate.
      injection H as <-.
      assert (IH' := IH l'' ltac:(simpl; rewrite Hx, Hl; reflexivity) eq_refl).
      cbn [filter] in *. rewrite IH'.
      rewrite Ea, Eb. cbn [py_eq_item].
      destruct (str_eqb a k) eqn:Eak; destruct (str_eqb b k) eqn:Ebk; auto.
      apply str_eqb_eq in Eak, Ebk. subst a b.
      rewrite str_ltb_irrefl in Eab. discriminate.
    + injection H as <-. reflexivity.
Qed.

Lemma sort_desc_stable (k : str) (l : list prompt_record) :
  forall s,
    forallb ts_str l = true -> sort_desc l = Ok s ->
    filter (fun r => py_eq_item (timestamp r) (JStr k)) s
    = filter (fun r => py_eq_item (timestamp r) (JStr k)) l.
Proof.
  induction l as [|x l IH]; intros s Hl H.
  - simpl in H. injection H as <-. reflexivity.
  - simpl in H. destruct (sort_desc l) as [s'|] eqn:E; simpl in H; try discriminate.
    simpl in Hl. apply andb_true_iff in Hl. destruct Hl as [Hx Hl].
    assert (Hs : forallb ts_str s' = true).
    { apply forallb_forall. intros r Hr.
      apply (proj1 (forallb_forall _ _) Hl).
      apply Permutation_in with s'; [apply Permutation_sym, sort_desc_perm|]; assumption. }
    rewrite (insert_desc_stable k x s' s); auto.
    + cbn [filter]. rewrite (IH s' Hl eq_refl). reflexivity.
    + simpl. rewrite Hx, Hs. reflexivity.
Qed.

(* ================================================================== *)
(** * Decode tolerance and failure policy *)
(* ================================================================== *)

(** When every [text] of the array is a string, the function returns exactly
    one record per accepted element: per dictionary whose [text] is not empty
    after [strip]. *)
Lemma extract_count (clk : clock) (tick : nat) (value : str)
    (workspace_files : list str) (items : list json) :
  Json.loads value = Ok (JArr items) ->
  forallb text_is_str items = true ->
  exists records,
    extract_prompts_from_value clk tick value workspace_files
    = Ok (records, (tick + length records)%nat)
    /\ length records = length (keep items)
    /\ map raw_data records = rev (keep items).
Proof.
  intros H Hs. rewrite (extract_array _ _ _ _ _ H), Hs.
  exists (records_from clk tick (rev (keep items))).
  rewrite records_from_length, length_rev, records_from_raw_data. auto.
Qed.

(** The function raises exactly when an element of the decoded array is a
    dictionary whose [text] is not a string. *)
Lemma extract_raises_iff (clk : clock) (tick : nat) (value : str)
    (workspace_files : list str) (items : list json) :
  Json.loads value = Ok (JArr items) ->
  (extract_prompts_from_value clk tick value workspace_files = Raise AttributeError
   <-> forallb text_is_str items = false).
Proof.
  intros H. rewrite (extract_array _ _ _ _ _ H).
  destruct (forallb text_is_str items); split; congruence.
Qed.

(** C1 (the code departs from the claim).  The array
    [[{"text": "a"}, {"text": 5}, 3, {"text": "b"}]] decodes, and has two
    well-formed prompt objects interleaved with two malformed entries; the
    function does not yield two records: [strip] is called on the number 5
    and [AttributeError] leaves the function. *)
Theorem interleaved_non_string_text_raises (clk : clock) (tick : nat)
    (workspace_files : list str) :
  let value := jlit "[{'text': 'a'}, {'text': 5}, 3, {'text': 'b'}]" in
  Json.loads value
  = Ok (JArr [ JObj [(lit "text", JStr (lit "a"))];
               JObj [(lit "text", JInt 5)];
               JInt 3;
               JObj [(lit "text", JStr (lit "b"))] ])
  /\ extract_prompts_from_value clk tick value workspace_files = Raise AttributeError.
Proof.
  split; [vm_compute; reflexivity|].
  unfold extract_prompts_from_value.
  replace (Json.loads _) with
    (Ok (JArr [ JObj [(lit "text", JStr (lit "a"))];
                JObj [(lit "text", JInt 5)];
                JInt 3;
                JObj [(lit "text", JStr (lit "b"))] ]))
    by (vm_compute; reflexivity).
  rewrite extract_loop_eq. reflexivity.
Qed.

(** The value [[{"text": null}]] decodes, and [strip] is called on [None]. *)
Lemma null_text_raises (clk : clock) (tick : nat) (workspace_files : list str) :
  extract_prompts_from_value clk tick (jlit "[{'text': null}]") workspace_files
  = Raise AttributeError.
Proof.
  unfold extract_prompts_from_value.
  replace (Json.loads _) with (Ok (JArr [JObj [(lit "text", JNull)]]))
    by (vm_compute; reflexivity).
  reflexivity.
Qed.

(** C2 (the code departs from the claim).  On the string
    [[{"text": null}]], which decodes, the function raises [AttributeError]
    instead of returning a list: only [JSONDecodeError] is caught. *)
Theorem non_string_text_raises (clk : clock) (tick : nat)
    (workspace_files : list str) :
  let value := jlit "[{'text': null}]" in
  Json.loads value = Ok (JArr [JObj [(lit "text", JNull)]])
  /\ extract_prompts_from_value clk tick value workspace_files = Raise AttributeError.
Proof.
  split; [vm_compute; reflexivity | apply null_text_raises].
Qed.

(** The exception reaches [main], which ends the run without a report. *)
Lemma non_string_text_ends_run (rt : runtime) (clk : clock) (h : host)
    (workspace_files : list str) (db : path) (dbs : list path) (data : list N)
    (row : list (str * str)) (rows : list (list (str * str)))
    (all_prompts : list prompt_record) (tick : nat) :
  lookup h db = Some (File data) ->
  sqlite_prompt_rows rt data = Some (row :: rows) ->
  row_get (lit "value") row = Some (jlit "[{'text': null}]") ->
  extract_dbs rt clk h workspace_files (db :: dbs) all_prompts tick
  = Raise AttributeError.
Proof.
  intros Hl Hr Hv. simpl. rewrite Hl, Hr. simpl. rewrite Hv.
  rewrite null_text_raises. reflexivity.
Qed.

(** A value that [json.loads] refuses with [JSONDecodeError], or that
    decodes to something that is not an array, gives the empty list and no
    exception; the loop over the rows goes on with the next row, and a store
    with only such a row leaves the loop over the stores where it was. *)
Lemma refused_row_contributes_nothing (rt : runtime) (clk : clock)
    (tick : nat) (value : str) (workspace_files : list str) :
  (Json.loads value = Raise JSONDecodeError
   \/ exists v, Json.loads value = Ok v /\ forall items, v <> JArr items) ->
  extract_prompts_from_value clk tick value workspace_files = Ok ([], tick)
  /\ (forall row rows all_prompts,
        row_get (lit "value") row = Some value ->
        extract_rows clk workspace_files (row :: rows) all_prompts tick
        = extract_rows clk workspace_files rows all_prompts tick)
  /\ (forall h db dbs data row all_prompts,
        lookup h db = Some (File data) ->
        sqlite_prompt_rows rt data = Some [row] ->
        row_get (lit "value") row = Some value ->
        extract_dbs rt clk h workspace_files (db :: dbs) all_prompts tick
        = extract_dbs rt clk h workspace_files dbs all_prompts tick).
Proof.
  intros H.
  assert (E : extract_prompts_from_value clk tick value workspace_files = Ok ([], tick)).
  { unfold extract_prompts_from_value.
    destruct H as [-> | (v & -> & Hv)]; [reflexivity|].
    destruct v; try reflexivity. exfalso. apply (Hv items). reflexivity. }
  split; [exact E|]. split.
  - intros row rows all_prompts Hv. simpl. rewrite Hv, E, app_nil_r. reflexivity.
  - intros h db dbs data row all_prompts Hl Hr Hv.
    simpl. rewrite Hl, Hr. simpl. rewrite Hv, E, app_nil_r. reflexivity.
Qed.

(** The literal [not json], and a value that decodes to a dictionary. *)
Lemma refused_row_contributes_nothing_examples :
  extract_prompts_from_value clk_demo 0 (lit "not json") [] = Ok ([], 0%nat)
  /\ extract_prompts_from_value clk_demo 0 (jlit "{'text': 'a'}") [] = Ok ([], 0%nat).
Proof.
  split.
  - apply (refused_row_contributes_nothing rt_demo clk_demo 0 (lit "not json") []).
    left. vm_compute. reflexivity.
  - apply (refused_row_contributes_nothing rt_demo clk_demo 0 (jlit "{'text': 'a'}") []).
    right. eexists. split; [vm_compute; reflexivity | discriminate].
Qed.

(** Any other exception of the decoder leaves the function. *)
Lemma decoder_exception_leaves (clk : clock) (tick : nat) (value : str)
    (workspace_files : list str) (e : exn) :
  Json.loads value = Raise e -> e <> JSONDecodeError ->
  extract_prompts_from_value clk tick value workspace_files = Raise e.
Proof.
  intros L He. unfold extract_prompts_from_value. rewrite L.
  destruct e; congruence.
Qed.

(** The function returns without an exception exactly when the decoder
    returns a value whose elements, if it is an array, have strings for
    their [text], or refuses the value with [JSONDecodeError]. *)
Lemma extract_returns_iff (clk : clock) (tick : nat) (value : str)
    (workspace_files : list str) :
  (exists r, extract_prompts_from_value clk tick value workspace_files = Ok r)
  <-> (Json.loads value = Raise JSONDecodeError
       \/ exists v, Json.loads value = Ok v
                    /\ forall items, v = JArr items -> forallb text_is_str items = true).
Proof.
  unfold extract_prompts_from_value.
  destruct (Json.loads value) as [v|e] eqn:L.
  - split.
    + intros [r Hr]. right. exists v. split; auto.
      intros items ->. rewrite extract_loop_eq, forallb_rev in Hr.
      destruct (forallb text_is_str items); [reflexivity | discriminate].
    + intros [H | (v' & Hv & Hi)]; [discriminate|]. injection Hv as <-.
      destruct v; try (eexists; reflexivity).
      rewrite extract_loop_eq, forallb_rev, (Hi items eq_refl). eexists; reflexivity.
  - split.
    + intros [r Hr]. left. destruct e; try discriminate. reflexivity.
    + intros [H | (v' & Hv & _)]; [|discriminate].
      injection H as ->. eexists; reflexivity.
Qed.

(** C5 (the code departs from the claim).  A value of two thousand opening
    brackets is not JSON, and a number of 4301 digits is JSON that is not an
    array; on neither does the function return the empty list: the decoder
    raises [RecursionError] on the first and [ValueError] on the second,
    only [JSONDecodeError] is caught, and a run that meets such a row ends
    with that exception and without a report, whatever the other rows and
    stores hold. *)
Theorem undecodable_value_raises (clk : clock) (tick : nat)
    (workspace_files : list str) :
  Json.loads deep_value = Raise RecursionError
  /\ extract_prompts_from_value clk tick deep_value workspace_files
     = Raise RecursionError
  /\ Json.loads long_number = Raise ValueError
  /\ extract_prompts_from_value clk tick long_number workspace_files
     = Raise ValueError
  /\ (forall output, main rt_demo clk (host_pair deep_value store_text) output
                     = (Failed RecursionError, host_pair deep_value store_text))
  /\ (forall output, main rt_demo clk (host_pair long_number store_text) output
                     = (Failed ValueError, host_pair long_number store_text)).
Proof.
  assert (D : Json.loads deep_value = Raise RecursionError)
    by (vm_compute; reflexivity).
  assert (L : Json.loads long_number = Raise ValueError)
    by (vm_compute; reflexivity).
  assert (M : forall text e,
             Json.loads text = Raise e -> e <> JSONDecodeError ->
             forall output, main rt_demo clk (host_pair text store_text) output
                            = (Failed e, host_pair text store_text)).
  { intros text e Ht He output. unfold main.
    replace (find_cursor_dbs rt_demo (host_pair text store_text))
      with [ [lit "/"; lit "home"; lit "u"; lit ".config"; lit "Cursor";
              lit "Storage"; lit "a.db"];
             [lit "/"; lit "home"; lit "u"; lit ".config"; lit "Cursor";
              lit "User"; lit "state.vscdb"] ]
      by (vm_compute; reflexivity).
    unfold collect_sorted.
    cbn [extract_dbs].
    replace (lookup (host_pair text store_text)
               [lit "/"; lit "home"; lit "u"; lit ".config"; lit "Cursor";
                lit "Storage"; lit "a.db"])
      with (Some (File text)) by (vm_compute; reflexivity).
    cbn [sqlite_prompt_rows rt_demo extract_rows].
    change (row_get (lit "value")
              [(lit "key", lit "aiService.prompts"); (lit "value", text)])
      with (Some text).
    cbv iota beta.
    rewrite (decoder_exception_leaves _ _ _ _ _ Ht He). reflexivity. }
  split; [exact D|]. split.
  { apply decoder_exception_leaves; [exact D | discriminate]. }
  split; [exact L|]. split.
  { apply decoder_exception_leaves; [exact L | discriminate]. }
  split.
  - apply M with (e := RecursionError); [exact D | discriminate].
  - apply M with (e := ValueError); [exact L | discriminate].
Qed.

(* ================================================================== *)
(** * Command types *)
(* ================================================================== *)

(** The keys of [COMMAND_TYPES] are the integers from 1 to 10. *)
Lemma COMMAND_TYPES_keys (z : Z) :
  (exists label, int_dict_get z COMMAND_TYPES = Some label) <-> (1 <= z <= 10)%Z.
Proof.
  split.
  - intros [label H]. unfold COMMAND_TYPES in H. cbn [int_dict_get] in H.
    repeat match type of H with
           | (if Z.eqb ?a ?b then _ else _) = _ =>
               destruct (Z.eqb_spec a b); [lia|]
           end.
    discriminate.
  - intros H.
    assert (z = 1 \/ z = 2 \/ z = 3 \/ z = 4 \/ z = 5 \/ z = 6 \/ z = 7 \/ z = 8
            \/ z = 9 \/ z = 10)%Z as K by lia.
    repeat (destruct K as [->|K]; [eexists; reflexivity|]).
    subst z. eexists; reflexivity.
Qed.

(** The resolution on every value: an [int] (a [bool] included) that is a
    key of the table becomes its label, everything else stays. *)
Lemma resolve_command_type_spec (v : json) :
  match as_int v with
  | Some z =>
      match int_dict_get z COMMAND_TYPES with
      | Some label => resolve_command_type v = JStr label
      | None => resolve_command_type v = v
      end
  | None => resolve_command_type v = v
  end.
Proof.
  unfold resolve_command_type.
  destruct (as_int v) as [z|]; auto.
  destruct (int_dict_get z COMMAND_TYPES); auto.
Qed.

(** The four cases of the specification: 9, 42, a string, no field. *)
Lemma command_type_examples :
  get_command_type [(lit "text", JStr (lit "x")); (lit "commandType", JInt 9)]
  = JStr (lit "fix")
  /\ get_command_type [(lit "text", JStr (lit "x")); (lit "commandType", JInt 42)]
     = JInt 42
  /\ get_command_type [(lit "text", JStr (lit "x")); (lit "commandType", JStr (lit "custom"))]
     = JStr (lit "custom")
  /\ get_command_type [(lit "text", JStr (lit "x"))] = JStr (lit "unknown").
Proof. repeat split; reflexivity. Qed.

(** A JSON integer is replaced exactly when it is between 1 and 10; null,
    false, a float, a string, a list and a dictionary stay. *)
Lemma resolve_command_type_unchanged (v : json) :
  v <> JBool true ->
  (forall z, v = JInt z -> ~ (1 <= z <= 10)%Z) ->
  resolve_command_type v = v.
Proof.
  intros Ht Hz. pose proof (resolve_command_type_spec v) as S.
  destruct v as [| [|] | z | | | |]; cbn [as_int] in S; auto; try congruence.
  destruct (int_dict_get z COMMAND_TYPES) as [label|] eqn:E; auto.
  exfalso. apply (Hz z eq_refl). apply COMMAND_TYPES_keys. eauto.
Qed.

(** C4 (the code departs from the claim).  The element
    [{"text": "x", "commandType": true}] has a command type that is not an
    integer of the table, yet its record carries the label [chat] and not the
    value [true]: [isinstance(True, int)] holds and [True] is found under the
    key 1. *)
Theorem boolean_command_type_becomes_chat (clk : clock) (tick : nat)
    (workspace_files : list str) :
  let value := jlit "[{'text': 'x', 'commandType': true}]" in
  Json.loads value
  = Ok (JArr [JObj [(lit "text", JStr (lit "x")); (lit "commandType", JBool true)]])
  /\ exists r,
       extract_prompts_from_value clk tick value workspace_files = Ok ([r], S tick)
       /\ command_type r = JStr (lit "chat")
       /\ command_type r <> JBool true.
Proof.
  split; [vm_compute; reflexivity|].
  eexists. split.
  - unfold extract_prompts_from_value.
    replace (Json.loads _) with
      (Ok (JArr [JObj [(lit "text", JStr (lit "x")); (lit "commandType", JBool true)]]))
      by (vm_compute; reflexivity).
    reflexivity.
  - split; [reflexivity | discriminate].
Qed.

(* ================================================================== *)
(** * Order of extraction and timestamps *)
(* ================================================================== *)

(** C8.  On a decoded array, whatever the function returns is the list of
    the records of the accepted elements taken from the last element of the
    array to the first; and it does return when every [text] is a string. *)
Theorem records_in_reverse_array_order (clk : clock) (tick : nat) (value : str)
    (workspace_files : list str) (items : list json) :
  Json.loads value = Ok (JArr items) ->
  (forall records tick',
     extract_prompts_from_value clk tick value workspace_files = Ok (records, tick') ->
     records = records_from clk tick (rev (keep items))
     /\ map raw_data records = rev (keep items))
  /\ (forallb text_is_str items = true ->
      extract_prompts_from_value clk tick value workspace_files
      = Ok (records_from clk tick (rev (keep items)), (tick + length (keep items))%nat)).
Proof.
  intros H. rewrite (extract_array _ _ _ _ _ H). split.
  - intros records tick'. destruct (forallb text_is_str items); [|discriminate].
    intros E. injection E as <- <-. split; auto. apply records_from_raw_data.
  - intros ->. reflexivity.
Qed.

(** Three accepted elements among five come out last first. *)
Lemma records_in_reverse_array_order_witness :
  exists records,
    extract_prompts_from_value clk_demo 0
      (jlit "[{'text': 'first'}, 7, {'text': 'second'}, {'text': ' '}, {'text': 'third'}]") []
    = Ok (records, 3%nat)
    /\ map content records
       = [JStr (lit "third"); JStr (lit "second"); JStr (lit "first")].
Proof.
  eexists. split.
  - apply (records_in_reverse_array_order clk_demo 0 _ []
             [ JObj [(lit "text", JStr (lit "first"))]; JInt 7;
               JObj [(lit "text", JStr (lit "second"))];
               JObj [(lit "text", JStr (lit " "))];
               JObj [(lit "text", JStr (lit "third"))] ]).
    + vm_compute. reflexivity.
    + vm_compute. reflexivity.
  - vm_compute. reflexivity.
Defined.

(** C9.  A record made from an element without [timestamp] carries the
    text of one clock reading made during the call: a string that is never
    empty, and that has the shape of an ISO 8601 date and time when the
    reading is a valid date. *)
Theorem missing_timestamp_gets_clock_reading (clk : clock) (tick : nat)
    (value : str) (workspace_files : list str)
    (records : list prompt_record) (tick' : nat) (r : prompt_record) :
  extract_prompts_from_value clk tick value workspace_files = Ok (records, tick') ->
  In r records ->
  dict_get (lit "timestamp") (raw_data r) = None ->
  exists k,
    (tick <= k < tick')%nat
    /\ timestamp r = JStr (isoformat (clk k))
    /\ isoformat (clk k) <> []
    /\ timestamp r <> JNull
    /\ (valid_datetime (clk k) -> iso_like (isoformat (clk k)) = true).
Proof.
  intros E Hin Hts.
  destruct (extract_ok _ _ _ _ _ _ E) as (ds & -> & -> & _).
  destruct (records_from_In _ _ _ _ Hin) as (k & d & Hk & _ & ->).
  simpl in Hts. exists k. split; [exact Hk|].
  unfold record_of, get_timestamp; simpl. rewrite Hts.
  repeat split.
  - apply isoformat_nonempty.
  - discriminate.
  - apply isoformat_iso_like.
Qed.

Lemma clk_demo_valid (i : nat) : valid_datetime (clk_demo i).
Proof.
  unfold valid_datetime, clk_demo;
    cbn [year month day hour minute second microsecond].
  assert (N.of_nat i mod 28 < 28) by (apply N.mod_lt; lia).
  generalize dependent (N.of_nat i mod 28); intros m Hm.
  repeat split; lia.
Qed.

(** One element without [timestamp], read at the first tick of the clock. *)
Lemma missing_timestamp_gets_clock_reading_witness :
  let r := {| content := JStr (lit "hello");
              command_type := JStr (lit "unknown");
              timestamp := JStr (lit "2024-01-01T12:00:00");
              raw_data := [(lit "text", JStr (lit "hello"))] |} in
  exists k,
    (0 <= k < 1)%nat
    /\ timestamp r = JStr (isoformat (clk_demo k))
    /\ isoformat (clk_demo k) <> []
    /\ timestamp r <> JNull
    /\ (valid_datetime (clk_demo k) -> iso_like (isoformat (clk_demo k)) = true).
Proof.
  intros r.
  apply (missing_timestamp_gets_clock_reading clk_demo 0
           (jlit "[{'text': 'hello'}]") [] [r] 1 r).
  - vm_compute. reflexivity.
  - simpl. left. reflexivity.
  - vm_compute. reflexivity.
Defined.



(* ================================================================== *)
(** * The renderer *)
(* ================================================================== *)

Lemma find_entry_replace_same (d : str) (x : node) (es : list (str * node)) :
  find_entry d es <> None -> find_entry d (replace_entry d x es) = Some x.
Proof.
  induction es as [|[n y] es IH]; simpl; [congruence|].
  destruct (str_eqb d n) eqn:E; simpl; rewrite E; auto.
Qed.

Lemma find_entry_replace_other (k d : str) (x : node) (es : list (str * node)) :
  str_eqb k d = false -> find_entry k (replace_entry d x es) = find_entry k es.
Proof.
  intros Hk. induction es as [|[n y] es IH]; simpl; auto.
  destruct (str_eqb d n) eqn:E; simpl.
  - apply str_eqb_eq in E. subst n. rewrite Hk. reflexivity.
  - rewrite IH. reflexivity.
Qed.

Lemma find_entry_app_new (k name : str) (x : node) (es : list (str * node)) :
  find_entry k (es ++ [(name, x)])
  = match find_entry k es with
    | Some y => Some y
    | None => if str_eqb k name then Some x else None
    end.
Proof.
  induction es as [|[n y] es IH]; simpl; auto.
  destruct (str_eqb k n); auto.
Qed.

(** After [put_file] the file is where it was put. *)
Lemma put_file_get (dirs : list str) (name : str) (data : list N) :
  forall n n',
    put_file dirs name data n = Some n' ->
    get_node (dirs ++ [name]) n' = Some (File data).
Proof.
  induction dirs as [|d ds IH]; intros n n' H; destruct n as [|es]; try discriminate.
  - simpl in H. destruct (find_entry name es) as [[|]|] eqn:E; try discriminate;
      injection H as <-; simpl.
    + rewrite find_entry_replace_same by congruence. reflexivity.
    + rewrite find_entry_app_new, E, str_eqb_refl. reflexivity.
  - simpl in H. destruct (find_entry d es) as [child|] eqn:E; [|discriminate].
    destruct (put_file ds name data child) as [child'|] eqn:P; [|discriminate].
    injection H as <-. simpl.
    rewrite find_entry_replace_same by congruence. eapply IH; eassumption.
Qed.

(** [put_file] keeps every directory, with at least the names it had. *)
Lemma put_file_keeps_dirs (dirs : list str) (name : str) (data : list N) :
  forall n n',
    put_file dirs name data n = Some n' ->
    forall names es,
      get_node names n = Some (Dir es) ->
      exists es',
        get_node names n' = Some (Dir es')
        /\ forall p, find_entry p es <> None -> find_entry p es' <> None.
Proof.
  induction dirs as [|d ds IH]; intros n n' H names es G;
    destruct n as [|es0]; try discriminate.
  - simpl in H.
    assert (K : forall p, find_entry p es0 <> None ->
                          forall es1,
                            (es1 = replace_entry name (File data) es0
                             /\ find_entry name es0 <> None)
                            \/ es1 = es0 ++ [(name, File data)] ->
                            find_entry p es1 <> None).
    { intros p Hp es1 [[-> Hn] | ->].
      - destruct (str_eqb p name) eqn:Ep.
        + apply str_eqb_eq in Ep. subst p.
          rewrite find_entry_replace_same; congruence.
        + rewrite find_entry_replace_other; assumption.
      - rewrite find_entry_app_new. destruct (find_entry p es0); congruence. }
    destruct names as [|k ks].
    + simpl in G. injection G as <-.
      destruct (find_entry name es0) as [[|]|] eqn:E; try discriminate;
        injection H as <-; eexists; (split; [reflexivity|]); intros p Hp;
        apply (K p Hp); [left; split; [reflexivity | congruence] | right; reflexivity].
    + simpl in G. destruct (find_entry k es0) as [child|] eqn:Ek; [|discriminate].
      assert (Hk : forall es1,
                 (es1 = replace_entry name (File data) es0
                  /\ exists fd, find_entry name es0 = Some (File fd))
                 \/ (es1 = es0 ++ [(name, File data)]) ->
                 find_entry k es1 = Some child).
      { intros es1 [[-> [fd Hfd]] | ->].
        - destruct (str_eqb k name) eqn:Ekn.
          + apply str_eqb_eq in Ekn. subst k. rewrite Hfd in Ek. injection Ek as <-.
            destruct ks; simpl in G; discriminate.
          + rewrite find_entry_replace_other; assumption.
        - rewrite find_entry_app_new, Ek. reflexivity. }
      destruct (find_entry name es0) as [[fd|]|] eqn:E; try discriminate;
        injection H as <-; exists es; simpl;
        [ rewrite (Hk _ (or_introl (conj eq_refl (ex_intro _ fd eq_refl))))
        | rewrite (Hk _ (or_intror eq_refl)) ];
        split; auto.
  - simpl in H. destruct (find_entry d es0) as [child|] eqn:E; [|discriminate].
    destruct (put_file ds name data child) as [child'|] eqn:P; [|discriminate].
    injection H as <-.
    destruct names as [|k ks].
    + simpl in G. injection G as <-. eexists. split; [reflexivity|].
      intros p Hp. destruct (str_eqb p d) eqn:Ep.
      * apply str_eqb_eq in Ep. subst p.
        rewrite find_entry_replace_same; congruence.
      * rewrite find_entry_replace_other; assumption.
    + simpl in G. simpl. destruct (str_eqb k d) eqn:Ekd.
      * apply str_eqb_eq in Ekd. subst k. rewrite E in G.
        rewrite find_entry_replace_same by congruence.
        eapply IH; eassumption.
      * rewrite find_entry_replace_other by assumption.
        destruct (find_entry k es0) as [c|]; [|discriminate].
        exists es. split; auto.
Qed.

(** A path that resolved before [put_file] resolves to the same place
    after it. *)
Lemma canon_put_file (dirs : list str) (name : str) (data : list N)
    (r r' : node) (ps : list str) :
  put_file dirs name data r = Some r' ->
  forall at_ res, canon r at_ ps = Some res -> canon r' at_ ps = Some res.
Proof.
  intros P. induction ps as [|p ps IH]; intros at_ res H; [exact H|].
  simpl in H. simpl.
  destruct (get_node at_ r) as [[|es]|] eqn:G; try discriminate.
  destruct (put_file_keeps_dirs _ _ _ _ _ P _ _ G) as (es' & -> & Hes).
  destruct (str_eqb p (lit "..")); [apply IH; assumption|].
  destruct (find_entry p es) eqn:E; [|discriminate].
  destruct (find_entry p es') eqn:E'.
  - apply IH; assumption.
  - exfalso. apply (Hes p); congruence.
Qed.

Lemma canon_app (r : node) (ps qs : list str) :
  forall at_,
    canon r at_ (ps ++ qs)
    = match canon r at_ ps with
      | Some mid => canon r mid qs
      | None => None
      end.
Proof.
  induction ps as [|p ps IH]; intros at_; simpl; auto.
  destruct (get_node at_ r) as [[|es]|]; auto.
  destruct (str_eqb p (lit "..")); auto.
  destruct (find_entry p es); auto.
Qed.

Lemma get_node_app (xs ys : list str) :
  forall n,
    get_node (xs ++ ys) n
    = match get_node xs n with
      | Some m => get_node ys m
      | None => None
      end.
Proof.
  induction xs as [|x xs IH]; intros n; simpl; auto.
  destruct n as [|es]; auto. destruct (find_entry x es); auto.
Qed.

(** Reading back what [write_file] wrote. *)
Lemma write_file_lookup (h h' : host) (p : path) (data : list N) :
  write_file h p data = Some h' -> lookup h' p = Some (File data).
Proof.
  unfold write_file. destruct (rev p) as [|name rdirs] eqn:Ep; [discriminate|].
  destruct (str_eqb name (lit "..") || is_root name) eqn:En; [discriminate|].
  apply orb_false_iff in En. destruct En as [Hdd Hroot].
  destruct (resolve h (rev rdirs)) as [dirs|] eqn:R; [|discriminate].
  destruct (put_file dirs name data (root h)) as [r'|] eqn:P; [|discriminate].
  intros H. injection H as <-.
  assert (Hp : p = rev rdirs ++ [name]).
  { rewrite <- (rev_involutive p), Ep. reflexivity. }
  pose proof (put_file_get _ _ _ _ _ P) as G.
  assert (C : forall ps at_, canon (root h) at_ ps = Some dirs ->
                             canon r' at_ (ps ++ [name]) = Some (dirs ++ [name])).
  { intros ps at_ Hc. rewrite canon_app, (canon_put_file _ _ _ _ _ _ P _ _ Hc).
    simpl. rewrite get_node_app in G.
    destruct (get_node dirs r') as [[|es']|]; try discriminate.
    rewrite Hdd. simpl in G.
    destruct (find_entry name es'); [reflexivity | discriminate]. }
  unfold lookup, resolve. cbn [root cwd]. rewrite Hp.
  unfold resolve in R.
  destruct (rev rdirs) as [|r0 ps0] eqn:Er.
  - cbn [app]. rewrite Hroot.
    pose proof (C [] _ R) as C'. cbn [app] in C'. rewrite C'. exact G.
  - cbn [app]. destruct (is_root r0).
    + rewrite (C _ _ R). exact G.
    + pose proof (C (r0 :: ps0) _ R) as C'. cbn [app] in C'. rewrite C'. exact G.
Qed.

Lemma utf8_encode_app (a b : str) :
  utf8_encode (a ++ b)
  = match utf8_encode a, utf8_encode b with
    | Some x, Some y => Some (x ++ y)
    | _, _ => None
    end.
Proof.
  induction a as [|c a IH]; simpl.
  - destruct (utf8_encode b); reflexivity.
  - rewrite IH. destruct (utf8_char c), (utf8_encode a), (utf8_encode b);
      try reflexivity. rewrite app_assoc. reflexivity.
Qed.

(** All chunks are written exactly when their concatenation can be
    encoded, and then the bytes written are its encoding. *)
Lemma write_chunks_complete (chunks : list str) :
  forall written data,
    write_chunks chunks written = (data, true) <->
    exists b, utf8_encode (concat chunks) = Some b /\ data = written ++ b.
Proof.
  induction chunks as [|c cs IH]; intros written data; simpl.
  - split.
    + intros H. injection H as <-. exists []. rewrite app_nil_r. auto.
    + intros [b [H ->]]. injection H as <-. rewrite app_nil_r. reflexivity.
  - rewrite utf8_encode_app. destruct (utf8_encode c) as [x|].
    + rewrite IH. split.
      * intros [b [H ->]]. rewrite H. exists (x ++ b). rewrite app_assoc. auto.
      * intros [b [H ->]]. destruct (utf8_encode (concat cs)) as [y|]; [|discriminate].
        injection H as <-. exists y. rewrite app_assoc. auto.
    + split; [discriminate | intros [b [H _]]; discriminate].
Qed.

Lemma write_chunks_incomplete (chunks : list str) :
  forall written data,
    write_chunks chunks written = (data, false) ->
    utf8_encode (concat chunks) = None.
Proof.
  induction chunks as [|c cs IH]; intros written data; simpl; [discriminate|].
  rewrite utf8_encode_app. destruct (utf8_encode c) as [x|]; [|reflexivity].
  intros H. rewrite (IH _ _ H). reflexivity.
Qed.

Lemma utf8_char_none (c : N) : utf8_char c = None <-> unencodable c = true.
Proof.
  unfold utf8_char, unencodable.
  destruct (N.ltb_spec c 128); [split; [discriminate|]|].
  { rewrite orb_true_iff, andb_true_iff, !N.leb_le. lia. }
  destruct (N.ltb_spec c 2048); [split; [discriminate|]|].
  { rewrite orb_true_iff, andb_true_iff, !N.leb_le. lia. }
  destruct ((55296 <=? c) && (c <=? 57343)) eqn:E; [simpl; tauto|].
  simpl. apply andb_false_iff in E. rewrite !N.leb_gt in E.
  destruct (N.ltb_spec c 65536); [split; [discriminate|]|].
  { rewrite N.leb_le. lia. }
  destruct (N.ltb_spec c 1114112); [split; [discriminate|]|].
  { rewrite N.leb_le. lia. }
  split; auto. intros _. apply N.leb_le. lia.
Qed.

(** A text cannot be encoded exactly when it has a surrogate (or a number
    that is no code point). *)
Lemma utf8_encode_none (s : str) :
  utf8_encode s = None <-> existsb unencodable s = true.
Proof.
  induction s as [|c s IH]; simpl; [split; discriminate|].
  rewrite orb_true_iff, <- IH, <- utf8_char_none.
  destruct (utf8_char c), (utf8_encode s); split; try tauto; try discriminate;
    intros [H|H]; discriminate.
Qed.

Lemma fsencode_none (s : str) :
  fsencode s = None <-> existsb (fun c => match fsencode_char c with
                                          | None => true
                                          | Some _ => false
                                          end) s = true.
Proof.
  induction s as [|c s IH]; simpl; [split; discriminate|].
  rewrite orb_true_iff, <- IH.
  destruct (fsencode_char c), (fsencode s); split; try tauto; try discriminate;
    intros [H|H]; discriminate.
Qed.

Lemma stored_cases (room : option nat) (data bytes : list N) (fits : bool) :
  stored room data = (bytes, fits) ->
  (fits = true /\ bytes = data
   /\ forall n, room = Some n -> (length data <= n)%nat)
  \/ (fits = false
      /\ exists n, room = Some n /\ (n < length data)%nat /\ bytes = firstn n data).
Proof.
  unfold stored. destruct room as [n|].
  - destruct (Nat.ltb_spec n (length data)) as [Hlt|Hge];
      intros H; injection H as <- <-.
    + right. split; auto. exists n. auto.
    + left. repeat split; auto. intros m Hm. injection Hm as <-. assumption.
  - intros H; injection H as <- <-. left. repeat split; auto. discriminate.
Qed.

(** The ways in which the renderer ends.  Either nothing has happened:
    it returned [False] for an empty list or for a path that cannot be
    opened, or [open] raised for the name.  Or the file was opened, the clock
    was read once and the file holds [bytes]: all of the encoded log with the
    result [True]; the bytes of the chunks before one that cannot be encoded,
    with [UnicodeEncodeError]; or the bytes for which the device had room,
    with the result [False]. *)
Lemma write_prompts_to_log_cases (rt : runtime) (clk : clock) (tick : nat)
    (h h' : host) (prompts : list prompt_record) (workspace_path : path)
    (output_file : str) (res : result bool) (tick' : nat) :
  write_prompts_to_log rt clk tick h prompts workspace_path output_file
  = (res, h', tick') ->
  (h' = h /\ tick' = tick
   /\ (res = Ok false
       \/ (prompts <> [] /\ exists e, res = Raise e /\ open_raises output_file = Some e)))
  \/ (prompts <> [] /\ tick' = S tick /\ open_raises output_file = None
      /\ exists bytes,
           write_file h (Path output_file) bytes = Some h'
           /\ lookup h' (Path output_file) = Some (File bytes)
           /\ ((res = Ok true
                /\ utf8_encode (concat (log_chunks rt (clk tick) workspace_path prompts))
                   = Some bytes)
               \/ (res = Raise UnicodeEncodeError
                   /\ existsb unencodable
                        (concat (log_chunks rt (clk tick) workspace_path prompts))
                      = true
                   /\ bytes
                      = fst (write_chunks
                               (log_chunks rt (clk tick) workspace_path prompts) []))
               \/ (res = Ok false
                   /\ exists n,
                        disk_room rt = Some n
                        /\ (n < length (fst (write_chunks
                                               (log_chunks rt (clk tick) workspace_path
                                                  prompts) [])))%nat
                        /\ bytes
                           = firstn n
                               (fst (write_chunks
                                       (log_chunks rt (clk tick) workspace_path prompts)
                                       []))))).
Proof.
  unfold write_prompts_to_log. destruct prompts as [|r rs].
  { intros H. injection H as <- <- <-. left. auto. }
  destruct (open_raises output_file) as [e|] eqn:O.
  { intros H. injection H as <- <- <-. left. repeat split; auto.
    right. split; [discriminate|]. exists e. auto. }
  destruct (openable output_file).
  2: { intros H. injection H as <- <- <-. left. auto. }
  destruct (write_chunks _ _) as [data complete] eqn:W.
  destruct (stored (disk_room rt) data) as [bytes fits] eqn:St.
  destruct (write_file h (Path output_file) bytes) as [h1|] eqn:F.
  2: { intros H. injection H as <- <- <-. left. auto. }
  intros H. right. split; [discriminate|].
  assert (L : lookup h1 (Path output_file) = Some (File bytes))
    by (eapply write_file_lookup; eassumption).
  injection H as <- <- <-. split; [reflexivity|]. split; [reflexivity|].
  exists bytes. split; [exact F|]. split; [exact L|].
  apply stored_cases in St.
  destruct St as [(-> & -> & _) | (-> & n & Hn & Hlt & ->)].
  - destruct complete.
    + left. split; auto.
      apply write_chunks_complete in W. destruct W as [b [E ->]]. exact E.
    + right; left. split; auto. split; [|reflexivity].
      apply utf8_encode_none. eapply write_chunks_incomplete; eassumption.
  - right; right. split; auto. exists n. cbn [fst]. repeat split; auto.
Qed.

(* ================================================================== *)
(** * Ordering of the report *)
(* ================================================================== *)

(** What [main] writes is what [collect_sorted] returns. *)
Lemma main_wrote (rt : runtime) (clk : clock) (h h' : host) (output : str)
    (report : list prompt_record) :
  main rt clk h output = (Wrote report, h') ->
  exists tick,
    collect_sorted rt clk h (find_cursor_dbs rt h) = Ok (report, tick)
    /\ write_prompts_to_log rt clk tick h report (lit "/" :: cwd h) output
       = (Ok true, h', S tick).
Proof.
  unfold main.
  destruct (find_cursor_dbs rt h) as [|db dbs] eqn:F; [discriminate|].
  destruct (collect_sorted rt clk h (db :: dbs)) as [[sorted tick]|e]; [|discriminate].
  destruct (write_prompts_to_log rt clk tick h sorted (lit "/" :: cwd h) output)
    as [[res h1] t1] eqn:W.
  destruct res as [[|]|e]; try discriminate.
  intros H. injection H as <- <-. exists tick. split; auto.
  rewrite W. f_equal.
  apply write_prompts_to_log_cases in W.
  destruct W as [(_ & _ & [E | (_ & e & E & _)]) | (_ & -> & _)];
    [discriminate | discriminate | reflexivity].
Qed.

(** When stores were found, [main] hands the list of [collect_sorted] to the
    renderer and ends as the renderer does. *)
Lemma main_renders (rt : runtime) (clk : clock) (h : host) (output : str)
    (sorted : list prompt_record) (tick : nat) :
  find_cursor_dbs rt h <> [] ->
  collect_sorted rt clk h (find_cursor_dbs rt h) = Ok (sorted, tick) ->
  main rt clk h output
  = match write_prompts_to_log rt clk tick h sorted (lit "/" :: cwd h) output with
    | (Ok true, h', _) => (Wrote sorted, h')
    | (Ok false, h', _) => (NothingWritten, h')
    | (Raise e, h', _) => (Failed e, h')
    end.
Proof.
  intros Hne C. unfold main.
  destruct (find_cursor_dbs rt h) as [|db dbs]; [congruence|].
  rewrite C. reflexivity.
Qed.

(** C7 (amended).  When stores are found and the timestamps of the
    aggregated records are all strings, [main] sorts the whole list in
    descending order of the timestamps as strings, compared by code points
    without parsing, and hands the sorted list to the renderer: the list is a
    rearrangement of all the records, every record's timestamp is greater
    than or equal to that of the next record and of every later one, records
    with the same timestamp stay in their order of extraction; the run ends
    as the renderer ends on that list, and a report that is written is the
    log of that list, record after record. *)
Theorem report_sorted_by_timestamp_desc (rt : runtime) (clk : clock) (h : host)
    (all_prompts : list prompt_record) (tick : nat) :
  find_cursor_dbs rt h <> [] ->
  extract_dbs rt clk h (get_project_files h (lit "/" :: cwd h))
    (find_cursor_dbs rt h) [] 0
  = Ok (all_prompts, tick) ->
  forallb ts_str all_prompts = true ->
  exists sorted,
    sort_desc all_prompts = Ok sorted
    /\ Permutation all_prompts sorted
    /\ Sorted ts_ge sorted
    /\ StronglySorted ts_ge sorted
    /\ (forall k,
          filter (fun r => py_eq_item (timestamp r) (JStr k)) sorted
          = filter (fun r => py_eq_item (timestamp r) (JStr k)) all_prompts)
    /\ (forall output,
          main rt clk h output
          = match write_prompts_to_log rt clk tick h sorted (lit "/" :: cwd h) output with
            | (Ok true, h', _) => (Wrote sorted, h')
            | (Ok false, h', _) => (NothingWritten, h')
            | (Raise e, h', _) => (Failed e, h')
            end)
    /\ (forall output report h',
          main rt clk h output = (Wrote report, h') ->
          report = sorted
          /\ exists data,
               lookup h' (Path output) = Some (File data)
               /\ utf8_encode
                    (concat (log_chunks rt (clk tick) (lit "/" :: cwd h) [])
                     ++ concat (flat_map (prompt_chunks rt) sorted))
                  = Some data).
Proof.
  intros Hne E Hs.
  destruct (sort_desc_sorted all_prompts Hs) as (sorted & Es & P & S).
  exists sorted.
  assert (C : collect_sorted rt clk h (find_cursor_dbs rt h) = Ok (sorted, tick)).
  { unfold collect_sorted. rewrite E, Es. reflexivity. }
  split; [exact Es|]. split; [exact P|].
  split; [apply StronglySorted_Sorted; assumption|]. split; [exact S|].
  split; [intros k; apply sort_desc_stable; assumption|]. split.
  - intros output. apply main_renders; assumption.
  - intros output report h' M.
    destruct (main_wrote _ _ _ _ _ _ M) as (t & C' & W).
    rewrite C in C'. injection C' as <- <-. split; [reflexivity|].
    apply write_prompts_to_log_cases in W.
    destruct W as [(_ & _ & [E' | (_ & e & E' & _)])
                  | (_ & _ & _ & data & _ & L & [(_ & U) | [(E' & _) | (E' & _)]])];
      try discriminate.
    exists data. split; [exact L|].
    rewrite <- concat_app. unfold log_chunks in *. rewrite app_nil_r. exact U.
Qed.

(** The store of the example machine: records of January 3, 1 and 2 are
    written as January 3, 2 and 1. *)
Lemma report_sorted_by_timestamp_desc_witness :
  exists sorted h' data,
    main rt_demo clk_demo (host_demo None) (lit "out.log") = (Wrote sorted, h')
    /\ map timestamp sorted
       = [ JStr (lit "2024-01-03T09:00:00");
           JStr (lit "2024-01-02T09:00:00");
           JStr (lit "2024-01-01T09:00:00") ]
    /\ Sorted ts_ge sorted
    /\ lookup h' (Path (lit "out.log")) = Some (File data)
    /\ utf8_encode
         (concat (log_chunks rt_demo (clk_demo 3%nat)
                    (lit "/" :: cwd (host_demo None)) [])
          ++ concat (flat_map (prompt_chunks rt_demo) sorted))
       = Some data.
Proof.
  destruct (report_sorted_by_timestamp_desc rt_demo clk_demo (host_demo None)
              (records_from clk_demo 0
                 [ [(lit "text", JStr (lit "c"));
                    (lit "timestamp", JStr (lit "2024-01-03T09:00:00"))];
                   [(lit "text", JStr (lit "a"));
                    (lit "timestamp", JStr (lit "2024-01-01T09:00:00"))];
                   [(lit "text", JStr (lit "b"));
                    (lit "timestamp", JStr (lit "2024-01-02T09:00:00"))] ])
              3)
    as (sorted & Es & _ & S & _ & _ & M & R).
  - vm_compute. discriminate.
  - vm_compute. reflexivity.
  - vm_compute. reflexivity.
  - assert (E : sorted
                = records_from clk_demo 0
                    [ [(lit "text", JStr (lit "c"));
                       (lit "timestamp", JStr (lit "2024-01-03T09:00:00"))];
                      [(lit "text", JStr (lit "b"));
                       (lit "timestamp", JStr (lit "2024-01-02T09:00:00"))];
                      [(lit "text", JStr (lit "a"));
                       (lit "timestamp", JStr (lit "2024-01-01T09:00:00"))] ]).
    { vm_compute in Es. injection Es as <-. reflexivity. }
    destruct (main rt_demo clk_demo (host_demo None) (lit "out.log")) as [o h'] eqn:Mo.
    assert (Eo : o = Wrote sorted).
    { specialize (M (lit "out.log")). rewrite Mo in M.
      assert (F : fst (o, h') = Wrote sorted).
      { rewrite M, E. vm_compute. reflexivity. }
      exact F. }
    subst o.
    destruct (R (lit "out.log") sorted h' Mo) as (_ & data & L & U).
    exists sorted, h', data. split; [reflexivity|].
    split; [rewrite E; vm_compute; reflexivity|].
    split; [exact S|]. split; [exact L | exact U].
Defined.

(** The timestamps of a store are copied as they are.  Two integers are put
    in the order of their values, 10 before 9, which is not the order of
    their texts; a number and a string do not compare, and the run ends in
    [TypeError] before anything is rendered. *)
Lemma timestamps_that_are_not_strings :
  (exists report h',
     main rt_demo clk_demo
       (host_store (jlit "[{'text': 'a', 'timestamp': 10}, {'text': 'b', 'timestamp': 9}]"))
       (lit "out.log")
     = (Wrote report, h')
     /\ map timestamp report = [JInt 10; JInt 9]
     /\ str_ltb (decimal 10) (decimal 9) = true
     /\ ~ Sorted ts_ge report)
  /\ main rt_demo clk_demo
       (host_store (jlit "[{'text': 'a', 'timestamp': 1}, {'text': 'b'}]"))
       (lit "out.log")
     = (Failed TypeError,
        host_store (jlit "[{'text': 'a', 'timestamp': 1}, {'text': 'b'}]")).
Proof.
  split; [|vm_compute; reflexivity].
  destruct (main rt_demo clk_demo
              (host_store
                 (jlit "[{'text': 'a', 'timestamp': 10}, {'text': 'b', 'timestamp': 9}]"))
              (lit "out.log")) as [o h'] eqn:M.
  assert (Eo : o = Wrote [ record_of (clk_demo 1%nat)
                             [(lit "text", JStr (lit "a")); (lit "timestamp", JInt 10)];
                           record_of (clk_demo 0%nat)
                             [(lit "text", JStr (lit "b")); (lit "timestamp", JInt 9)] ]).
  { change o with (fst (o, h')). rewrite <- M. vm_compute. reflexivity. }
  subst o. eexists. exists h'. split; [reflexivity|].
  split; [vm_compute; reflexivity|]. split; [vm_compute; reflexivity|].
  intros S. inversion S as [|? ? _ Hd]; subst. inversion Hd as [|? ? Hge]; subst.
  exact Hge.
Qed.

(* ================================================================== *)
(** * The empty report *)
(* ================================================================== *)

(** C6.  With no record the renderer returns [False], reads no clock and
    leaves the machine, the output path included, as it was. *)
Theorem empty_report_writes_nothing (rt : runtime) (clk : clock) (tick : nat)
    (h : host) (workspace_path : path) (output_file : str) :
  write_prompts_to_log rt clk tick h [] workspace_path output_file = (Ok false, h, tick)
  /\ lookup (snd (fst (write_prompts_to_log rt clk tick h [] workspace_path output_file)))
       (Path output_file)
     = lookup h (Path output_file).
Proof. split; reflexivity. Qed.

(* ================================================================== *)
(** * Discovery without duplicates *)
(* ================================================================== *)

Lemma node_induction (P : node -> Prop) :
  (forall data, P (File data)) ->
  (forall es, Forall (fun e => P (snd e)) es -> P (Dir es)) ->
  forall n, P n.
Proof.
  intros HF HD. fix IH 1. intros [data|es].
  - apply HF.
  - apply HD. induction es as [|[name child] es IHes]; constructor.
    + apply IH.
    + apply IHes.
Qed.

Lemma is_prefix_app (p q : path) : is_prefix p q = true <-> exists r, q = p ++ r.
Proof.
  revert q; induction p as [|x p IH]; intros q; simpl.
  - split; eauto.
  - destruct q as [|y q].
    + split; [discriminate | intros [r H]; discriminate H].
    + rewrite andb_true_iff, str_eqb_eq, IH. split.
      * intros [-> [r ->]]. eauto.
      * intros [r H]. injection H as -> ->. eauto.
Qed.

Lemma is_prefix_refl (p : path) : is_prefix p p = true.
Proof. apply is_prefix_app. exists []. rewrite app_nil_r. reflexivity. Qed.

Lemma is_prefix_head (a p q : path) : is_prefix (a ++ p) (a ++ q) = is_prefix p q.
Proof.
  induction a as [|x a IH]; simpl; auto. rewrite str_eqb_refl. exact IH.
Qed.

(** Two prefixes of one path: one is a prefix of the other. *)
Lemma is_prefix_comparable (p q r : path) :
  is_prefix p r = true -> is_prefix q r = true ->
  is_prefix p q = true \/ is_prefix q p = true.
Proof.
  revert q r; induction p as [|x p IH]; intros q r; simpl; auto.
  destruct r as [|z r]; [discriminate|].
  destruct q as [|y q]; simpl; auto.
  rewrite !andb_true_iff, !str_eqb_eq. intros [-> Hp] [-> Hq].
  destruct (IH q r Hp Hq); [left | right]; auto.
Qed.

Lemma unrelated_neq (p q : path) : unrelated p q = true -> p <> q.
Proof.
  unfold unrelated. intros H ->. rewrite is_prefix_refl in H. discriminate.
Qed.

Lemma unrelated_disjoint (b1 b2 p : path) :
  unrelated b1 b2 = true -> is_prefix b1 p = true -> is_prefix b2 p = true -> False.
Proof.
  unfold unrelated. intros H H1 H2.
  destruct (is_prefix_comparable _ _ _ H1 H2) as [E|E]; rewrite E in H;
    simpl in H; try discriminate.
  rewrite andb_false_r in H. discriminate.
Qed.

Lemma unrelated_head (a p q : path) : unrelated (a ++ p) (a ++ q) = unrelated p q.
Proof. unfold unrelated. rewrite !is_prefix_head. reflexivity. Qed.

Lemma pairwise_unrelated_spec (l : list path) :
  pairwise_unrelated l = true <-> ForallOrdPairs (fun p q => unrelated p q = true) l.
Proof.
  induction l as [|p l IH]; simpl.
  - split; [constructor | reflexivity].
  - rewrite andb_true_iff, forallb_forall, IH. split.
    + intros [H1 H2]. constructor; auto. apply Forall_forall; assumption.
    + intros H. inversion H; subst. split; auto. apply Forall_forall; assumption.
Qed.

Lemma pairwise_unrelated_map_head (a : path) (l : list path) :
  pairwise_unrelated (map (app a) l) = pairwise_unrelated l.
Proof.
  induction l as [|p l IH]; simpl; auto.
  rewrite IH. f_equal.
  clear IH. induction l as [|q l IHl]; simpl; auto.
  rewrite unrelated_head, IHl. reflexivity.
Qed.

Lemma FOP_filter {A} (R : A -> A -> Prop) (f : A -> bool) (l : list A) :
  ForallOrdPairs R l -> ForallOrdPairs R (filter f l).
Proof.
  induction 1 as [|x l Hx Hl IH]; simpl; [constructor|].
  destruct (f x); auto. constructor; auto.
  apply Forall_forall. intros y Hy. apply filter_In in Hy.
  apply (proj1 (Forall_forall _ _) Hx). tauto.
Qed.

Lemma FOP_app {A} (R : A -> A -> Prop) (l1 l2 : list A) :
  ForallOrdPairs R l1 -> ForallOrdPairs R l2 ->
  (forall x y, In x l1 -> In y l2 -> R x y) ->
  ForallOrdPairs R (l1 ++ l2).
Proof.
  induction 1 as [|x l Hx Hl IH]; simpl; intros H2 H12; auto.
  constructor.
  - apply Forall_app. split; auto.
    apply Forall_forall. intros y Hy. apply H12; simpl; auto.
  - apply IH; auto.
Qed.

Lemma NoDup_map_FOP {A B} (g : A -> B) (l : list A) :
  NoDup (map g l) -> ForallOrdPairs (fun x y => g x <> g y) l.
Proof.
  induction l as [|x l IH]; simpl; intros H; [constructor|].
  apply NoDup_cons_iff in H. destruct H as [Hx Hl].
  constructor; auto.
  apply Forall_forall. intros y Hy E. apply Hx. rewrite E. apply in_map. assumption.
Qed.

(** Lists without repetition that share no element concatenate to a list
    without repetition. *)
Lemma NoDup_flat_map_disjoint {A B} (f : A -> list B) (l : list A) :
  (forall x, In x l -> NoDup (f x)) ->
  ForallOrdPairs (fun x y => forall b, In b (f x) -> In b (f y) -> False) l ->
  NoDup (flat_map f l).
Proof.
  intros Hf H. induction H as [|x l Hx Hl IH]; simpl; [constructor|].
  apply NoDup_app.
  - apply Hf. simpl; auto.
  - apply IH. intros y Hy. apply Hf. simpl; auto.
  - intros b Hb Hb'. apply in_flat_map in Hb'. destruct Hb' as [y [Hy Hby]].
    apply ((proj1 (Forall_forall _ _) Hx) y Hy b); assumption.
Qed.

Lemma FOP_impl {A} (R S : A -> A -> Prop) (l : list A) :
  (forall x y, In x l -> In y l -> R x y -> S x y) ->
  ForallOrdPairs R l -> ForallOrdPairs S l.
Proof.
  intros H F. induction F as [|x l Hx Hl IH]; constructor.
  - apply Forall_forall. intros y Hy. apply H; simpl; auto.
    apply (proj1 (Forall_forall _ _) Hx). assumption.
  - apply IH. intros a b Ha Hb. apply H; simpl; auto.
Qed.

Lemma FOP_unrelated_NoDup (l : list path) :
  ForallOrdPairs (fun p q => unrelated p q = true) l -> NoDup l.
Proof.
  induction 1 as [|x l Hx Hl IH]; constructor; auto.
  intros Hin. apply (unrelated_neq x x); [|reflexivity].
  apply (proj1 (Forall_forall _ _) Hx). assumption.
Qed.

(** ** The candidate locations *)

Lemma base_paths_rel (h : host) :
  base_paths h = map (app (home h)) (base_rel (system h)).
Proof.
  unfold base_paths, base_rel, joinpath.
  destruct (str_eqb (system h) (lit "Darwin")); [reflexivity|].
  destruct (str_eqb (system h) (lit "Windows")); [reflexivity|].
  destruct (str_eqb (system h) (lit "Linux")); [reflexivity|].
  simpl. rewrite app_nil_r. reflexivity.
Qed.

Lemma candidates_filter (ex : path -> bool) (a : path) (cs : list str)
    (rels : list path) :
  flat_map
    (fun base =>
       flat_map
         (fun common =>
            let p := joinpath base common in
            if ex p then [p] else [])
         cs)
    (map (app a) rels)
  = filter ex (map (app a) (flat_map (fun b => map (fun c => b ++ Path c) cs) rels)).
Proof.
  cbv zeta. induction rels as [|b rels IH]; [reflexivity|].
  cbn [map flat_map]. rewrite map_app, filter_app, IH. f_equal.
  clear IH. induction cs as [|c cs IHc]; [reflexivity|].
  cbn [map flat_map filter]. rewrite IHc. unfold joinpath.
  rewrite <- app_assoc.
  destruct (ex (a ++ b ++ Path c)); reflexivity.
Qed.

(** The default locations are the existing ones among the paths
    [home / base / common]. *)
Lemma default_paths_eq (h : host) :
  default_paths h
  = filter (exists_ h) (map (app (home h)) (default_rel (system h))).
Proof.
  unfold default_paths, default_rel. rewrite base_paths_rel.
  apply candidates_filter.
Qed.

Lemma default_rel_pairwise (sys : str) : pairwise_unrelated (default_rel sys) = true.
Proof.
  unfold default_rel, base_rel.
  destruct (str_eqb sys (lit "Darwin")); [vm_compute; reflexivity|].
  destruct (str_eqb sys (lit "Windows")); [vm_compute; reflexivity|].
  destruct (str_eqb sys (lit "Linux")); vm_compute; reflexivity.
Qed.

(** No default location is another one or inside another one. *)
Lemma default_paths_pairwise (h : host) :
  ForallOrdPairs (fun p q => unrelated p q = true) (default_paths h).
Proof.
  rewrite default_paths_eq. apply FOP_filter.
  apply pairwise_unrelated_spec.
  rewrite pairwise_unrelated_map_head. apply default_rel_pairwise.
Qed.

Lemma default_paths_NoDup (h : host) : NoDup (default_paths h).
Proof. apply FOP_unrelated_NoDup, default_paths_pairwise. Qed.

Lemma custom_paths_short (h : host) :
  custom_paths h = [] \/ exists c, custom_paths h = [c].
Proof.
  unfold custom_paths.
  destruct (CURSOR_STORAGE_PATH h) as [[|c s]|]; auto.
  destruct (exists_ h (Path (c :: s))); eauto.
Qed.

Lemma unrelated_sym (p q : path) : unrelated p q = unrelated q p.
Proof. unfold unrelated. apply andb_comm. Qed.

Lemma candidates_pairwise (h : host) :
  override_apart h = true ->
  ForallOrdPairs (fun p q => unrelated p q = true) (get_cursor_storage_paths h).
Proof.
  intros H. unfold get_cursor_storage_paths. apply FOP_app.
  - apply default_paths_pairwise.
  - destruct (custom_paths_short h) as [->|[c ->]]; repeat constructor.
  - intros d c Hd Hc. unfold override_apart in H.
    rewrite forallb_forall in H. specialize (H c Hc).
    rewrite forallb_forall in H. rewrite unrelated_sym. auto.
Qed.

(** ** The walk *)

Lemma os_walk_Dir (top : path) (es : list (str * node)) :
  os_walk top (Dir es) = (top, dirnames es, filenames es) :: walk_children top es.
Proof.
  cbn [os_walk]. f_equal. unfold walk_children.
  induction es as [|[name child] es IH]; [reflexivity|].
  cbn [flat_map fst snd]. rewrite <- IH. reflexivity.
Qed.

Lemma walk_children_In (top : path) (es : list (str * node))
    (w : path * list str * list str) :
  In w (walk_children top es) <->
  exists name child, In (name, child) es /\ In w (os_walk (top ++ [name]) child).
Proof.
  unfold walk_children. rewrite in_flat_map. split.
  - intros [[name child] [He Hw]]. exists name, child. split; auto.
    simpl in Hw. destruct child; [destruct Hw | assumption].
  - intros (name & child & He & Hw). exists (name, child). split; auto.
    simpl. destruct child; [destruct Hw | assumption].
Qed.

(** The directories of a walk are below its top. *)
Lemma os_walk_root_prefix (n : node) :
  forall top w, In w (os_walk top n) -> is_prefix top (fst (fst w)) = true.
Proof.
  induction n as [data|es IH] using node_induction; intros top w Hw.
  - destruct Hw.
  - rewrite os_walk_Dir in Hw. destruct Hw as [<-|Hw].
    + apply is_prefix_refl.
    + apply walk_children_In in Hw. destruct Hw as (name & child & He & Hw).
      rewrite Forall_forall in IH. apply (IH _ He) in Hw. simpl in Hw.
      apply is_prefix_app in Hw. destruct Hw as [r Hr]. apply is_prefix_app.
      exists ([name] ++ r). rewrite Hr, app_assoc. reflexivity.
Qed.

Lemma mem_In (x : str) (l : list str) : mem x l = true <-> In x l.
Proof.
  induction l as [|y l IH]; simpl; [split; [discriminate | tauto]|].
  rewrite orb_true_iff, str_eqb_eq, IH. split; intros [H|H]; auto.
Qed.

Lemma nodupb_NoDup (l : list str) : nodupb l = true -> NoDup l.
Proof.
  induction l as [|x l IH]; simpl; [constructor|].
  rewrite andb_true_iff, negb_true_iff. intros [Hx Hl]. constructor; auto.
  intros Hin. apply mem_In in Hin. congruence.
Qed.

Lemma wf_node_Dir (es : list (str * node)) :
  wf_node (Dir es) = true ->
  NoDup (map fst es) /\ forall name child, In (name, child) es -> wf_node child = true.
Proof.
  cbn [wf_node]. rewrite andb_true_iff. intros [Hn Hc]. split.
  - apply nodupb_NoDup; assumption.
  - clear Hn. induction es as [|[n c] es IH]; intros name child Hin; [destruct Hin|].
    apply andb_true_iff in Hc. destruct Hc as [Hc Hes].
    destruct Hin as [E|Hin]; [injection E as -> ->; assumption | eauto].
Qed.

Lemma filenames_In (es : list (str * node)) (f : str) :
  In f (filenames es) -> In f (map fst es).
Proof.
  unfold filenames. rewrite in_flat_map. intros [[n c] [He Hf]].
  simpl in Hf. destruct c; [|destruct Hf]. destruct Hf as [<-|[]].
  apply (in_map fst) in He. exact He.
Qed.

Lemma filenames_NoDup (es : list (str * node)) :
  NoDup (map fst es) -> NoDup (filenames es).
Proof.
  induction es as [|[n c] es IH]; simpl; intros H; [constructor|].
  apply NoDup_cons_iff in H. destruct H as [Hn Hes].
  destruct c; simpl; auto.
  constructor; auto. intros Hin. apply Hn. apply filenames_In. exact Hin.
Qed.

(** A walk reports every file name of a directory once. *)
Lemma os_walk_files_NoDup (n : node) :
  forall top w, wf_node n = true -> In w (os_walk top n) -> NoDup (snd w).
Proof.
  induction n as [data|es IH] using node_induction; intros top w Hwf Hw.
  - destruct Hw.
  - apply wf_node_Dir in Hwf. destruct Hwf as [Hn Hc].
    rewrite os_walk_Dir in Hw. destruct Hw as [<-|Hw].
    + simpl. apply filenames_NoDup; assumption.
    + apply walk_children_In in Hw. destruct Hw as (name & child & He & Hw).
      rewrite Forall_forall in IH. apply (IH _ He _ _ (Hc _ _ He) Hw).
Qed.

(** A walk reports every directory once. *)
Lemma os_walk_roots_NoDup (n : node) :
  forall top, wf_node n = true ->
    NoDup (map (fun w => fst (fst w)) (os_walk top n)).
Proof.
  induction n as [data|es IH] using node_induction; intros top Hwf.
  - constructor.
  - apply wf_node_Dir in Hwf. destruct Hwf as [Hn Hc].
    rewrite os_walk_Dir. cbn [map fst]. constructor.
    + intros Hin. apply in_map_iff in Hin. destruct Hin as [w [Ew Hw]].
      apply walk_children_In in Hw. destruct Hw as (name & child & He & Hw).
      apply os_walk_root_prefix in Hw. rewrite Ew in Hw.
      apply is_prefix_app in Hw. destruct Hw as [r Hr].
      apply (f_equal (@length str)) in Hr. rewrite !length_app in Hr. simpl in Hr. lia.
    + unfold walk_children. rewrite flat_map_concat_map, concat_map, map_map.
      rewrite <- flat_map_concat_map.
      apply NoDup_flat_map_disjoint.
      * intros [name child] He. simpl. destruct child; [constructor|].
        rewrite Forall_forall in IH. apply (IH _ He). apply (Hc _ _ He).
      * apply FOP_impl with (R := fun x y => fst x <> fst y);
          [|apply NoDup_map_FOP; assumption].
        intros [n1 c1] [n2 c2] _ _ Hne p H1 H2. simpl in *.
        assert (P1 : is_prefix (top ++ [n1]) p = true).
        { destruct c1; [destruct H1|]. apply in_map_iff in H1.
          destruct H1 as [w [<- Hw]]. eapply os_walk_root_prefix; eassumption. }
        assert (P2 : is_prefix (top ++ [n2]) p = true).
        { destruct c2; [destruct H2|]. apply in_map_iff in H2.
          destruct H2 as [w [<- Hw]]. eapply os_walk_root_prefix; eassumption. }
        apply (unrelated_disjoint (top ++ [n1]) (top ++ [n2]) p); auto.
        rewrite unrelated_head. unfold unrelated; simpl.
        assert (str_eqb n2 n1 = false) as -> by (apply str_eqb_neq; congruence).
        apply str_eqb_neq in Hne. rewrite Hne. reflexivity.
Qed.

(** ** The stores *)

Lemma find_entry_In (name : str) (es : list (str * node)) (x : node) :
  find_entry name es = Some x -> In (name, x) es.
Proof.
  induction es as [|[n y] es IH]; simpl; [discriminate|].
  destruct (str_eqb name n) eqn:E.
  - intros H. injection H as ->. apply str_eqb_eq in E. subst n. auto.
  - auto.
Qed.

Lemma get_node_wf (names : list str) :
  forall n m, wf_node n = true -> get_node names n = Some m -> wf_node m = true.
Proof.
  induction names as [|d ds IH]; simpl; intros n m Hwf H.
  - congruence.
  - destruct n as [data|es]; [discriminate|].
    destruct (find_entry d es) as [child|] eqn:E; [|discriminate].
    apply find_entry_In in E. apply wf_node_Dir in Hwf. destruct Hwf as [_ Hc].
    eapply IH; [apply (Hc _ _ E) | exact H].
Qed.

Lemma lookup_wf (h : host) (p : path) (n : node) :
  wf_node (root h) = true -> lookup h p = Some n -> wf_node n = true.
Proof.
  unfold lookup. destruct (resolve h p) as [names|]; [|discriminate].
  intros Hwf H. eapply get_node_wf; eassumption.
Qed.

Lemma dbs_of_walk_In (rt : runtime) (h : host) (w : path * list str * list str)
    (p : path) :
  In p (dbs_of_walk rt h w) -> exists f, In f (snd w) /\ p = fst (fst w) ++ [f].
Proof.
  destruct w as [[root_ dirs] files]. unfold dbs_of_walk. rewrite in_flat_map.
  intros [f [Hf Hp]]. exists f. split; auto. simpl.
  destruct (is_db_name f); [|destruct Hp].
  destruct (lookup h (root_ ++ [f])) as [[data|]|]; try destruct Hp.
  destruct (sqlite_select1 rt data); [|destruct Hp].
  destruct Hp as [<-|[]]. reflexivity.
Qed.

Lemma dbs_of_walk_NoDup (rt : runtime) (h : host) (w : path * list str * list str) :
  NoDup (snd w) -> NoDup (dbs_of_walk rt h w).
Proof.
  destruct w as [[root_ dirs] files]. simpl. intros H.
  induction H as [|f files Hf Hfiles IH]; simpl; [constructor|].
  apply NoDup_app; auto.
  - destruct (is_db_name f); [|constructor].
    destruct (lookup h (root_ ++ [f])) as [[data|]|]; try constructor.
    destruct (sqlite_select1 rt data); repeat constructor. intros [].
  - intros p Hp Hp'.
    assert (E : p = root_ ++ [f]).
    { destruct (is_db_name f); [|destruct Hp].
      destruct (lookup h (root_ ++ [f])) as [[data|]|]; try destruct Hp.
      destruct (sqlite_select1 rt data); [|destruct Hp].
      destruct Hp as [<-|[]]. reflexivity. }
    apply (dbs_of_walk_In rt h (root_, dirs, files)) in Hp'.
    destruct Hp' as [g [Hg Eg]]. simpl in Hg, Eg. rewrite E in Eg.
    apply app_inj_tail in Eg. destruct Eg as [_ <-]. contradiction.
Qed.

(** What is found from a location is that location or below it. *)
Lemma dbs_of_base_prefix (rt : runtime) (h : host) (base_path p : path) :
  In p (dbs_of_base rt h base_path) -> is_prefix base_path p = true.
Proof.
  unfold dbs_of_base. destruct (is_file h base_path).
  - intros [<-|[]]. apply is_prefix_refl.
  - destruct (lookup h base_path) as [n|]; [|intros []].
    rewrite in_flat_map. intros [w [Hw Hp]].
    apply dbs_of_walk_In in Hp. destruct Hp as [f [_ ->]].
    apply os_walk_root_prefix in Hw. apply is_prefix_app in Hw.
    destruct Hw as [r ->]. apply is_prefix_app. exists (r ++ [f]).
    rewrite app_assoc. reflexivity.
Qed.

(** One location gives every store once. *)
Lemma dbs_of_base_NoDup (rt : runtime) (h : host) (base_path : path) :
  wf_node (root h) = true -> NoDup (dbs_of_base rt h base_path).
Proof.
  intros Hwf. unfold dbs_of_base. destruct (is_file h base_path).
  - repeat constructor. intros [].
  - destruct (lookup h base_path) as [n|] eqn:L; [|constructor].
    pose proof (lookup_wf _ _ _ Hwf L) as Hn.
    apply NoDup_flat_map_disjoint.
    + intros w Hw. apply dbs_of_walk_NoDup. eapply os_walk_files_NoDup; eassumption.
    + apply FOP_impl with (R := fun x y => fst (fst x) <> fst (fst y));
        [|apply NoDup_map_FOP, os_walk_roots_NoDup; assumption].
      intros w1 w2 _ _ Hne p H1 H2.
      apply dbs_of_walk_In in H1, H2.
      destruct H1 as [f1 [_ ->]]. destruct H2 as [f2 [_ E]].
      apply app_inj_tail in E. destruct E as [E _]. contradiction.
Qed.

(** Locations of which none is another or inside another give every store
    once. *)
Lemma find_cursor_dbs_NoDup (rt : runtime) (h : host) :
  wf_node (root h) = true ->
  ForallOrdPairs (fun p q => unrelated p q = true) (get_cursor_storage_paths h) ->
  NoDup (find_cursor_dbs rt h).
Proof.
  intros Hwf H. unfold find_cursor_dbs. apply NoDup_flat_map_disjoint.
  - intros b _. apply dbs_of_base_NoDup; assumption.
  - eapply FOP_impl; [|exact H].
    intros b1 b2 _ _ Hu p H1 H2. simpl in Hu.
    apply dbs_of_base_prefix in H1, H2.
    apply (unrelated_disjoint _ _ _ Hu H1 H2).
Qed.

Lemma custom_paths_exist (h : host) (p : path) :
  In p (custom_paths h) -> exists_ h p = true.
Proof.
  unfold custom_paths.
  destruct (CURSOR_STORAGE_PATH h) as [[|c s]|]; try (intros []).
  destruct (exists_ h (Path (c :: s))) eqn:E; [|intros []].
  intros [<-|[]]. exact E.
Qed.

Lemma dbs_of_walk_valid (rt : runtime) (h : host) (w : path * list str * list str)
    (p : path) :
  In p (dbs_of_walk rt h w) ->
  exists file data,
    In file (snd w) /\ p = fst (fst w) ++ [file] /\ is_db_name file = true
    /\ lookup h p = Some (File data) /\ sqlite_select1 rt data = true.
Proof.
  destruct w as [[root_ dirs] files]. unfold dbs_of_walk. rewrite in_flat_map.
  intros [f [Hf Hp]]. simpl.
  destruct (is_db_name f) eqn:En; [|destruct Hp].
  destruct (lookup h (root_ ++ [f])) as [[data|]|] eqn:El; try destruct Hp.
  destruct (sqlite_select1 rt data) eqn:Es; [|destruct Hp].
  destruct Hp as [<-|[]]. exists f, data. auto.
Qed.

Lemma In_find_entry (name : str) (child : node) (es : list (str * node)) :
  NoDup (map fst es) -> In (name, child) es -> find_entry name es = Some child.
Proof.
  induction es as [|[n y] es IH]; simpl; [tauto|].
  intros Hnd [H|H].
  - injection H as -> ->. rewrite str_eqb_refl. reflexivity.
  - inversion Hnd as [|? ? Hn Hes]; subst.
    destruct (str_eqb name n) eqn:E.
    + apply str_eqb_eq in E. subst n. exfalso. apply Hn.
      apply in_map_iff. exists (name, child). auto.
    + apply IH; assumption.
Qed.

(** When no directory lists a name twice, the walk reports directories of
    the tree only, each with its own names. *)
Lemma os_walk_sound (n : node) :
  forall top w,
    wf_node n = true -> In w (os_walk top n) ->
    exists dirs es,
      get_node dirs n = Some (Dir es) /\ w = (top ++ dirs, dirnames es, filenames es).
Proof.
  induction n as [data|es IH] using node_induction; intros top w Hwf Hw.
  - destruct Hw.
  - rewrite os_walk_Dir in Hw. destruct Hw as [<-|Hw].
    + exists [], es. rewrite app_nil_r. auto.
    + apply walk_children_In in Hw. destruct Hw as (name & child & He & Hw).
      destruct (wf_node_Dir _ Hwf) as [Hnd Hch].
      rewrite Forall_forall in IH.
      destruct (IH _ He (top ++ [name]) w (Hch _ _ He) Hw) as (dirs & es' & G & ->).
      exists (name :: dirs), es'. split.
      * simpl. rewrite (In_find_entry _ _ _ Hnd He). exact G.
      * rewrite <- app_assoc. reflexivity.
Qed.

Lemma NoDup_app_disjoint {A} (l1 l2 : list A) :
  NoDup (l1 ++ l2) -> forall a, In a l1 -> ~ In a l2.
Proof.
  induction l1 as [|x l1 IH]; simpl; intros H a; [tauto|].
  apply NoDup_cons_iff in H. destruct H as [Hx Hl]. intros [<-|Ha] H2.
  - apply Hx. apply in_or_app. auto.
  - apply (IH Hl a); assumption.
Qed.

Lemma FOP_NoDup_map {A B} (g : A -> B) (l : list A) :
  ForallOrdPairs (fun x y => g x <> g y) l -> NoDup (map g l).
Proof.
  induction 1 as [|x l Hx Hl IH]; simpl; constructor; auto.
  intros Hin. apply in_map_iff in Hin. destruct Hin as [y [E Hy]].
  apply ((proj1 (Forall_forall _ _) Hx) y Hy). congruence.
Qed.

Lemma map_flat_map_eq {A B C} (g : B -> C) (f : A -> list B) (l : list A) :
  map g (flat_map f l) = flat_map (fun x => map g (f x)) l.
Proof.
  induction l as [|x l IH]; simpl; auto. rewrite map_app, IH. reflexivity.
Qed.

(** The candidate locations have a duplicate exactly when the override is
    one of the default locations listed. *)
Lemma candidates_NoDup_iff (h : host) :
  NoDup (get_cursor_storage_paths h)
  <-> forall c, In c (custom_paths h) -> ~ In c (default_paths h).
Proof.
  unfold get_cursor_storage_paths. split.
  - intros H c Hc Hd. apply (NoDup_app_disjoint _ _ H c Hd Hc).
  - intros H. apply NoDup_app.
    + apply default_paths_NoDup.
    + destruct (custom_paths_short h) as [->|[c ->]]; repeat constructor. intros [].
    + intros a Ha Hc. apply (H a Hc Ha).
Qed.

Lemma default_stores_NoDup (rt : runtime) (h : host) :
  wf_node (root h) = true -> NoDup (flat_map (dbs_of_base rt h) (default_paths h)).
Proof.
  intros Hwf. apply NoDup_flat_map_disjoint.
  - intros b _. apply dbs_of_base_NoDup; assumption.
  - eapply FOP_impl; [|apply default_paths_pairwise].
    intros b1 b2 _ _ Hu q H1 H2. simpl in Hu.
    apply dbs_of_base_prefix in H1, H2.
    apply (unrelated_disjoint _ _ _ Hu H1 H2).
Qed.

Lemma custom_stores_NoDup (rt : runtime) (h : host) :
  wf_node (root h) = true -> NoDup (flat_map (dbs_of_base rt h) (custom_paths h)).
Proof.
  intros Hwf. destruct (custom_paths_short h) as [->|[c ->]]; simpl; [constructor|].
  rewrite app_nil_r. apply dbs_of_base_NoDup; assumption.
Qed.

(** The stores have a duplicate exactly when one of them is found both from
    a default location and from the override. *)
Lemma stores_NoDup_iff (rt : runtime) (h : host) :
  wf_node (root h) = true ->
  (NoDup (find_cursor_dbs rt h)
   <-> forall p, In p (flat_map (dbs_of_base rt h) (default_paths h)) ->
                 ~ In p (flat_map (dbs_of_base rt h) (custom_paths h))).
Proof.
  intros Hwf. unfold find_cursor_dbs, get_cursor_storage_paths.
  rewrite flat_map_app. split.
  - apply NoDup_app_disjoint.
  - intros H. apply NoDup_app; auto using default_stores_NoDup, custom_stores_NoDup.
Qed.

(** ** Places *)

(** Names that are not [..] are appended as they are. *)
Lemma canon_plain (r : node) (ps : list str) :
  forall at_ res,
    forallb entry_name ps = true -> canon r at_ ps = Some res -> res = at_ ++ ps.
Proof.
  induction ps as [|x ps IH]; intros at_ res Hp H; simpl in *.
  - injection H as <-. rewrite app_nil_r. reflexivity.
  - apply andb_true_iff in Hp. destruct Hp as [Hx Hps].
    unfold entry_name in Hx. apply andb_true_iff in Hx. destruct Hx as [Hx _].
    apply negb_true_iff in Hx. rewrite Hx in H.
    destruct (get_node at_ r) as [[|es]|]; try discriminate.
    destruct (find_entry x es); [|discriminate].
    rewrite (IH _ _ Hps H), <- app_assoc. reflexivity.
Qed.

Lemma resolve_app (h : host) (p q : path) :
  p <> [] \/ head_not_root q ->
  resolve h (p ++ q)
  = match resolve h p with
    | Some m => canon (root h) m q
    | None => None
    end.
Proof.
  intros H. unfold resolve. destruct p as [|r ps].
  - destruct H as [H|H]; [congruence|]. simpl.
    destruct q as [|x q']; [reflexivity|]. simpl in H. rewrite H. reflexivity.
  - cbn [app]. destruct (is_root r).
    + apply canon_app.
    + apply (canon_app (root h) (r :: ps) q).
Qed.

Lemma entry_name_head (q : path) : forallb entry_name q = true -> head_not_root q.
Proof.
  destruct q as [|x q]; simpl; auto. rewrite andb_true_iff. intros [H _].
  unfold entry_name in H. apply andb_true_iff in H. destruct H as [_ H].
  apply negb_true_iff in H. exact H.
Qed.

Lemma default_rel_plain (sys : str) :
  forallb (forallb entry_name) (default_rel sys) = true.
Proof.
  unfold default_rel, base_rel.
  destruct (str_eqb sys (lit "Darwin")); [vm_compute; reflexivity|].
  destruct (str_eqb sys (lit "Windows")); [vm_compute; reflexivity|].
  destruct (str_eqb sys (lit "Linux")); vm_compute; reflexivity.
Qed.

(** The place of a default location is the place of the home directory
    followed by the names of the location. *)
Lemma default_paths_resolve (h : host) (d : path) :
  In d (default_paths h) ->
  exists rel H,
    d = home h ++ rel /\ In rel (default_rel (system h))
    /\ resolve h (home h) = Some H
    /\ resolve h d = Some (H ++ rel).
Proof.
  rewrite default_paths_eq. intros Hd. apply filter_In in Hd. destruct Hd as [Hd He].
  apply in_map_iff in Hd. destruct Hd as [rel [<- Hrel]].
  pose proof (default_rel_plain (system h)) as P.
  rewrite forallb_forall in P. specialize (P rel Hrel).
  unfold exists_, lookup in He.
  destruct (resolve h (home h ++ rel)) as [res|] eqn:R; [|discriminate].
  rewrite resolve_app in R by (right; apply entry_name_head; assumption).
  destruct (resolve h (home h)) as [H|] eqn:RH; [|discriminate].
  apply canon_plain in R; [|assumption]. subst res.
  exists rel, H. auto.
Qed.

Lemma apart_files_spec (h : host) (p q : path) :
  apart_files h p q = true <->
  exists rp rq, resolve h p = Some rp /\ resolve h q = Some rq /\ unrelated rp rq = true.
Proof.
  unfold apart_files. split.
  - destruct (resolve h p) as [rp|]; [|discriminate].
    destruct (resolve h q) as [rq|]; [|discriminate]. eauto.
  - intros (rp & rq & -> & -> & H). exact H.
Qed.

(** The places of the default locations: none is another or inside
    another. *)
Lemma default_paths_apart (h : host) :
  ForallOrdPairs (fun p q => apart_files h p q = true) (default_paths h).
Proof.
  eapply FOP_impl; [|apply default_paths_pairwise].
  intros p q Hp Hq Hu. simpl in Hu.
  destruct (default_paths_resolve h p Hp) as (rel1 & H1 & -> & _ & RH1 & R1).
  destruct (default_paths_resolve h q Hq) as (rel2 & H2 & -> & _ & RH2 & R2).
  rewrite RH1 in RH2. injection RH2 as <-.
  apply apart_files_spec. exists (H1 ++ rel1), (H1 ++ rel2).
  split; [exact R1|]. split; [exact R2|].
  rewrite unrelated_head in *. exact Hu.
Qed.

Lemma apart_files_sym (h : host) (p q : path) : apart_files h p q = apart_files h q p.
Proof.
  unfold apart_files. destruct (resolve h p), (resolve h q); auto.
  apply unrelated_sym.
Qed.

Lemma candidates_apart (h : host) :
  override_apart_files h = true ->
  ForallOrdPairs (fun p q => apart_files h p q = true) (get_cursor_storage_paths h).
Proof.
  intros H. unfold get_cursor_storage_paths. apply FOP_app.
  - apply default_paths_apart.
  - destruct (custom_paths_short h) as [->|[c ->]]; repeat constructor.
  - intros d c Hd Hc. unfold override_apart_files in H.
    rewrite forallb_forall in H. specialize (H c Hc).
    rewrite forallb_forall in H. rewrite apart_files_sym. auto.
Qed.

Lemma plain_node_Dir (es : list (str * node)) :
  plain_node (Dir es) = true ->
  forall name child,
    In (name, child) es -> entry_name name = true /\ plain_node child = true.
Proof.
  cbn [plain_node].
  induction es as [|[n c] es IH]; intros H name child Hin; [destruct Hin|].
  apply andb_true_iff in H. destruct H as [H Hes].
  apply andb_true_iff in H. destruct H as [Hn Hc].
  destruct Hin as [E|Hin]; [injection E as -> ->; auto | eauto].
Qed.

Lemma get_node_plain (names : list str) :
  forall n m,
    plain_node n = true -> get_node names n = Some m ->
    forallb entry_name names = true /\ plain_node m = true.
Proof.
  induction names as [|d ds IH]; simpl; intros n m Hp H.
  - injection H as <-. auto.
  - destruct n as [data|es]; [discriminate|].
    destruct (find_entry d es) as [child|] eqn:E; [|discriminate].
    apply find_entry_In in E.
    destruct (plain_node_Dir _ Hp _ _ E) as [Hd Hc].
    destruct (IH _ _ Hc H) as [Hds Hm]. rewrite Hd, Hds. auto.
Qed.

Lemma filenames_entry (es : list (str * node)) (f : str) :
  In f (filenames es) -> exists data, In (f, File data) es.
Proof.
  unfold filenames. rewrite in_flat_map. intros [[n c] [He Hf]].
  simpl in Hf. destruct c as [data|]; [|destruct Hf]. destruct Hf as [<-|[]].
  exists data. exact He.
Qed.

(** The place of a store is the place of the location it was found from,
    followed by the names that lead from the location to the store. *)
Lemma dbs_of_base_resolve (rt : runtime) (h : host) (b rb p : path) :
  wf_node (root h) = true -> plain_node (root h) = true ->
  resolve h b = Some rb ->
  In p (dbs_of_base rt h b) ->
  exists s, p = b ++ s /\ resolve h p = Some (rb ++ s).
Proof.
  intros Hwf Hpl Rb. unfold dbs_of_base. destruct (is_file h b).
  { intros [<-|[]]. exists []. rewrite !app_nil_r. auto. }
  destruct (lookup h b) as [n|] eqn:L; [|intros []].
  rewrite in_flat_map. intros [w [Hw Hp]].
  apply dbs_of_walk_valid in Hp.
  destruct Hp as (f & data & Hf & -> & _ & Lp & _).
  pose proof (lookup_wf _ _ _ Hwf L) as Hn.
  destruct (os_walk_sound n b w Hn Hw) as (dirs & es & G & ->).
  cbn [fst snd] in *.
  assert (Pn : plain_node n = true).
  { unfold lookup in L. rewrite Rb in L.
    apply (get_node_plain _ _ _ Hpl L). }
  destruct (get_node_plain _ _ _ Pn G) as [Pd Pes].
  assert (Pf : entry_name f = true).
  { destruct (filenames_entry _ _ Hf) as [fd Hin].
    apply (plain_node_Dir _ Pes _ _ Hin). }
  assert (Ps : forallb entry_name (dirs ++ [f]) = true).
  { rewrite forallb_app, Pd. simpl. rewrite Pf. reflexivity. }
  exists (dirs ++ [f]). rewrite <- app_assoc in *. split; [reflexivity|].
  unfold lookup in Lp.
  destruct (resolve h (b ++ dirs ++ [f])) as [res|] eqn:R; [|discriminate].
  rewrite resolve_app in R by (right; apply entry_name_head; assumption).
  rewrite Rb in R. apply canon_plain in R; [|assumption]. subst res. reflexivity.
Qed.

Lemma candidates_resolve (h : host) (b : path) :
  In b (get_cursor_storage_paths h) -> exists rb, resolve h b = Some rb.
Proof.
  unfold get_cursor_storage_paths. rewrite in_app_iff.
  assert (K : exists_ h b = true -> exists rb, resolve h b = Some rb).
  { unfold exists_, lookup. destruct (resolve h b) as [rb|]; [eauto | discriminate]. }
  intros [H|H]; apply K.
  - rewrite default_paths_eq in H. apply filter_In in H. tauto.
  - apply custom_paths_exist. assumption.
Qed.

(** Locations whose places are apart give every file once, under whatever
    spelling. *)
Lemma find_cursor_dbs_files_NoDup (rt : runtime) (h : host) :
  wf_node (root h) = true -> plain_node (root h) = true ->
  ForallOrdPairs (fun p q => apart_files h p q = true) (get_cursor_storage_paths h) ->
  NoDup (map (resolve h) (find_cursor_dbs rt h)).
Proof.
  intros Hwf Hpl H. unfold find_cursor_dbs. rewrite map_flat_map_eq.
  apply NoDup_flat_map_disjoint.
  - intros b Hb. destruct (candidates_resolve h b Hb) as [rb Rb].
    apply NoDup_map_NoDup_ForallPairs; [|apply dbs_of_base_NoDup; assumption].
    intros p q Hp Hq E.
    destruct (dbs_of_base_resolve rt h b rb p Hwf Hpl Rb Hp) as (s1 & -> & R1).
    destruct (dbs_of_base_resolve rt h b rb q Hwf Hpl Rb Hq) as (s2 & -> & R2).
    rewrite R1, R2 in E. injection E as E. apply app_inv_head in E. congruence.
  - eapply FOP_impl; [|exact H].
    intros b1 b2 Hb1 Hb2 Hu x H1 H2. simpl in Hu.
    apply apart_files_spec in Hu. destruct Hu as (r1 & r2 & R1 & R2 & Hu).
    apply in_map_iff in H1. destruct H1 as (p1 & <- & H1).
    apply in_map_iff in H2. destruct H2 as (p2 & E & H2).
    destruct (dbs_of_base_resolve rt h b1 r1 p1 Hwf Hpl R1 H1) as (s1 & -> & Q1).
    destruct (dbs_of_base_resolve rt h b2 r2 p2 Hwf Hpl R2 H2) as (s2 & -> & Q2).
    rewrite Q1, Q2 in E. injection E as E.
    apply (unrelated_disjoint r1 r2 (r1 ++ s1) Hu).
    + apply is_prefix_app. eauto.
    + apply is_prefix_app. exists s2. congruence.
Qed.

Lemma candidates_files_NoDup (h : host) :
  ForallOrdPairs (fun p q => apart_files h p q = true) (get_cursor_storage_paths h) ->
  NoDup (map (resolve h) (get_cursor_storage_paths h)).
Proof.
  intros H. apply FOP_NoDup_map. eapply FOP_impl; [|exact H].
  intros p q _ _ Hu E. simpl in Hu. apply apart_files_spec in Hu.
  destruct Hu as (rp & rq & Rp & Rq & Hu). rewrite Rp, Rq in E. injection E as ->.
  apply (unrelated_neq rq rq Hu). reflexivity.
Qed.

(** C3 (amended).  The default locations that [get_cursor_storage_paths]
    lists are pairwise distinct and none lies inside another.  The override
    is appended without a look at them, and nothing removes duplicates: the
    list of locations has a path twice exactly when the override is one of
    the default locations listed; when no directory lists a name twice, the
    list of stores has a path twice exactly when a store is found both from
    a default location and from the override, which needs the override to
    be a default location, or inside one, or around one.  This compares
    paths as they are written.  As files: when, besides, directories list
    proper names and the place of the override is neither the place of a
    default location nor inside one nor around one, no two entries of
    either list lead to the same place, however they are spelled. *)
Theorem discovery_without_duplicates (rt : runtime) (h : host) :
  NoDup (default_paths h)
  /\ pairwise_unrelated (default_paths h) = true
  /\ (NoDup (get_cursor_storage_paths h)
      <-> forall c, In c (custom_paths h) -> ~ In c (default_paths h))
  /\ (wf_node (root h) = true ->
      (NoDup (find_cursor_dbs rt h)
       <-> forall p, In p (flat_map (dbs_of_base rt h) (default_paths h)) ->
                     ~ In p (flat_map (dbs_of_base rt h) (custom_paths h)))
      /\ (override_apart h = true -> NoDup (find_cursor_dbs rt h)))
  /\ (wf_node (root h) = true -> plain_node (root h) = true ->
      override_apart_files h = true ->
      NoDup (map (resolve h) (get_cursor_storage_paths h))
      /\ NoDup (map (resolve h) (find_cursor_dbs rt h))
      /\ NoDup (find_cursor_dbs rt h)).
Proof.
  split; [apply default_paths_NoDup|].
  split; [apply pairwise_unrelated_spec, default_paths_pairwise|].
  split; [apply candidates_NoDup_iff|]. split.
  - intros Hwf. split; [apply stores_NoDup_iff; assumption|].
    intros Ho. apply find_cursor_dbs_NoDup; [assumption|].
    apply candidates_pairwise. assumption.
  - intros Hwf Hpl Ho. pose proof (candidates_apart h Ho) as A.
    split; [apply candidates_files_NoDup; assumption|].
    pose proof (find_cursor_dbs_files_NoDup rt h Hwf Hpl A) as N.
    split; [exact N | exact (NoDup_map_inv _ _ N)].
Qed.

(** With the override on [/data], away from the default locations. *)
Lemma discovery_without_duplicates_witness :
  let h := host_demo (Some (lit "/data")) in
  get_cursor_storage_paths h
  = [ Path (lit "/home/u/.config/Cursor/User/globalStorage"); Path (lit "/data") ]
  /\ NoDup (get_cursor_storage_paths h)
  /\ NoDup (find_cursor_dbs rt_demo h)
  /\ NoDup (map (resolve h) (find_cursor_dbs rt_demo h)).
Proof.
  intros h. split; [vm_compute; reflexivity|].
  destruct (discovery_without_duplicates rt_demo h) as (_ & _ & C & S & F).
  split; [|split].
  - apply C. intros c Hc Hd. vm_compute in Hc, Hd.
    destruct Hc as [<-|[]]. destruct Hd as [Hd|[]]. discriminate Hd.
  - apply S; vm_compute; reflexivity.
  - apply F; vm_compute; reflexivity.
Defined.

(** The spelling matters: with the override written
    [/home/u/../u/.config/Cursor/User/globalStorage], no path is listed
    twice, and yet the one store of the machine is listed twice, under two
    spellings. *)
Lemma override_under_another_spelling :
  let h := host_demo (Some (lit "/home/u/../u/.config/Cursor/User/globalStorage")) in
  NoDup (get_cursor_storage_paths h)
  /\ NoDup (find_cursor_dbs rt_demo h)
  /\ length (find_cursor_dbs rt_demo h) = 2%nat
  /\ ~ NoDup (map (resolve h) (find_cursor_dbs rt_demo h))
  /\ override_apart_files h = false.
Proof.
  intros h.
  assert (C : get_cursor_storage_paths h
              = [ Path (lit "/home/u/.config/Cursor/User/globalStorage");
                  Path (lit "/home/u/../u/.config/Cursor/User/globalStorage") ])
    by (vm_compute; reflexivity).
  assert (D : find_cursor_dbs rt_demo h
              = [ Path (lit "/home/u/.config/Cursor/User/globalStorage/state.vscdb");
                  Path (lit "/home/u/../u/.config/Cursor/User/globalStorage/state.vscdb") ])
    by (vm_compute; reflexivity).
  split; [|split; [|split; [|split]]].
  - rewrite C. apply NoDup_cons; [|apply NoDup_cons; [intros [] | apply NoDup_nil]].
    intros [H|[]]. vm_compute in H. discriminate H.
  - rewrite D. apply NoDup_cons; [|apply NoDup_cons; [intros [] | apply NoDup_nil]].
    intros [H|[]]. vm_compute in H. discriminate H.
  - rewrite D. reflexivity.
  - rewrite D. intros H. apply NoDup_cons_iff in H. destruct H as [H _].
    apply H. vm_compute. left. reflexivity.
  - vm_compute. reflexivity.
Qed.

(** C3 as stated fails: with the override set to the default location
    [/home/u/.config/Cursor/User/globalStorage], that location is listed
    twice, and so is the store inside it. *)
Lemma override_on_default_location_duplicates :
  let h := host_demo (Some (lit "/home/u/.config/Cursor/User/globalStorage")) in
  ~ NoDup (get_cursor_storage_paths h) /\ ~ NoDup (find_cursor_dbs rt_demo h).
Proof.
  split; intros H.
  - replace (get_cursor_storage_paths _)
      with [ Path (lit "/home/u/.config/Cursor/User/globalStorage");
             Path (lit "/home/u/.config/Cursor/User/globalStorage") ] in H
      by (vm_compute; reflexivity).
    apply NoDup_cons_iff in H. destruct H as [H _]. apply H. left. reflexivity.
  - replace (find_cursor_dbs _ _)
      with [ Path (lit "/home/u/.config/Cursor/User/globalStorage/state.vscdb");
             Path (lit "/home/u/.config/Cursor/User/globalStorage/state.vscdb") ] in H
      by (vm_compute; reflexivity).
    apply NoDup_cons_iff in H. destruct H as [H _]. apply H. left. reflexivity.
Qed.

(* ================================================================== *)
(** * The decoder always answers *)
(* ================================================================== *)

Lemma skip_ws_length (s : str) : (length (Json.skip_ws s) <= length s)%nat.
Proof.
  induction s as [|c t IH]; simpl; auto.
  destruct (Json.is_ws c); simpl; lia.
Qed.

Lemma strip_prefix_length (p s rest : str) :
  strip_prefix p s = Some rest -> (length rest + length p = length s)%nat.
Proof.
  revert s; induction p as [|y p IH]; intros [|x s]; simpl; try discriminate.
  - intros H; injection H as <-. simpl. lia.
  - intros H; injection H as <-. simpl. lia.
  - destruct (x =? y); [|discriminate]. intros H. apply IH in H. lia.
Qed.

Lemma constant_length (name : string) (v w : json) (s rest : str) :
  lit name <> [] ->
  Json.constant name v s = Json.Done w rest -> (length rest < length s)%nat.
Proof.
  unfold Json.constant. intros Hn.
  destruct (strip_prefix (lit name) s) as [r|] eqn:E; [|discriminate].
  intros H; injection H as _ <-. apply strip_prefix_length in E.
  destruct (lit name); [congruence|]. simpl in E. lia.
Qed.

Lemma scan_units_length (n : nat) :
  forall s us rest,
    (length s <= n)%nat -> Json.scan_units s = Some (us, rest) ->
    (length rest < length s)%nat.
Proof.
  induction n as [|n IH]; intros s us rest Hn; destruct s as [|c t];
    simpl in Hn; try lia; try discriminate.
  cbn [Json.scan_units].
  destruct (c =? dquote).
  { intros H; injection H as _ <-. simpl; lia. }
  destruct (c =? ch "\").
  - destruct t as [|e t1]; [discriminate|].
    destruct (e =? ch "u").
    + destruct t1 as [|h1 [|h2 [|h3 [|h4 t2]]]]; try discriminate.
      destruct (Json.hex4 h1 h2 h3 h4); [|discriminate].
      destruct (Json.scan_units t2) as [[us' r]|] eqn:E; [|discriminate].
      intros H; injection H as _ <-.
      apply IH in E; simpl in *; lia.
    + destruct (Json.backslash e); [|discriminate].
      destruct (Json.scan_units t1) as [[us' r]|] eqn:E; [|discriminate].
      intros H; injection H as _ <-.
      apply IH in E; simpl in *; lia.
  - destruct (c <? 32); [discriminate|].
    destruct (Json.scan_units t) as [[us' r]|] eqn:E; [|discriminate].
    intros H; injection H as _ <-.
    apply IH in E; simpl in *; lia.
Qed.

Lemma py_scanstring_length (s k rest : str) :
  Json.py_scanstring s = Some (k, rest) -> (length rest < length s)%nat.
Proof.
  unfold Json.py_scanstring.
  destruct (Json.scan_units s) as [[us r]|] eqn:E; [|discriminate].
  intros H; injection H as _ <-.
  eapply scan_units_length; [apply Nat.le_refl | exact E].
Qed.

Lemma span_digits_length (s : str) :
  (length (snd (Json.span_digits s)) <= length s)%nat.
Proof.
  induction s as [|c t IH]; simpl; auto.
  destruct (Json.is_digit c); simpl; [|lia].
  destruct (Json.span_digits t); simpl in *. lia.
Qed.

Lemma match_number_length (s : str) (v : result json) (rest : str) :
  Json.match_number s = Some (v, rest) -> (length rest < length s)%nat.
Proof.
  unfold Json.match_number.
  set (p := match s with
            | c :: t => if c =? ch "-" then (true, t) else (false, s)
            | [] => (false, s)
            end).
  assert (Hp : (length (snd p) <= length s)%nat).
  { subst p. destruct s as [|c t]; [simpl; auto|]. destruct (c =? ch "-"); simpl; lia. }
  destruct p as [neg s1]. simpl in Hp.
  destruct s1 as [|d t]; [discriminate|].
  destruct (Json.is_digit d) eqn:Ed; [|discriminate].
  set (q := if d =? ch "0" then ([0], t) else Json.span_digits (d :: t)).
  assert (Hq : (length (snd q) <= length t)%nat).
  { subst q. destruct (d =? ch "0"); simpl; auto.
    rewrite Ed. pose proof (span_digits_length t).
    destruct (Json.span_digits t); simpl in *; lia. }
  destruct q as [ip r1]. simpl in Hq.
  set (q2 := match r1 with
             | c :: t' =>
                 if c =? ch "." then
                   match Json.span_digits t' with
                   | ([], _) => ([], r1)
                   | (ds, r) => (ds, r)
                   end
                 else ([], r1)
             | [] => ([], r1)
             end).
  assert (Hq2 : (length (snd q2) <= length r1)%nat).
  { subst q2. destruct r1 as [|c t']; [simpl; auto|].
    destruct (c =? ch "."); [|simpl; auto].
    pose proof (span_digits_length t').
    destruct (Json.span_digits t') as [[|x ds] r]; simpl in *; lia. }
  destruct q2 as [fp r2]. simpl in Hq2.
  match goal with
  | |- (let '(ex, r3) := ?X in _) = _ -> _ => set (q3 := X)
  end.
  assert (Hq3 : (length (snd q3) <= length r2)%nat).
  { subst q3. destruct r2 as [|c t']; [simpl; auto|].
    destruct ((c =? ch "e") || (c =? ch "E")); [|simpl; auto].
    set (q4 := match t' with
               | c2 :: u =>
                   if c2 =? ch "-" then (true, u)
                   else if c2 =? ch "+" then (false, u) else (false, t')
               | [] => (false, t')
               end).
    assert (Hq4 : (length (snd q4) <= length t')%nat).
    { subst q4. destruct t' as [|c2 u]; [simpl; auto|].
      destruct (c2 =? ch "-"); [simpl; lia|].
      destruct (c2 =? ch "+"); simpl; lia. }
    destruct q4 as [eneg t'']. simpl in Hq4.
    pose proof (span_digits_length t'').
    destruct (Json.span_digits t'') as [[|x ds] r]; simpl in *; lia. }
  destruct q3 as [ex r3]. simpl in Hq3.
  destruct fp; [destruct ex|]; intros H; injection H as _ <-; simpl in *; lia.
Qed.

(** A value takes at least one character of the input. *)
Lemma scan_consumes (fuel : nat) :
  (forall depth s v rest, Json.scan_once fuel depth s = Json.Done v rest ->
                          (length rest < length s)%nat)
  /\ (forall depth s acc v rest, Json.array_loop fuel depth s acc = Json.Done v rest ->
                                 (length rest < length s)%nat)
  /\ (forall depth s acc v rest, Json.object_loop fuel depth s acc = Json.Done v rest ->
                                 (length rest < length s)%nat).
Proof.
  induction fuel as [|fuel (IHs & IHa & IHo)].
  { repeat split; intros; discriminate. }
  repeat split.
  - intros depth s v rest. cbn [Json.scan_once]. unfold Json.refuse.
    destruct s as [|c t]; [discriminate|].
    destruct (c =? dquote).
    { destruct (Json.py_scanstring t) as [[k r]|] eqn:E; [|discriminate].
      intros H; injection H as _ <-. apply py_scanstring_length in E. simpl; lia. }
    destruct (c =? ch "{").
    { destruct depth as [|depth']; [discriminate|].
      pose proof (skip_ws_length t).
      destruct (Json.skip_ws t) as [|c1 t1]; [discriminate|].
      destruct (c1 =? dquote).
      - intros H'. apply IHo in H'. simpl in *; lia.
      - destruct (c1 =? ch "}"); [|discriminate].
        intros H'; injection H' as _ <-. simpl in *; lia. }
    destruct (c =? ch "[").
    { destruct depth as [|depth']; [discriminate|].
      pose proof (skip_ws_length t).
      destruct (Json.skip_ws t) as [|c1 t1]; [discriminate|].
      destruct (c1 =? ch "]").
      - intros H'; injection H' as _ <-. simpl in *; lia.
      - intros H'. apply IHa in H'. simpl in *; lia. }
    destruct (c =? ch "n"); [apply constant_length; discriminate|].
    destruct (c =? ch "t"); [apply constant_length; discriminate|].
    destruct (c =? ch "f"); [apply constant_length; discriminate|].
    destruct (c =? ch "N"); [apply constant_length; discriminate|].
    destruct (c =? ch "I"); [apply constant_length; discriminate|].
    destruct (Json.match_number (c :: t)) as [[[w|e] r]|] eqn:E.
    + intros H; injection H as _ <-. apply match_number_length in E. exact E.
    + discriminate.
    + destruct (c =? ch "-"); [apply constant_length; discriminate | discriminate].
  - intros depth s acc v rest. cbn [Json.array_loop]. unfold Json.refuse.
    destruct (Json.scan_once fuel depth s) as [|e|w r] eqn:E; try discriminate.
    apply IHs in E. pose proof (skip_ws_length r).
    destruct (Json.skip_ws r) as [|c t]; [discriminate|].
    destruct (c =? ch "]").
    + intros H'; injection H' as _ <-. simpl in *; lia.
    + destruct (c =? ch ","); [|discriminate].
      intros H'. apply IHa in H'. pose proof (skip_ws_length t). simpl in *; lia.
  - intros depth s acc v rest. cbn [Json.object_loop]. unfold Json.refuse.
    destruct (Json.py_scanstring s) as [[key r]|] eqn:E; [|discriminate].
    apply py_scanstring_length in E. pose proof (skip_ws_length r).
    destruct (Json.skip_ws r) as [|c t]; [discriminate|].
    destruct (c =? ch ":"); [|discriminate].
    pose proof (skip_ws_length t).
    destruct (Json.scan_once fuel depth (Json.skip_ws t)) as [|e|w r'] eqn:E';
      try discriminate.
    apply IHs in E'. pose proof (skip_ws_length r').
    destruct (Json.skip_ws r') as [|c' t']; [discriminate|].
    destruct (c' =? ch "}").
    + intros H'; injection H' as _ <-. simpl in *; lia.
    + destruct (c' =? ch ","); [|discriminate].
      pose proof (skip_ws_length t').
      destruct (Json.skip_ws t') as [|q t'']; [discriminate|].
      destruct (q =? dquote); [|discriminate].
      intros H'. apply IHo in H'. simpl in *; lia.
Qed.

(** With two units of fuel per character and one more, the scanner does not
    run out of fuel. *)
Lemma scan_fuel (fuel : nat) :
  (forall depth s, (2 * length s + 1 <= fuel)%nat ->
                   Json.scan_once fuel depth s <> Json.OutOfFuel)
  /\ (forall depth s acc, (2 * length s + 2 <= fuel)%nat ->
                          Json.array_loop fuel depth s acc <> Json.OutOfFuel)
  /\ (forall depth s acc, (2 * length s + 2 <= fuel)%nat ->
                          Json.object_loop fuel depth s acc <> Json.OutOfFuel).
Proof.
  induction fuel as [|fuel (IHs & IHa & IHo)].
  { repeat split; intros; lia. }
  repeat split.
  - intros depth s Hf. cbn [Json.scan_once]. unfold Json.refuse.
    destruct s as [|c t]; [discriminate|]. simpl in Hf.
    destruct (c =? dquote).
    { destruct (Json.py_scanstring t) as [[k r]|]; discriminate. }
    destruct (c =? ch "{").
    { destruct depth as [|depth']; [discriminate|].
      pose proof (skip_ws_length t).
      destruct (Json.skip_ws t) as [|c1 t1]; [discriminate|].
      destruct (c1 =? dquote).
      - apply IHo. simpl in *; lia.
      - destruct (c1 =? ch "}"); discriminate. }
    destruct (c =? ch "[").
    { destruct depth as [|depth']; [discriminate|].
      pose proof (skip_ws_length t).
      destruct (Json.skip_ws t) as [|c1 t1]; [discriminate|].
      destruct (c1 =? ch "]"); [discriminate|].
      apply IHa. simpl in *; lia. }
    unfold Json.constant, Json.refuse.
    repeat match goal with
           | |- (if ?b then _ else _) <> _ => destruct b
           | |- match strip_prefix ?a ?b with _ => _ end <> _ =>
               destruct (strip_prefix a b)
           | |- match Json.match_number ?a with _ => _ end <> _ =>
               destruct (Json.match_number a) as [[[?|?] ?]|]
           end; discriminate.
  - intros depth s acc Hf. cbn [Json.array_loop]. unfold Json.refuse.
    destruct (Json.scan_once fuel depth s) as [|e|w r] eqn:E.
    + exfalso. apply (IHs depth s); [lia | exact E].
    + discriminate.
    + apply (proj1 (scan_consumes fuel)) in E. pose proof (skip_ws_length r).
      destruct (Json.skip_ws r) as [|c t]; [discriminate|].
      destruct (c =? ch "]"); [discriminate|].
      destruct (c =? ch ","); [|discriminate].
      apply IHa. pose proof (skip_ws_length t). simpl in *; lia.
  - intros depth s acc Hf. cbn [Json.object_loop]. unfold Json.refuse.
    destruct (Json.py_scanstring s) as [[key r]|] eqn:E; [|discriminate].
    apply py_scanstring_length in E. pose proof (skip_ws_length r).
    destruct (Json.skip_ws r) as [|c t]; [discriminate|].
    destruct (c =? ch ":"); [|discriminate].
    pose proof (skip_ws_length t).
    destruct (Json.scan_once fuel depth (Json.skip_ws t)) as [|e|w r'] eqn:E'.
    + exfalso. apply (IHs depth (Json.skip_ws t)); [simpl in *; lia | exact E'].
    + discriminate.
    + apply (proj1 (scan_consumes fuel)) in E'. pose proof (skip_ws_length r').
      destruct (Json.skip_ws r') as [|c' t']; [discriminate|].
      destruct (c' =? ch "}"); [discriminate|].
      destruct (c' =? ch ","); [|discriminate].
      pose proof (skip_ws_length t').
      destruct (Json.skip_ws t') as [|q t'']; [discriminate|].
      destruct (q =? dquote); [|discriminate].
      apply IHo. simpl in *; lia.
Qed.

(** [json.loads] is total: the fuel it starts with is never used up, so its
    answer is a value or an exception of the decoder. *)
Lemma loads_total (s : str) : Json.loads_fuel (Json.fuel_for s) s <> None.
Proof.
  unfold Json.loads_fuel.
  assert (H : Json.scan_once (Json.fuel_for s) Json.max_depth (Json.skip_ws s)
              <> Json.OutOfFuel).
  { apply (proj1 (scan_fuel _)). unfold Json.fuel_for.
    pose proof (skip_ws_length s). lia. }
  destruct s as [|c t].
  - destruct (Json.scan_once _ _ _); try congruence.
    destruct (Json.skip_ws rest); discriminate.
  - assert (K : forall r : option (result json),
               r <> None ->
               match c with 65279 => Some (Raise JSONDecodeError) | _ => r end <> None).
    { intros r Hr. destruct c as [|p]; auto.
      do 16 (destruct p as [p|p|]; auto); discriminate. }
    apply K.
    destruct (Json.scan_once _ _ _); try congruence.
    destruct (Json.skip_ws rest); discriminate.
Qed.

(* ================================================================== *)
(** * Further properties of discovery *)
(* ================================================================== *)

(** X1.  Every location that [get_cursor_storage_paths] returns exists on
    the machine when it is listed, and every default location is below the
    home directory. *)
Theorem candidate_locations_exist (h : host) (p : path) :
  In p (get_cursor_storage_paths h) ->
  exists_ h p = true
  /\ (In p (default_paths h) -> is_prefix (home h) p = true /\ p <> home h).
Proof.
  intros H. split.
  - unfold get_cursor_storage_paths in H. apply in_app_or in H.
    destruct H as [H|H]; [|apply custom_paths_exist; assumption].
    rewrite default_paths_eq in H. apply filter_In in H. tauto.
  - intros D. rewrite default_paths_eq in D. apply filter_In in D.
    destruct D as [D _]. apply in_map_iff in D. destruct D as [r [<- Hr]].
    split; [apply is_prefix_app; eauto|].
    intros E. rewrite <- (app_nil_r (home h)) in E at 2.
    apply app_inv_head in E. subst r. revert Hr.
    unfold default_rel, base_rel.
    destruct (str_eqb (system h) (lit "Darwin")); [vm_compute; intuition discriminate|].
    destruct (str_eqb (system h) (lit "Windows")); [vm_compute; intuition discriminate|].
    destruct (str_eqb (system h) (lit "Linux")); vm_compute; intuition discriminate.
Qed.

(** The one default location of the example machine. *)
Lemma candidate_locations_exist_witness :
  exists_ (host_demo None) (Path (lit "/home/u/.config/Cursor/User/globalStorage")) = true
  /\ is_prefix (home (host_demo None))
       (Path (lit "/home/u/.config/Cursor/User/globalStorage")) = true.
Proof.
  destruct (candidate_locations_exist (host_demo None)
              (Path (lit "/home/u/.config/Cursor/User/globalStorage"))) as [E D].
  - vm_compute. left. reflexivity.
  - split; [exact E|]. apply D. vm_compute. left. reflexivity.
Defined.

(** X2.  A listed location that is a file is returned by [find_cursor_dbs]
    as it is: its name is not looked at and the validation query is not run
    on it. *)
Theorem file_candidate_is_trusted (rt : runtime) (h : host) (base_path : path) :
  In base_path (get_cursor_storage_paths h) ->
  is_file h base_path = true ->
  In base_path (find_cursor_dbs rt h).
Proof.
  intros Hin Hf. unfold find_cursor_dbs. apply in_flat_map.
  exists base_path. split; auto. unfold dbs_of_base. rewrite Hf. left. reflexivity.
Qed.

(** With the override on a file, and a runtime in which no validation
    succeeds. *)
Lemma file_candidate_is_trusted_witness :
  sqlite_select1 rt_closed (lit "not json") = false
  /\ In (Path (lit "/data/extra.db"))
        (find_cursor_dbs rt_closed (host_demo (Some (lit "/data/extra.db")))).
Proof.
  split; [reflexivity|].
  apply (file_candidate_is_trusted rt_closed
           (host_demo (Some (lit "/data/extra.db"))) (Path (lit "/data/extra.db"))).
  - vm_compute. right. left. reflexivity.
  - vm_compute. reflexivity.
Defined.

(** X3.  Every store that [find_cursor_dbs] returns is a listed location
    that is a file, or lies below a listed location, is a file whose name ends
    with [.vscdb] or [.db], and has passed the validation query. *)
Theorem found_store_is_trusted_or_validated (rt : runtime) (h : host) (p : path) :
  In p (find_cursor_dbs rt h) ->
  exists base_path,
    In base_path (get_cursor_storage_paths h)
    /\ is_prefix base_path p = true
    /\ ((p = base_path /\ is_file h base_path = true)
        \/ (is_file h base_path = false
            /\ exists root_ file data,
                 p = root_ ++ [file] /\ is_prefix base_path root_ = true
                 /\ is_db_name file = true
                 /\ lookup h p = Some (File data)
                 /\ sqlite_select1 rt data = true)).
Proof.
  unfold find_cursor_dbs. rewrite in_flat_map. intros [b [Hb Hp]].
  exists b. split; auto. split; [eapply dbs_of_base_prefix; eassumption|].
  unfold dbs_of_base in Hp. destruct (is_file h b) eqn:Ef.
  - left. destruct Hp as [<-|[]]. auto.
  - right. split; auto.
    destruct (lookup h b) as [n|]; [|destruct Hp].
    apply in_flat_map in Hp. destruct Hp as [w [Hw Hp]].
    apply dbs_of_walk_valid in Hp. destruct Hp as (file & data & _ & -> & Hn & Hl & Hs).
    exists (fst (fst w)), file, data. repeat split; auto.
    eapply os_walk_root_prefix; eassumption.
Qed.

Lemma found_store_is_trusted_or_validated_witness :
  exists root_ file data,
    Path (lit "/home/u/.config/Cursor/User/globalStorage/state.vscdb") = root_ ++ [file]
    /\ is_db_name file = true
    /\ lookup (host_demo None)
         (Path (lit "/home/u/.config/Cursor/User/globalStorage/state.vscdb"))
       = Some (File data).
Proof.
  destruct (found_store_is_trusted_or_validated rt_demo (host_demo None)
              (Path (lit "/home/u/.config/Cursor/User/globalStorage/state.vscdb")))
    as (b & Hb & _ & [[_ Hf]|[_ (r & f & d & E & _ & Hn & Hl & _)]]).
  - vm_compute. left. reflexivity.
  - exfalso. vm_compute in Hb. destruct Hb as [<-|[]]. vm_compute in Hf. discriminate Hf.
  - exists r, f, d. auto.
Defined.











(* ================================================================== *)
(** * Further properties of extraction *)
(* ================================================================== *)

Lemma keep_length (ps : list json) : (length (keep ps) <= length ps)%nat.
Proof.
  induction ps as [|e ps IH]; simpl; auto.
  unfold keep in *; simpl. destruct (accepted e); simpl; lia.
Qed.

(** X6.  The invariant of a record: its content is a string that is not
    empty after [strip], it is the [text] of the record's raw data, the raw
    data is one of the dictionaries of the decoded array, unchanged, and the
    command type is the one resolved from that dictionary. *)
Theorem record_is_built_from_its_element (clk : clock) (tick : nat) (value : str)
    (workspace_files : list str) (items : list json)
    (records : list prompt_record) (tick' : nat) (r : prompt_record) :
  Json.loads value = Ok (JArr items) ->
  extract_prompts_from_value clk tick value workspace_files = Ok (records, tick') ->
  In r records ->
  In (JObj (raw_data r)) items
  /\ dict_get (lit "text") (raw_data r) = Some (content r)
  /\ (exists s, content r = JStr s /\ strip s <> [])
  /\ command_type r = get_command_type (raw_data r).
Proof.
  intros L E Hin. rewrite (extract_array _ _ _ _ _ L) in E.
  destruct (forallb text_is_str items); [|discriminate].
  injection E as <- <-.
  destruct (records_from_In _ _ _ _ Hin) as (k & d & _ & Hd & ->).
  apply in_rev in Hd. apply keep_accepted in Hd. destruct Hd as [e [He Ha]].
  destruct (accepted_dict _ _ Ha) as [-> (s & Hs & Hn)].
  simpl. unfold record_of; simpl. rewrite Hs. repeat split; eauto.
Qed.

Lemma record_is_built_from_its_element_witness :
  let d := [(lit "text", JStr (lit " hi ")); (lit "commandType", JInt 4)] in
  let r := {| content := JStr (lit " hi "); command_type := JStr (lit "edit");
              timestamp := JStr (lit "2024-01-01T12:00:00"); raw_data := d |} in
  dict_get (lit "text") (raw_data r) = Some (content r)
  /\ command_type r = get_command_type (raw_data r).
Proof.
  intros d r.
  destruct (record_is_built_from_its_element clk_demo 0
              (jlit "[{'text': ' hi ', 'commandType': 4}]") [] [JObj d] [r] 1 r)
    as (_ & H2 & _ & H4).
  - vm_compute. reflexivity.
  - vm_compute. reflexivity.
  - simpl. left. reflexivity.
  - split; assumption.
Defined.

Lemma lstrip_nil (s : str) : lstrip s = [] <-> forallb isspace s = true.
Proof.
  induction s as [|c s IH]; simpl; [tauto|].
  destruct (isspace c); simpl; [exact IH|]. split; discriminate.
Qed.

Lemma lstrip_head (s : str) (c : N) (t : str) :
  lstrip s = c :: t -> isspace c = false.
Proof.
  induction s as [|x s IH]; simpl; [discriminate|].
  destruct (isspace x) eqn:E; auto. intros H. injection H as <- _. exact E.
Qed.

(** [strip] leaves nothing exactly of the strings made of white space. *)
Lemma strip_nil (s : str) : strip s = [] <-> forallb isspace s = true.
Proof.
  unfold strip, rstrip. split.
  - intros H. apply lstrip_nil.
    destruct (lstrip s) as [|c t] eqn:E; auto. exfalso.
    apply (f_equal (@rev N)) in H. rewrite rev_involutive in H.
    change (rev (@nil N)) with (@nil N) in H.
    apply lstrip_nil in H. rewrite forallb_rev in H. simpl in H.
    rewrite (lstrip_head _ _ _ E) in H. discriminate.
  - intros H. apply lstrip_nil in H. rewrite H. reflexivity.
Qed.

(** X7.  An element whose [text] is a string is passed over exactly when
    that string consists of white-space characters only (the empty string
    included); otherwise it gives one record and one clock reading. *)
Theorem blank_text_is_skipped (clk : clock) (tick : nat)
    (d : list (str * json)) (s : str) :
  dict_get (lit "text") d = Some (JStr s) ->
  (forallb isspace s = true ->
   extract_loop clk [JObj d] [] tick = Ok ([], tick))
  /\ (forallb isspace s = false ->
      extract_loop clk [JObj d] [] tick = Ok ([record_of (clk tick) d], S tick)).
Proof.
  intros H. cbn [extract_loop]. rewrite H. split; intros Hs.
  - apply strip_nil in Hs. rewrite Hs. reflexivity.
  - destruct (strip s) eqn:E.
    + apply strip_nil in E. congruence.
    + unfold record_of. rewrite H. reflexivity.
Qed.

(** A tab, a no-break space and an ideographic space make a blank text. *)
Lemma blank_text_is_skipped_witness :
  extract_loop clk_demo [JObj [(lit "text", JStr [9; 160; 12288])]] [] 0
  = Ok ([], 0%nat).
Proof.
  apply (blank_text_is_skipped clk_demo 0
           [(lit "text", JStr [9; 160; 12288])] [9; 160; 12288]).
  - reflexivity.
  - reflexivity.
Defined.

(** X8.  Resolving a command type twice is resolving it once, and a resolved
    command type is never an integer from 1 to 10. *)
Theorem resolve_command_type_idempotent (v : json) :
  resolve_command_type (resolve_command_type v) = resolve_command_type v
  /\ (forall z, resolve_command_type v = JInt z -> ~ (1 <= z <= 10)%Z).
Proof.
  pose proof (resolve_command_type_spec v) as S.
  destruct (as_int v) as [z|] eqn:Ev.
  - destruct (int_dict_get z COMMAND_TYPES) as [label|] eqn:Ez.
    + rewrite S. split; [reflexivity | discriminate].
    + rewrite S. split.
      * unfold resolve_command_type. rewrite Ev, Ez. reflexivity.
      * intros z' -> Hz. simpl in Ev. injection Ev as <-.
        apply COMMAND_TYPES_keys in Hz. destruct Hz as [label Hl]. congruence.
  - rewrite S. split.
    + unfold resolve_command_type. rewrite Ev. reflexivity.
    + intros z ->. discriminate Ev.
Qed.

(** X9.  The clock is read exactly once for every record returned, whether
    the element has its own timestamp or not, and a value that is not an
    array reads no clock; an array never gives more records than it has
    elements. *)
Theorem clock_read_once_per_record (clk : clock) (tick : nat) (value : str)
    (workspace_files : list str) (records : list prompt_record) (tick' : nat) :
  extract_prompts_from_value clk tick value workspace_files = Ok (records, tick') ->
  tick' = (tick + length records)%nat
  /\ (forall items, Json.loads value = Ok (JArr items) ->
                    (length records <= length items)%nat)
  /\ ((forall items, Json.loads value <> Ok (JArr items)) -> tick' = tick).
Proof.
  intros E. split; [|split].
  - destruct (extract_ok _ _ _ _ _ _ E) as (ds & -> & -> & _).
    rewrite records_from_length. reflexivity.
  - intros items L. rewrite (extract_array _ _ _ _ _ L) in E.
    destruct (forallb text_is_str items); [|discriminate].
    injection E as <- _. rewrite records_from_length, length_rev. apply keep_length.
  - intros H. unfold extract_prompts_from_value in E.
    destruct (Json.loads value) as [v|e] eqn:L.
    + destruct v; try (injection E as _ <-; reflexivity).
      exfalso. apply (H items). reflexivity.
    + destruct e; try discriminate. injection E as _ <-. reflexivity.
Qed.

(** Two records from three elements, both with a timestamp of their own:
    two readings. *)
Lemma clock_read_once_per_record_witness :
  exists records,
    extract_prompts_from_value clk_demo 5
      (jlit "[{'text': 'a', 'timestamp': 't1'}, 0, {'text': 'b', 'timestamp': 't2'}]") []
    = Ok (records, 7%nat)
    /\ length records = 2%nat.
Proof.
  eexists. split; [vm_compute; reflexivity|].
  match goal with
  | |- length ?rs = _ =>
      destruct (clock_read_once_per_record clk_demo 5
                  (jlit "[{'text': 'a', 'timestamp': 't1'}, 0, {'text': 'b', 'timestamp': 't2'}]")
                  [] rs 7) as [H _]
  end.
  - vm_compute. reflexivity.
  - lia.
Defined.

Lemma records_from_clock (clk1 clk2 : clock) (ds : list (list (str * json))) :
  forall tick,
    (forall d, In d ds -> dict_contains (lit "timestamp") d = true) ->
    records_from clk1 tick ds = records_from clk2 tick ds.
Proof.
  induction ds as [|d ds IH]; intros tick H; [reflexivity|].
  simpl. rewrite IH by (intros; apply H; simpl; auto). f_equal.
  unfold record_of, get_timestamp.
  specialize (H d (or_introl eq_refl)). unfold dict_contains in H.
  destruct (dict_get (lit "timestamp") d); [reflexivity | discriminate].
Qed.

(** X10.  When every dictionary of the array has a [timestamp], the result
    does not depend on the clock: the time of the run enters a record only
    through a missing timestamp. *)
Theorem stated_timestamps_ignore_clock (clk1 clk2 : clock) (tick : nat)
    (value : str) (workspace_files : list str) (items : list json) :
  Json.loads value = Ok (JArr items) ->
  forallb has_timestamp items = true ->
  extract_prompts_from_value clk1 tick value workspace_files
  = extract_prompts_from_value clk2 tick value workspace_files.
Proof.
  intros L H. rewrite !(extract_array _ _ _ _ _ L).
  destruct (forallb text_is_str items); [|reflexivity].
  f_equal. f_equal. apply records_from_clock.
  intros d Hd. apply in_rev in Hd. apply keep_accepted in Hd.
  destruct Hd as [e [He Ha]]. destruct (accepted_dict _ _ Ha) as [-> _].
  rewrite forallb_forall in H. apply (H _ He).
Qed.

Lemma stated_timestamps_ignore_clock_witness :
  extract_prompts_from_value clk_demo 0
    (jlit "[{'text': 'a', 'timestamp': 12}, 'x']") []
  = extract_prompts_from_value (fun _ => mkDatetime 1999 12 31 23 59 59 1) 0
      (jlit "[{'text': 'a', 'timestamp': 12}, 'x']") [].
Proof.
  apply (stated_timestamps_ignore_clock clk_demo _ 0 _ []
           [ JObj [(lit "text", JStr (lit "a")); (lit "timestamp", JInt 12)];
             JStr (lit "x") ]).
  - vm_compute. reflexivity.
  - vm_compute. reflexivity.
Defined.

(* ================================================================== *)
(** * Further properties of the sort *)
(* ================================================================== *)

Lemma sorted_stays (s : list prompt_record) :
  StronglySorted ts_ge s -> sort_desc s = Ok s.
Proof.
  induction 1 as [|x s Hs IH Hx]; [reflexivity|].
  simpl. rewrite IH. simpl. destruct s as [|y s]; [reflexivity|].
  apply Forall_cons_iff in Hx. destruct Hx as [Hxy _].
  unfold ts_ge in Hxy. simpl.
  destruct (timestamp x); try contradiction.
  destruct (timestamp y); try contradiction.
  simpl. rewrite Hxy. reflexivity.
Qed.

(** X11.  Sorting a sorted report again changes nothing: on string
    timestamps the result of the sort is a fixed point of the sort. *)
Theorem sorted_report_is_a_fixed_point (l s : list prompt_record) :
  forallb ts_str l = true ->
  sort_desc l = Ok s ->
  sort_desc s = Ok s.
Proof.
  intros Hl Hs. destruct (sort_desc_sorted l Hl) as (s' & E & _ & S).
  rewrite Hs in E. injection E as <-. apply sorted_stays. assumption.
Qed.

Lemma sorted_report_is_a_fixed_point_witness :
  let r t := {| content := JStr (lit "x"); command_type := JStr (lit "unknown");
                timestamp := JStr (lit t); raw_data := [] |} in
  sort_desc [r "2024-03"%string; r "2024-02"%string; r "2024-02"%string; r "2023-12"%string]
  = Ok [r "2024-03"%string; r "2024-02"%string; r "2024-02"%string; r "2023-12"%string].
Proof.
  intros r.
  apply (sorted_report_is_a_fixed_point
           [r "2024-02"%string; r "2023-12"%string; r "2024-03"%string; r "2024-02"%string]).
  - vm_compute. reflexivity.
  - vm_compute. reflexivity.
Defined.

Lemma kind_eqb_eq (a b : option kind) : kind_eqb a b = true <-> a = b.
Proof.
  destruct a as [[]|], b as [[]|]; simpl; split; congruence.
Qed.

(** Values that [<] compares are of one kind. *)
Lemma py_lt_kind (x y : json) (b : bool) :
  py_lt x y = Some b -> exists k, kind_of x = Some k /\ kind_of y = Some k.
Proof.
  destruct x as [| [|] | | | | |], y as [| [|] | | | | |];
    try (simpl; discriminate); intros _; eexists; split; reflexivity.
Qed.

(** A sort that returns had at most one record or records of one kind. *)
Lemma sort_desc_one_kind (l : list prompt_record) :
  forall s,
    sort_desc l = Ok s ->
    (length l <= 1)%nat
    \/ exists k, Forall (fun r => kind_of (timestamp r) = Some k) l.
Proof.
  induction l as [|x l IH]; intros s Hs; [left; simpl; lia|].
  simpl in Hs. destruct (sort_desc l) as [s'|] eqn:E; simpl in Hs; [|discriminate].
  destruct l as [|y0 l]; [left; simpl; lia|]. right.
  pose proof (sort_desc_perm _ _ E) as P.
  destruct s' as [|y s']; [apply Permutation_sym, Permutation_nil in P; discriminate|].
  simpl in Hs.
  destruct (py_lt (timestamp x) (timestamp y)) as [b|] eqn:Elt; [|discriminate].
  destruct (py_lt_kind _ _ _ Elt) as (k & Kx & Ky).
  exists k. constructor; auto.
  assert (Hy : In y (y0 :: l)).
  { apply Permutation_in with (y :: s'); [apply Permutation_sym; assumption|].
    left. reflexivity. }
  destruct (IH _ eq_refl) as [Hlen|[k' Hk']].
  - destruct l; [|simpl in Hlen; lia].
    destruct Hy as [<-|[]]. constructor; auto.
  - rewrite Forall_forall in Hk'. pose proof (Hk' y Hy) as Ky'.
    assert (k' = k) by congruence. subst k'. apply Forall_forall. assumption.
Qed.

Lemma sort_desc_mixed (l : list prompt_record) (a b : prompt_record) :
  In a l -> In b l ->
  kind_eqb (kind_of (timestamp a)) (kind_of (timestamp b)) = false ->
  sort_desc l = Raise TypeError.
Proof.
  intros Ha Hb Hk.
  destruct (sort_desc l) as [s|e] eqn:E.
  - exfalso. destruct (sort_desc_one_kind _ _ E) as [Hlen|[k Hf]].
    + destruct l as [|x [|y l]]; simpl in *; try lia; try tauto.
      destruct Ha as [<-|[]], Hb as [<-|[]].
      assert (kind_eqb (kind_of (timestamp x)) (kind_of (timestamp x)) = true)
        by (apply kind_eqb_eq; reflexivity).
      congruence.
    + rewrite Forall_forall in Hf.
      rewrite (Hf a Ha), (Hf b Hb) in Hk. destruct k; discriminate.
  - f_equal. apply (sort_desc_raise _ _ E).
Qed.

(** X12.  Timestamps of two different kinds among the extracted records,
    such as an integer of one element and the clock's string given to an
    element without timestamp, make the sort raise [TypeError]; [main] then
    ends with that error and writes nothing. *)
Theorem mixed_timestamp_kinds_fail_the_run (rt : runtime) (clk : clock) (h : host)
    (output : str) (all_prompts : list prompt_record) (tick : nat)
    (a b : prompt_record) :
  find_cursor_dbs rt h <> [] ->
  extract_dbs rt clk h (get_project_files h (lit "/" :: cwd h))
    (find_cursor_dbs rt h) [] 0 = Ok (all_prompts, tick) ->
  In a all_prompts -> In b all_prompts ->
  kind_eqb (kind_of (timestamp a)) (kind_of (timestamp b)) = false ->
  sort_desc all_prompts = Raise TypeError
  /\ main rt clk h output = (Failed TypeError, h).
Proof.
  intros Hdb E Ha Hb Hk.
  pose proof (sort_desc_mixed _ _ _ Ha Hb Hk) as S. split; auto.
  unfold main, collect_sorted.
  destruct (find_cursor_dbs rt h) as [|db dbs]; [congruence|].
  rewrite E, S. reflexivity.
Qed.

(** A store with an integer timestamp and an element without timestamp. *)
Lemma mixed_timestamp_kinds_fail_the_run_witness :
  let h := host_store (jlit "[{'text': 'a', 'timestamp': 1700000000000}, {'text': 'b'}]") in
  main rt_demo clk_demo h (lit "out.log") = (Failed TypeError, h).
Proof.
  intros h.
  apply (mixed_timestamp_kinds_fail_the_run rt_demo clk_demo h (lit "out.log")
           (records_from clk_demo 0
              [ [(lit "text", JStr (lit "b"))];
                [(lit "text", JStr (lit "a")); (lit "timestamp", JInt 1700000000000)] ])
           2
           (record_of (clk_demo 0%nat) [(lit "text", JStr (lit "b"))])
           (record_of (clk_demo 1%nat)
              [(lit "text", JStr (lit "a")); (lit "timestamp", JInt 1700000000000)])).
  - vm_compute. discriminate.
  - vm_compute. reflexivity.
  - simpl. left. reflexivity.
  - simpl. right. left. reflexivity.
  - vm_compute. reflexivity.
Defined.

Lemma ts_int_lt (x y : prompt_record) :
  ts_int x = true -> ts_int y = true ->
  exists a b, timestamp x = JInt a /\ timestamp y = JInt b /\
              py_lt (timestamp x) (timestamp y) = Some (a <? b)%Z.
Proof.
  unfold ts_int. destruct (timestamp x); try discriminate.
  destruct (timestamp y); try discriminate. intros _ _. eexists _, _.
  repeat split.
Qed.

Lemma ts_ge_int_trans (a b c : prompt_record) :
  ts_ge_int a b -> ts_ge_int b c -> ts_ge_int a c.
Proof.
  unfold ts_ge_int. destruct (timestamp a), (timestamp b), (timestamp c); try tauto.
  lia.
Qed.

Lemma insert_desc_sorted_int (x : prompt_record) (l : list prompt_record) :
  ts_int x = true -> forallb ts_int l = true -> StronglySorted ts_ge_int l ->
  exists l', insert_desc x l = Ok l' /\ StronglySorted ts_ge_int l' /\
             forall z, Forall (ts_ge_int z) l -> ts_ge_int z x -> Forall (ts_ge_int z) l'.
Proof.
  intros Hx. induction l as [|y l IH]; simpl; intros Hl Hs.
  - exists [x]. repeat split; repeat constructor; auto.
  - apply andb_true_iff in Hl. destruct Hl as [Hy Hl].
    apply StronglySorted_inv in Hs. destruct Hs as [Hs Hyl].
    destruct (ts_int_lt x y Hx Hy) as (a & b & Ea & Eb & ->).
    destruct (Z.ltb_spec a b) as [Hab|Hab].
    + destruct (IH Hl Hs) as (l' & -> & Hs' & Hz). simpl.
      exists (y :: l'). repeat split.
      * constructor; auto. apply Hz; auto.
        unfold ts_ge_int. rewrite Ea, Eb. lia.
      * intros z Hzl Hzx. apply Forall_cons_iff in Hzl. destruct Hzl.
        constructor; auto.
    + exists (x :: y :: l). repeat split; auto.
      * constructor; [constructor; auto|].
        assert (Hxy : ts_ge_int x y) by (unfold ts_ge_int; rewrite Ea, Eb; assumption).
        constructor; auto.
        eapply Forall_impl; [|exact Hyl]. intros c. apply ts_ge_int_trans; assumption.
Qed.

(** X13.  Timestamps that are all JSON integers, such as milliseconds since
    the epoch, are sorted by value: the sort returns a rearrangement in which
    no record has a greater integer than a record before it. *)
Theorem integer_timestamps_sort_numerically (l : list prompt_record) :
  forallb ts_int l = true ->
  exists s, sort_desc l = Ok s /\ Permutation l s /\ StronglySorted ts_ge_int s.
Proof.
  induction l as [|x l IH]; simpl; intros Hl.
  - exists []. repeat split; constructor.
  - apply andb_true_iff in Hl. destruct Hl as [Hx Hl].
    destruct (IH Hl) as (s & Es & Ps & Ss). rewrite Es; simpl.
    assert (Hs : forallb ts_int s = true).
    { apply forallb_forall. intros r Hr.
      apply (proj1 (forallb_forall _ _) Hl).
      apply Permutation_in with s; [apply Permutation_sym|]; assumption. }
    destruct (insert_desc_sorted_int x s Hx Hs Ss) as (l' & El & Sl & _).
    exists l'. repeat split; auto.
    apply perm_trans with (x :: s); [apply perm_skip; assumption|].
    apply insert_desc_perm; assumption.
Qed.

(** 9 sorts before 10 as an integer, unlike the strings ["9"] and ["10"]. *)
Lemma integer_timestamps_sort_numerically_witness :
  let r z := {| content := JStr (lit "x"); command_type := JStr (lit "unknown");
                timestamp := JInt z; raw_data := [] |} in
  exists s, sort_desc [r 9%Z; r 10%Z; r (-1)%Z] = Ok s
            /\ StronglySorted ts_ge_int s
            /\ s = [r 10%Z; r 9%Z; r (-1)%Z].
Proof.
  intros r.
  destruct (integer_timestamps_sort_numerically [r 9%Z; r 10%Z; r (-1)%Z])
    as (s & E & _ & S).
  - vm_compute. reflexivity.
  - exists s. repeat split; auto.
    assert (E' : sort_desc [r 9%Z; r 10%Z; r (-1)%Z] = Ok [r 10%Z; r 9%Z; r (-1)%Z])
      by (vm_compute; reflexivity).
    congruence.
Defined.

(* ================================================================== *)
(** * Further properties of the renderer *)
(* ================================================================== *)

(** X14.  When the renderer returns [True], the output path holds a file
    whose bytes are the UTF-8 encoding of the header followed by the blocks of
    the records in the order of the list, whatever was at that path before
    (lines end with the line feed, as where the line separator is that
    character); the list was not empty and the clock was read once, for the
    header. *)
Theorem written_log_is_the_encoded_report (rt : runtime) (clk : clock)
    (tick : nat) (h h' : host) (prompts : list prompt_record)
    (workspace_path : path) (output_file : str) (tick' : nat) :
  write_prompts_to_log rt clk tick h prompts workspace_path output_file
  = (Ok true, h', tick') ->
  prompts <> [] /\ tick' = S tick
  /\ exists data,
       lookup h' (Path output_file) = Some (File data)
       /\ utf8_encode
            (concat (log_chunks rt (clk tick) workspace_path [])
             ++ concat (flat_map (prompt_chunks rt) prompts))
          = Some data.
Proof.
  intros W. apply write_prompts_to_log_cases in W.
  destruct W as [(_ & _ & [E | (_ & e & E & _)])
                | (Hp & Ht & _ & data & _ & L & [(_ & E) | [(E & _) | (E & _)]])];
    try discriminate.
  split; auto. split; auto. exists data. split; auto.
  rewrite <- concat_app. unfold log_chunks in *. rewrite app_nil_r. exact E.
Qed.

Lemma written_log_is_the_encoded_report_witness :
  exists h' data,
    write_prompts_to_log rt_demo clk_demo 0 (host_demo None)
      [record_of (clk_demo 0%nat) [(lit "text", JStr (lit "hi"))]]
      (Path (lit "/home/u/work")) (lit "../out.log")
    = (Ok true, h', 1%nat)
    /\ lookup h' (Path (lit "/home/u/out.log")) = Some (File data)
    /\ lookup h' (Path (lit "../out.log")) = Some (File data).
Proof.
  eexists. eexists. split; [vm_compute; reflexivity|]. split; [vm_compute; reflexivity|].
  match goal with
  | |- lookup ?h1 _ = _ =>
      destruct (written_log_is_the_encoded_report rt_demo clk_demo 0 (host_demo None) h1
                  [record_of (clk_demo 0%nat) [(lit "text", JStr (lit "hi"))]]
                  (Path (lit "/home/u/work")) (lit "../out.log") 1)
        as (_ & _ & data & L & _)
  end.
  - vm_compute. reflexivity.
  - rewrite L. f_equal. vm_compute in L. injection L as <-. reflexivity.
Defined.

(** X15.  How the renderer fails.  When it returns [False], either
    nothing was created or changed and no clock was read (the list was empty,
    or the path could not be opened), or the device had room for a part of
    the log only: the file was opened, the clock was read, and the file holds
    the bytes that fitted.  When it raises, either [open] raised for the name
    before anything was created ([UnicodeEncodeError] for a name that cannot
    be encoded, else [ValueError] for a name with a null character), or it is
    [UnicodeEncodeError] because some text to write cannot be encoded, and
    the file holds what was written before that text. *)
Theorem renderer_failures (rt : runtime) (clk : clock) (tick : nat)
    (h h' : host) (prompts : list prompt_record) (workspace_path : path)
    (output_file : str) (res : result bool) (tick' : nat) :
  write_prompts_to_log rt clk tick h prompts workspace_path output_file
  = (res, h', tick') ->
  let data := fst (write_chunks (log_chunks rt (clk tick) workspace_path prompts) []) in
  (res = Ok false ->
   (h' = h /\ tick' = tick)
   \/ (tick' = S tick
       /\ exists n,
            disk_room rt = Some n /\ (n < length data)%nat
            /\ lookup h' (Path output_file) = Some (File (firstn n data))))
  /\ (forall e, res = Raise e ->
        (open_raises output_file = Some e /\ h' = h /\ tick' = tick
         /\ (e = UnicodeEncodeError \/ e = ValueError))
        \/ (open_raises output_file = None /\ e = UnicodeEncodeError
            /\ tick' = S tick
            /\ lookup h' (Path output_file) = Some (File data)
            /\ existsb unencodable
                 (concat (log_chunks rt (clk tick) workspace_path prompts)) = true))
  /\ (disk_room rt = None -> res = Ok false -> h' = h /\ tick' = tick).
Proof.
  intros W data. apply write_prompts_to_log_cases in W.
  destruct W as [(-> & -> & [-> | (_ & e & -> & O)])
                | (_ & -> & O & bytes & _ & L
                   & [(-> & _) | [(-> & U & ->) | (-> & n & R & Hn & ->)]])].
  - split; [auto|]. split; [discriminate | auto].
  - split; [discriminate|]. split; [|discriminate].
    intros e' He. injection He as <-. left. repeat split; auto.
    unfold open_raises in O. destruct (fsencode output_file).
    + destruct (existsb (N.eqb 0) output_file); [|discriminate].
      injection O as <-. auto.
    + injection O as <-. auto.
  - split; [discriminate|]. split; discriminate.
  - split; [discriminate|]. split; [|discriminate].
    intros e He. injection He as <-. right. auto.
  - split; [|split; [discriminate|]].
    + intros _. right. split; [reflexivity|]. exists n. auto.
    + intros R'. congruence.
Qed.

(** A text with the lone surrogate [\ud800], as [json.loads] returns it for
    that escape: the header reaches the file, the record does not.  A name
    with a null character: nothing is created. *)
Lemma renderer_failures_witness :
  (exists h' data,
     write_prompts_to_log rt_demo clk_demo 0 (host_demo None)
       [record_of (clk_demo 0%nat) [(lit "text", JStr [55296])]]
       (Path (lit "/home/u/work")) (lit "out.log")
     = (Raise UnicodeEncodeError, h', 1%nat)
     /\ lookup h' (Path (lit "out.log")) = Some (File data))
  /\ write_prompts_to_log rt_demo clk_demo 0 (host_demo None)
       [record_of (clk_demo 0%nat) [(lit "text", JStr (lit "hi"))]]
       (Path (lit "/home/u/work")) [97; 0; 98]
     = (Raise ValueError, host_demo None, 0%nat).
Proof.
  split; [|vm_compute; reflexivity].
  eexists. eexists. split; [vm_compute; reflexivity|].
  match goal with
  | |- lookup ?h1 _ = _ =>
      destruct (renderer_failures rt_demo clk_demo 0 (host_demo None) h1
                  [record_of (clk_demo 0%nat) [(lit "text", JStr [55296])]]
                  (Path (lit "/home/u/work")) (lit "out.log")
                  (Raise UnicodeEncodeError) 1) as (_ & R & _)
  end.
  - vm_compute. reflexivity.
  - destruct (R UnicodeEncodeError eq_refl) as [(O & _) | (_ & _ & _ & L & _)].
    + vm_compute in O. discriminate O.
    + rewrite L. reflexivity.
Defined.

(* ================================================================== *)
(** * Further properties of the run *)
(* ================================================================== *)

(** X16.  A run changes the machine at the output path only, and only when
    the renderer opened the file: the machine afterwards is the machine
    before, or the machine before with a file written at the output path.
    It is the machine before when the run ends with "no databases" or with an
    exception other than [UnicodeEncodeError]; and when the device is not
    short of room, also when it ends with "no prompts". *)
Theorem run_without_report_changes_nothing (rt : runtime) (clk : clock)
    (h h' : host) (output : str) (o : outcome) :
  main rt clk h output = (o, h') ->
  (h' = h \/ exists bytes, write_file h (Path output) bytes = Some h')
  /\ (o = NoDatabases -> h' = h)
  /\ (forall e, o = Failed e -> e <> UnicodeEncodeError -> h' = h)
  /\ (o = NothingWritten -> disk_room rt = None -> h' = h).
Proof.
  unfold main. destruct (find_cursor_dbs rt h) as [|db dbs].
  { intros H. injection H as <- <-. repeat split; auto. }
  destruct (collect_sorted rt clk h (db :: dbs)) as [[sorted tick]|e].
  2: { intros H. injection H as <- <-. repeat split; auto. }
  destruct (write_prompts_to_log rt clk tick h sorted (lit "/" :: cwd h) output)
    as [[res h1] t1] eqn:W.
  apply write_prompts_to_log_cases in W.
  destruct W as [(-> & -> & _)
                | (_ & -> & O & bytes & F & L
                   & [(-> & _) | [(-> & U & ->) | (-> & n & R & Hn & ->)]])].
  - destruct res as [[|]|e]; intros H; injection H as <- <-; repeat split; auto.
  - intros H; injection H as <- <-. split; [right; eauto|].
    repeat split; try discriminate.
  - intros H; injection H as <- <-. split; [right; eauto|].
    repeat split; try discriminate.
    intros e He Hne. injection He as <-. congruence.
  - intros H; injection H as <- <-. split; [right; eauto|].
    repeat split; try discriminate.
    intros _ R'. congruence.
Qed.

(** The store of the example holds no array: "no prompts", nothing
    written. *)
Lemma run_without_report_changes_nothing_witness :
  main rt_demo clk_demo (host_store (lit "not json")) (lit "out.log")
  = (NothingWritten, host_store (lit "not json")).
Proof.
  assert (E : fst (main rt_demo clk_demo (host_store (lit "not json")) (lit "out.log"))
              = NothingWritten) by (vm_compute; reflexivity).
  destruct (main rt_demo clk_demo (host_store (lit "not json")) (lit "out.log"))
    as [o h'] eqn:M.
  simpl in E. subst o. f_equal.
  apply (run_without_report_changes_nothing rt_demo clk_demo
           (host_store (lit "not json")) h' (lit "out.log") NothingWritten M).
  - reflexivity.
  - reflexivity.
Defined.

Lemma extract_rows_acc (clk : clock) (workspace_files : list str)
    (rows : list (list (str * str))) :
  forall acc tick,
    extract_rows clk workspace_files rows acc tick
    = match extract_rows clk workspace_files rows [] tick with
      | Ok (new, tick') => Ok (acc ++ new, tick')
      | Raise e => Raise e
      end.
Proof.
  induction rows as [|row rows IH]; intros acc tick; simpl.
  - rewrite app_nil_r. reflexivity.
  - destruct (row_get (lit "value") row) as [value|]; [|apply IH].
    destruct (extract_prompts_from_value clk tick value workspace_files)
      as [[prompts t1]|e]; [|reflexivity].
    rewrite (IH (acc ++ prompts)), (IH ([] ++ prompts)).
    destruct (extract_rows clk workspace_files rows [] t1) as [[new t2]|e];
      [|reflexivity].
    simpl. rewrite app_assoc. reflexivity.
Qed.

(** What a list of stores adds does not depend on what was there. *)
Lemma extract_dbs_acc (rt : runtime) (clk : clock) (h : host)
    (workspace_files : list str) (dbs : list path) :
  forall acc tick,
    extract_dbs rt clk h workspace_files dbs acc tick
    = match extract_dbs rt clk h workspace_files dbs [] tick with
      | Ok (new, tick') => Ok (acc ++ new, tick')
      | Raise e => Raise e
      end.
Proof.
  induction dbs as [|db dbs IH]; intros acc tick; simpl.
  - rewrite app_nil_r. reflexivity.
  - destruct (match lookup h db with
              | Some (File data) => sqlite_prompt_rows rt data
              | _ => None
              end) as [rows|]; [|apply IH].
    rewrite (extract_rows_acc clk workspace_files rows acc).
    destruct (extract_rows clk workspace_files rows [] tick) as [[new t1]|e];
      [|reflexivity].
    rewrite (IH (acc ++ new)), (IH new).
    destruct (extract_dbs rt clk h workspace_files dbs [] t1) as [[new' t2]|e];
      [|reflexivity].
    rewrite app_assoc. reflexivity.
Qed.

(** The stores of a list that follows another are read after it. *)
Lemma extract_dbs_app (rt : runtime) (clk : clock) (h : host)
    (workspace_files : list str) (dbs1 dbs2 : list path) (tick : nat) :
  extract_dbs rt clk h workspace_files (dbs1 ++ dbs2) [] tick
  = match extract_dbs rt clk h workspace_files dbs1 [] tick with
    | Ok (first, tick1) =>
        match extract_dbs rt clk h workspace_files dbs2 [] tick1 with
        | Ok (second, tick2) => Ok (first ++ second, tick2)
        | Raise e => Raise e
        end
    | Raise e => Raise e
    end.
Proof.
  revert tick. induction dbs1 as [|db dbs1 IH]; intros tick; simpl.
  - destruct (extract_dbs rt clk h workspace_files dbs2 [] tick) as [[s t]|e];
      reflexivity.
  - destruct (match lookup h db with
              | Some (File data) => sqlite_prompt_rows rt data
              | _ => None
              end) as [rows|]; [|apply IH].
    destruct (extract_rows clk workspace_files rows [] tick) as [[new t1]|e];
      [|reflexivity].
    rewrite (extract_dbs_acc rt clk h workspace_files (dbs1 ++ dbs2) new), IH.
    rewrite (extract_dbs_acc rt clk h workspace_files dbs1 new).
    destruct (extract_dbs rt clk h workspace_files dbs1 [] t1) as [[f t2]|e];
      [|reflexivity].
    destruct (extract_dbs rt clk h workspace_files dbs2 [] t2) as [[s t3]|e];
      [|reflexivity].
    rewrite app_assoc. reflexivity.
Qed.

(** X17.  The records of the stores are put together in the order of the
    stores: the result for a list of stores followed by another is the result
    for the first list, followed by that of the second list run with the
    clock where the first left it; an exception in the first list ends the
    whole. *)
Theorem stores_are_extracted_in_order (rt : runtime) (clk : clock) (h : host)
    (workspace_files : list str) (dbs1 dbs2 : list path) (tick : nat) :
  extract_dbs rt clk h workspace_files (dbs1 ++ dbs2) [] tick
  = match extract_dbs rt clk h workspace_files dbs1 [] tick with
    | Ok (first, tick1) =>
        match extract_dbs rt clk h workspace_files dbs2 [] tick1 with
        | Ok (second, tick2) => Ok (first ++ second, tick2)
        | Raise e => Raise e
        end
    | Raise e => Raise e
    end.
Proof. apply extract_dbs_app. Qed.

(** X18.  A store that cannot be queried (it is missing, a directory, or
    the query raises [sqlite3.Error]) is passed over: the run gives what it
    gives without such stores. *)
Theorem unqueryable_stores_are_skipped (rt : runtime) (clk : clock) (h : host)
    (workspace_files : list str) (dbs : list path)
    (acc : list prompt_record) (tick : nat) :
  extract_dbs rt clk h workspace_files dbs acc tick
  = extract_dbs rt clk h workspace_files (filter (queryable rt h) dbs) acc tick.
Proof.
  revert acc tick. induction dbs as [|db dbs IH]; intros acc tick; [reflexivity|].
  cbn [filter]. unfold queryable at 1, store_rows. cbn [extract_dbs].
  destruct (match lookup h db with
            | Some (File data) => sqlite_prompt_rows rt data
            | _ => None
            end) as [rows|] eqn:E.
  - cbn [extract_dbs]. rewrite E.
    destruct (extract_rows clk workspace_files rows acc tick) as [[a t]|e];
      [apply IH | reflexivity].
  - apply IH.
Qed.

(* ================================================================== *)
(** * The order of the clock's timestamps *)
(* ================================================================== *)

Lemma str_ltb_app_eqlen (x y s t : str) :
  length x = length y ->
  str_ltb (x ++ s) (y ++ t) = str_ltb x y || (str_eqb x y && str_ltb s t).
Proof.
  revert y. induction x as [|c x IH]; intros [|c' y] H; simpl in H; try discriminate.
  - simpl. destruct s, t; reflexivity.
  - simpl. rewrite IH by congruence.
    destruct (c <? c'), (c =? c'), (str_ltb x y), (str_eqb x y), (str_ltb s t);
      reflexivity.
Qed.

Lemma digits_shift (s : str) :
  forall a,
    fold_left (fun a c => a * 10 + (c - 48)) s a
    = a * 10 ^ N.of_nat (length s) + digits_number s.
Proof.
  unfold digits_number. induction s as [|c s IH]; intros a.
  - simpl. lia.
  - cbn [fold_left length]. rewrite IH, (IH (0 * 10 + (c - 48))).
    replace (N.of_nat (S (length s))) with (N.succ (N.of_nat (length s))) by lia.
    rewrite N.pow_succ_r'. lia.
Qed.

Lemma digits_number_cons (c : N) (s : str) :
  digits_number (c :: s) = (c - 48) * 10 ^ N.of_nat (length s) + digits_number s.
Proof.
  unfold digits_number at 1. cbn [fold_left]. rewrite digits_shift. lia.
Qed.

Lemma digits_number_bound (s : str) :
  Forall (fun c => digit c = true) s ->
  digits_number s < 10 ^ N.of_nat (length s).
Proof.
  induction 1 as [|c s Hc Hs IH].
  - unfold digits_number. simpl. lia.
  - rewrite digits_number_cons.
    unfold digit in Hc. apply andb_true_iff in Hc. rewrite !N.leb_le in Hc.
    replace (N.of_nat (length (c :: s))) with (N.succ (N.of_nat (length s)))
      by (simpl length; lia).
    rewrite N.pow_succ_r'. nia.
Qed.

(** Strings of as many digits compare as the numbers they denote. *)
Lemma digits_compare (x : str) :
  forall y,
    length x = length y ->
    Forall (fun c => digit c = true) x -> Forall (fun c => digit c = true) y ->
    str_ltb x y = (digits_number x <? digits_number y)
    /\ str_eqb x y = (digits_number x =? digits_number y).
Proof.
  induction x as [|c x IH]; intros [|c' y] H Hx Hy; simpl in H; try discriminate.
  - split; reflexivity.
  - apply Forall_cons_iff in Hx, Hy. destruct Hx as [Hc Hx]. destruct Hy as [Hc' Hy].
    destruct (IH y ltac:(congruence) Hx Hy) as [IHl IHe].
    pose proof (digits_number_bound x Hx) as Bx.
    pose proof (digits_number_bound y Hy) as By.
    rewrite !digits_number_cons. simpl str_ltb. simpl str_eqb. rewrite IHl, IHe.
    assert (L : length x = length y) by congruence. rewrite L in *.
    unfold digit in Hc, Hc'. apply andb_true_iff in Hc, Hc'.
    rewrite !N.leb_le in Hc, Hc'.
    set (P := 10 ^ N.of_nat (length y)) in *.
    set (vx := digits_number x) in *. set (vy := digits_number y) in *.
    split.
    + destruct (N.ltb_spec c c'); simpl.
      * symmetry. apply N.ltb_lt. nia.
      * destruct (N.eqb_spec c c'); simpl.
        -- subst c'. destruct (N.ltb_spec vx vy); symmetry;
             [apply N.ltb_lt | apply N.ltb_ge]; nia.
        -- symmetry. apply N.ltb_ge. nia.
    + destruct (N.eqb_spec c c'); simpl.
      * subst c'. destruct (N.eqb_spec vx vy); symmetry;
          [apply N.eqb_eq | apply N.eqb_neq]; nia.
      * symmetry. apply N.eqb_neq. nia.
Qed.

Lemma digits_number_zeros (k : nat) (s : str) :
  digits_number (repeat 48 k ++ s) = digits_number s.
Proof.
  induction k as [|k IH]; [reflexivity|].
  cbn [repeat app]. rewrite digits_number_cons.
  unfold digits_number at 1 in IH. unfold digits_number at 1. exact IH.
Qed.

(** ["%0wd" % n] denotes [n]. *)
Lemma fmt_d_number (w : nat) (n : N) : digits_number (fmt_d w n) = n.
Proof.
  unfold fmt_d, zfill. rewrite digits_number_zeros. apply decimal_value.
Qed.

(** Numbers printed with one width compare as strings the way they compare
    as numbers. *)
Lemma fmt_d_compare (w : nat) (n m : N) :
  n < 10 ^ N.of_nat w -> m < 10 ^ N.of_nat w -> (1 <= w)%nat ->
  length (fmt_d w n) = length (fmt_d w m)
  /\ str_ltb (fmt_d w n) (fmt_d w m) = (n <? m)
  /\ str_eqb (fmt_d w n) (fmt_d w m) = (n =? m).
Proof.
  intros Hn Hm Hw.
  destruct (fmt_d_shape w n Hn Hw) as [Ln Dn].
  destruct (fmt_d_shape w m Hm Hw) as [Lm Dm].
  assert (L : length (fmt_d w n) = length (fmt_d w m)) by congruence.
  split; [exact L|].
  destruct (digits_compare _ _ L Dn Dm) as [Hl He].
  rewrite Hl, He, !fmt_d_number. auto.
Qed.

(** X19.  The timestamps that the clock gives compare as strings the way
    the dates compare: for valid dates, [isoformat a < isoformat b] exactly
    when [a] is before [b], so the sort puts the later reading first. *)
Theorem clock_timestamps_order_by_time (a b : datetime) :
  valid_datetime a -> valid_datetime b ->
  str_ltb (isoformat a) (isoformat b) = datetime_ltb a b
  /\ py_lt (JStr (isoformat a)) (JStr (isoformat b)) = Some (datetime_ltb a b).
Proof.
  intros (Hy & Hm & Hd & Hh & Hi & Hs & Hu) (Hy' & Hm' & Hd' & Hh' & Hi' & Hs' & Hu').
  assert (E : str_ltb (isoformat a) (isoformat b) = datetime_ltb a b).
  2: { split; [exact E|]. simpl. rewrite E. reflexivity. }
  destruct (fmt_d_compare 4 (year a) (year b)) as (LY & CY & EY);
    [simpl; lia | simpl; lia | lia |].
  destruct (fmt_d_compare 2 (month a) (month b)) as (LM & CM & EM);
    [simpl; lia | simpl; lia | lia |].
  destruct (fmt_d_compare 2 (day a) (day b)) as (LD & CD & ED);
    [simpl; lia | simpl; lia | lia |].
  destruct (fmt_d_compare 2 (hour a) (hour b)) as (LH & CH & EH);
    [simpl; lia | simpl; lia | lia |].
  destruct (fmt_d_compare 2 (minute a) (minute b)) as (LI & CI & EI);
    [simpl; lia | simpl; lia | lia |].
  destruct (fmt_d_compare 2 (second a) (second b)) as (LS & CS & ES);
    [simpl; lia | simpl; lia | lia |].
  destruct (fmt_d_compare 6 (microsecond a) (microsecond b)) as (LU & CU & EU);
    [simpl; lia | simpl; lia | lia |].
  unfold isoformat, datetime_ltb. cbn [lex_ltb].
  rewrite (str_ltb_app_eqlen (fmt_d 4 (year a)) (fmt_d 4 (year b))) by exact LY.
  rewrite (str_ltb_app_eqlen (lit "-") (lit "-")) by reflexivity.
  rewrite (str_ltb_app_eqlen (fmt_d 2 (month a)) (fmt_d 2 (month b))) by exact LM.
  rewrite (str_ltb_app_eqlen (lit "-") (lit "-")) by reflexivity.
  rewrite (str_ltb_app_eqlen (fmt_d 2 (day a)) (fmt_d 2 (day b))) by exact LD.
  rewrite (str_ltb_app_eqlen (lit "T") (lit "T")) by reflexivity.
  rewrite (str_ltb_app_eqlen (fmt_d 2 (hour a)) (fmt_d 2 (hour b))) by exact LH.
  rewrite (str_ltb_app_eqlen (lit ":") (lit ":")) by reflexivity.
  rewrite (str_ltb_app_eqlen (fmt_d 2 (minute a)) (fmt_d 2 (minute b))) by exact LI.
  rewrite (str_ltb_app_eqlen (lit ":") (lit ":")) by reflexivity.
  rewrite (str_ltb_app_eqlen (fmt_d 2 (second a)) (fmt_d 2 (second b))) by exact LS.
  match goal with
  | |- context [str_ltb ?u ?v] =>
      lazymatch u with
      | (if _ then _ else _) => set (fa := u); set (fb := v)
      end
  end.
  assert (F : str_ltb fa fb = (microsecond a <? microsecond b)).
  { subst fa fb.
    destruct (N.eqb_spec (microsecond a) 0) as [Ea|Ea];
      destruct (N.eqb_spec (microsecond b) 0) as [Eb|Eb].
    - rewrite Ea, Eb. reflexivity.
    - rewrite Ea. symmetry. apply N.ltb_lt. lia.
    - rewrite Eb. symmetry. apply N.ltb_ge. lia.
    - rewrite (str_ltb_app_eqlen (lit ".") (lit ".")) by reflexivity.
      change (str_ltb (lit ".") (lit ".")) with false.
      change (str_eqb (lit ".") (lit ".")) with true.
      cbn [orb andb].
      rewrite <- (app_nil_r (fmt_d 6 (microsecond a))),
              <- (app_nil_r (fmt_d 6 (microsecond b))) in CU.
      rewrite !app_nil_r in CU. exact CU. }
  rewrite F, CY, EY, CM, EM, CD, ED, CH, EH, CI, EI, CS, ES.
  change (str_ltb (lit "-") (lit "-")) with false.
  change (str_eqb (lit "-") (lit "-")) with true.
  change (str_ltb (lit "T") (lit "T")) with false.
  change (str_eqb (lit "T") (lit "T")) with true.
  change (str_ltb (lit ":") (lit ":")) with false.
  change (str_eqb (lit ":") (lit ":")) with true.
  cbn [orb andb]. rewrite andb_false_r, orb_false_r. reflexivity.
Qed.

(** A reading with microseconds after one without, a second apart. *)
Lemma clock_timestamps_order_by_time_witness :
  str_ltb (isoformat (mkDatetime 2024 2 29 23 59 59 0))
          (isoformat (mkDatetime 2024 3 1 0 0 0 1500)) = true.
Proof.
  destruct (clock_timestamps_order_by_time (mkDatetime 2024 2 29 23 59 59 0)
              (mkDatetime 2024 3 1 0 0 0 1500)) as [E _].
  - unfold valid_datetime; simpl; lia.
  - unfold valid_datetime; simpl; lia.
  - rewrite E. vm_compute. reflexivity.
Defined.

(* ================================================================== *)
(** * How a run ends *)
(* ================================================================== *)

Lemma extract_raise (clk : clock) (tick : nat) (value : str)
    (workspace_files : list str) (e : exn) :
  extract_prompts_from_value clk tick value workspace_files = Raise e ->
  extraction_error e.
Proof.
  unfold extract_prompts_from_value, extraction_error.
  destruct (Json.loads value) as [v|e'] eqn:L.
  - destruct v; try discriminate. rewrite extract_loop_eq.
    destruct (forallb text_is_str (rev items)); [discriminate|].
    intros H; injection H as <-. auto.
  - apply loads_raise in L. destruct L as [-> | [-> | ->]]; [discriminate| |];
      intros H; injection H as <-; auto.
Qed.

Lemma extract_rows_raise (clk : clock) (workspace_files : list str)
    (rows : list (list (str * str))) :
  forall acc tick e,
    extract_rows clk workspace_files rows acc tick = Raise e -> extraction_error e.
Proof.
  induction rows as [|row rows IH]; intros acc tick e; simpl; [discriminate|].
  destruct (row_get (lit "value") row) as [value|]; [|apply IH].
  destruct (extract_prompts_from_value clk tick value workspace_files)
    as [[prompts t1]|e'] eqn:E.
  - apply IH.
  - intros H. injection H as <-. eapply extract_raise; eassumption.
Qed.

Lemma extract_dbs_raise (rt : runtime) (clk : clock) (h : host)
    (workspace_files : list str) (dbs : list path) :
  forall acc tick e,
    extract_dbs rt clk h workspace_files dbs acc tick = Raise e -> extraction_error e.
Proof.
  induction dbs as [|db dbs IH]; intros acc tick e; simpl; [discriminate|].
  destruct (match lookup h db with
            | Some (File data) => sqlite_prompt_rows rt data
            | _ => None
            end) as [rows|]; [|apply IH].
  destruct (extract_rows clk workspace_files rows acc tick) as [[a t]|e'] eqn:E.
  - apply IH.
  - intros H. injection H as <-. eapply extract_rows_raise; eassumption.
Qed.

(** X20.  One row on which the extraction raises, in any store, loses the
    whole report: when the stores before it were read without error and its
    store raises, [main] ends with that exception and writes nothing,
    whatever the other stores held.  The exception is [AttributeError] (an
    element whose [text] is not a string), [RecursionError] (a value nested
    too deeply) or [ValueError] (an integer literal that is too long). *)
Theorem one_bad_store_loses_the_report (rt : runtime) (clk : clock) (h : host)
    (output : str) (dbs1 : list path) (db : path) (dbs2 : list path)
    (first : list prompt_record) (tick1 : nat) (e : exn) :
  find_cursor_dbs rt h = dbs1 ++ db :: dbs2 ->
  extract_dbs rt clk h (get_project_files h (lit "/" :: cwd h)) dbs1 [] 0
  = Ok (first, tick1) ->
  extract_dbs rt clk h (get_project_files h (lit "/" :: cwd h)) [db] [] tick1
  = Raise e ->
  (e = AttributeError \/ e = RecursionError \/ e = ValueError)
  /\ main rt clk h output = (Failed e, h).
Proof.
  intros F E1 E2.
  split; [exact (extract_dbs_raise _ _ _ _ _ _ _ _ E2)|].
  unfold main, collect_sorted. rewrite F.
  destruct (dbs1 ++ db :: dbs2) as [|d ds] eqn:D.
  { destruct dbs1; discriminate. }
  rewrite <- D.
  change (db :: dbs2) with ([db] ++ dbs2).
  rewrite extract_dbs_app, E1, extract_dbs_app, E2. reflexivity.
Qed.

(** The first store gives three records, the second has a number as
    [text]; or the second is nested too deeply. *)
Lemma one_bad_store_loses_the_report_witness :
  (let h := host_pair store_text (jlit "[{'text': 5}]") in
   main rt_demo clk_demo h (lit "out.log") = (Failed AttributeError, h))
  /\ (let h := host_pair store_text deep_value in
      main rt_demo clk_demo h (lit "out.log") = (Failed RecursionError, h)).
Proof.
  split; intros h.
  - apply (one_bad_store_loses_the_report rt_demo clk_demo h (lit "out.log")
             [Path (lit "/home/u/.config/Cursor/Storage/a.db")]
             (Path (lit "/home/u/.config/Cursor/User/state.vscdb")) []
             (records_from clk_demo 0
                [ [(lit "text", JStr (lit "c"));
                   (lit "timestamp", JStr (lit "2024-01-03T09:00:00"))];
                  [(lit "text", JStr (lit "a"));
                   (lit "timestamp", JStr (lit "2024-01-01T09:00:00"))];
                  [(lit "text", JStr (lit "b"));
                   (lit "timestamp", JStr (lit "2024-01-02T09:00:00"))] ])
             3 AttributeError).
    + vm_compute. reflexivity.
    + vm_compute. reflexivity.
    + vm_compute. reflexivity.
  - apply (one_bad_store_loses_the_report rt_demo clk_demo h (lit "out.log")
             [Path (lit "/home/u/.config/Cursor/Storage/a.db")]
             (Path (lit "/home/u/.config/Cursor/User/state.vscdb")) []
             (records_from clk_demo 0
                [ [(lit "text", JStr (lit "c"));
                   (lit "timestamp", JStr (lit "2024-01-03T09:00:00"))];
                  [(lit "text", JStr (lit "a"));
                   (lit "timestamp", JStr (lit "2024-01-01T09:00:00"))];
                  [(lit "text", JStr (lit "b"));
                   (lit "timestamp", JStr (lit "2024-01-02T09:00:00"))] ])
             3 RecursionError).
    + vm_compute. reflexivity.
    + vm_compute. reflexivity.
    + vm_compute. reflexivity.
Defined.

(** X21.  A run that reports success has written its report where it was
    asked to: the report is not empty, it is a rearrangement of all the
    records extracted from the stores found, and the file at the output path
    holds the UTF-8 encoding of the log of the report. *)
Theorem successful_run_wrote_all_records (rt : runtime) (clk : clock)
    (h h' : host) (output : str) (report : list prompt_record) :
  main rt clk h output = (Wrote report, h') ->
  report <> []
  /\ exists all_prompts tick data,
       extract_dbs rt clk h (get_project_files h (lit "/" :: cwd h))
         (find_cursor_dbs rt h) [] 0 = Ok (all_prompts, tick)
       /\ Permutation all_prompts report
       /\ lookup h' (Path output) = Some (File data)
       /\ utf8_encode (concat (log_chunks rt (clk tick) (lit "/" :: cwd h) report))
          = Some data.
Proof.
  intros M. destruct (main_wrote _ _ _ _ _ _ M) as (tick & C & W).
  apply write_prompts_to_log_cases in W.
  destruct W as [(_ & _ & [E | (_ & e & E & _)])
                | (Hp & _ & _ & data & _ & L & [(_ & E) | [(E & _) | (E & _)]])];
    try discriminate.
  split; auto.
  unfold collect_sorted in C.
  destruct (extract_dbs rt clk h _ (find_cursor_dbs rt h) [] 0)
    as [[all_prompts t]|e]; [|discriminate].
  destruct (sort_desc all_prompts) as [sorted|e] eqn:S; [|discriminate].
  injection C as <- <-.
  exists all_prompts, t, data. repeat split; auto.
  apply sort_desc_perm. assumption.
Qed.

(** The run on the example machine writes [/home/u/work/out.log]. *)
Lemma successful_run_wrote_all_records_witness :
  exists report h' data,
    main rt_demo clk_demo (host_demo None) (lit "out.log") = (Wrote report, h')
    /\ length report = 3%nat
    /\ lookup h' (Path (lit "/home/u/work/out.log")) = Some (File data).
Proof.
  destruct (main rt_demo clk_demo (host_demo None) (lit "out.log")) as [o h'] eqn:M.
  assert (Eo : exists report, o = Wrote report /\ length report = 3%nat).
  { assert (E : o = fst (main rt_demo clk_demo (host_demo None) (lit "out.log")))
      by (rewrite M; reflexivity).
    vm_compute in E. rewrite E. eexists. split; reflexivity. }
  destruct Eo as [report [-> Hlen]].
  destruct (successful_run_wrote_all_records rt_demo clk_demo (host_demo None) h'
              (lit "out.log") report M) as (_ & _ & _ & data & _ & _ & L & _).
  exists report, h', data. repeat split; auto.
  assert (Eh : h' = snd (main rt_demo clk_demo (host_demo None) (lit "out.log")))
    by (rewrite M; reflexivity).
  assert (X : exists d, lookup (snd (main rt_demo clk_demo (host_demo None) (lit "out.log")))
                          (Path (lit "/home/u/work/out.log")) = Some (File d)).
  { vm_compute. eexists. reflexivity. }
  destruct X as [d X]. rewrite <- Eh in X.
  assert (Y : lookup h' (Path (lit "out.log"))
              = lookup h' (Path (lit "/home/u/work/out.log"))).
  { rewrite Eh. vm_compute. reflexivity. }
  rewrite <- Y. exact L.
Defined.

(** X22.  The exceptions with which a run ends (the values of the rows are
    text, as everywhere here, and printing is not modelled): from the
    extraction, [AttributeError] for an element whose [text] is not a string,
    [RecursionError] and [ValueError] from the decoder; [TypeError] from the
    sort; from the renderer, [UnicodeEncodeError] and [ValueError] for the
    name of the output file and [UnicodeEncodeError] for a text that cannot
    be encoded.  A value that [json.loads] refuses with [JSONDecodeError], a
    store that cannot be queried and an [IOError] of the renderer never end a
    run in an error. *)
Theorem run_errors (rt : runtime) (clk : clock) (h h' : host) (output : str)
    (e : exn) :
  main rt clk h output = (Failed e, h') ->
  (e = AttributeError \/ e = RecursionError \/ e = ValueError
   \/ e = TypeError \/ e = UnicodeEncodeError)
  /\ (e <> UnicodeEncodeError -> h' = h).
Proof.
  unfold main. destruct (find_cursor_dbs rt h) as [|db dbs]; [discriminate|].
  unfold collect_sorted.
  destruct (extract_dbs rt clk h _ (db :: dbs) [] 0) as [[all_prompts t]|e1] eqn:E.
  - destruct (sort_desc all_prompts) as [sorted|e2] eqn:S.
    + destruct (write_prompts_to_log rt clk t h sorted (lit "/" :: cwd h) output)
        as [[res h1] t1] eqn:W.
      apply write_prompts_to_log_cases in W.
      destruct W as [(-> & _ & [-> | (_ & e0 & -> & O)])
                    | (_ & _ & O & bytes & _ & _
                       & [(-> & _) | [(-> & _) | (-> & _)]])];
        intros H; try discriminate; injection H as <- <-.
      * split; [|auto].
        unfold open_raises in O. destruct (fsencode output).
        -- destruct (existsb (N.eqb 0) output); [|discriminate].
           injection O as <-. auto.
        -- injection O as <-. auto 6.
      * split; [auto 6 | congruence].
    + intros H. injection H as <- <-. pose proof (sort_desc_raise _ _ S) as ->.
      split; [auto 6 | auto].
  - intros H. injection H as <- <-.
    destruct (extract_dbs_raise _ _ _ _ _ _ _ _ E) as [-> | [-> | ->]];
      (split; [auto 6 | auto]).
Qed.

(** A store with an integer timestamp and an element without timestamp
    ends the run in [TypeError], and nothing is changed. *)
Lemma run_errors_witness :
  let h := host_store (jlit "[{'text': 'a', 'timestamp': 1}, {'text': 'b'}]") in
  fst (main rt_demo clk_demo h (lit "out.log")) = Failed TypeError
  /\ snd (main rt_demo clk_demo h (lit "out.log")) = h.
Proof.
  intros h.
  assert (M : fst (main rt_demo clk_demo h (lit "out.log")) = Failed TypeError)
    by (vm_compute; reflexivity).
  split; [exact M|].
  destruct (main rt_demo clk_demo h (lit "out.log")) as [o h'] eqn:E.
  cbn [fst snd] in *. subst o.
  apply (run_errors rt_demo clk_demo h h' (lit "out.log") TypeError E).
  discriminate.
Defined.

(** X23.  A row without a [value] column gives nothing and does not stop
    the loop: the rows of a store give what the rows that have the column
    give. *)
Theorem rows_without_value_are_skipped (clk : clock) (workspace_files : list str)
    (rows : list (list (str * str))) (acc : list prompt_record) (tick : nat) :
  extract_rows clk workspace_files rows acc tick
  = extract_rows clk workspace_files (filter has_value rows) acc tick.
Proof.
  revert acc tick. induction rows as [|row rows IH]; intros acc tick; [reflexivity|].
  cbn [filter]. unfold has_value at 1. cbn [extract_rows].
  destruct (row_get (lit "value") row) as [value|] eqn:E.
  - cbn [extract_rows]. rewrite E.
    destruct (extract_prompts_from_value clk tick value workspace_files)
      as [[prompts t]|e]; [apply IH | reflexivity].
  - apply IH.
Qed.
